(** * acfshell: the job-lifecycle engine of the script runner

    A shallow embedding of [src/acfshell/script_runner.hpp],
    [src/acfshell/script_iface.hpp] and [src/acfshell/acf_shell_iface.hpp].

    The three C++ structs share one single-threaded [io_context]; every
    handler (bus method, timer, coroutine resumption, bus signal) runs to its
    next suspension point without interleaving.  The embedding therefore
    keeps one record [World] holding the fields of the three structs and the
    part of the environment they touch (working storage, suspended
    coroutines), and gives every handler as a function on [World].  What the
    environment decides (the clock, the digest primitive, whether a file can
    be opened, what the child prints, what the dump service answers) is an
    argument of the handler that consumes it.

    Strings captured by reference in the C++ are values here, with one
    exception: the parameter of [cancel_script], whose referent can be
    destroyed while the function runs (see [cancel_script]). *)

From Stdlib Require Import ZArith NArith Ascii String List Lia.
From Stdlib Require Import DecimalString DecimalZ DecimalPos.
From Stdlib.Strings Require Import Byte.
From stdpp Require Import gmap strings list fin_maps.

Open Scope Z_scope.

(** ** Error codes and results *)

(** The values of [boost::system::error_code] that occur in the sources:
    the default-constructed code, [net::error::eof],
    [boost::asio::error::operation_aborted], and any other failure of a
    pipe read. *)
Inductive error_code : Type :=
  | ec_default
  | ec_eof
  | ec_operation_aborted
  | ec_failure (n : Z).

#[global] Instance error_code_eq_dec : EqDecision error_code.
Proof. solve_decision. Defined.

(** [if (ec)]: an error code is truthy when it is not the default one. *)
Definition ec_set (ec : error_code) : bool :=
  match ec with ec_default => false | _ => true end.

(** The exceptions that the modelled code can raise or let through.
    [dangling_reference] is not an exception of the program: it marks the
    point where a handler reads a [std::string] through a reference to an
    object that has been destroyed.  From there on the behaviour of the
    program is undefined; the handler is taken to stop, with the world
    as it is at that point.  No [try] block of the sources encloses a
    place where this happens. *)
Inductive exn : Type :=
  | bad_optional_access
  | bad_function_call
  | filesystem_error
  | process_error
  | sdbus_error
  | dangling_reference.

#[global] Instance exn_eq_dec : EqDecision exn.
Proof. solve_decision. Defined.

(** Outcome of a call that either returns or throws. *)
Inductive res (A : Type) : Type :=
  | Ret (a : A)
  | Throw (e : exn).
Arguments Ret {A} a.
Arguments Throw {A} e.

(** ** Content hashing ([ScriptRunner::makeHash]) *)

Definition hex_digit (n : N) : ascii :=
  match n with
  | 0%N => "0" | 1%N => "1" | 2%N => "2" | 3%N => "3"
  | 4%N => "4" | 5%N => "5" | 6%N => "6" | 7%N => "7"
  | 8%N => "8" | 9%N => "9" | 10%N => "a" | 11%N => "b"
  | 12%N => "c" | 13%N => "d" | 14%N => "e" | _ => "f"
  end%char.

(** [snprintf(buf, sizeof(buf), "%02x", hash[i])] *)
Definition hex_byte (b : byte) : string :=
  let n := Byte.to_N b in
  String (hex_digit (n / 16)) (String (hex_digit (n mod 16)) EmptyString).

Fixpoint hex_string (hash : list byte) : string :=
  match hash with
  | [] => EmptyString
  | b :: rest => hex_byte b +:+ hex_string rest
  end.

Definition maxHashLen : nat := 16.

(** [hash_str.resize(maxHashLen)] when the string is longer. *)
Definition restrict_hash (hash_str : string) : string :=
  if (maxHashLen <? String.length hash_str)%nat
  then String.substring 0 maxHashLen hash_str
  else hash_str.

(** [std::to_string] of a [time_t]. *)
Definition to_string (t : Z) : string :=
  NilZero.string_of_int (Z.to_int t).

(** [std::chrono::system_clock::to_time_t] of a time point that stands
    [ns] nanoseconds after the epoch.  The clock of libstdc++ counts
    nanoseconds in an [int64_t]; the conversion to seconds truncates. *)
Definition to_time_t (ns : Z) : Z := Z.quot ns (10 ^ 9).

Definition int64 (n : Z) : Prop := - 2 ^ 63 <= n < 2 ^ 63.

Section Hashing.

(** The OpenSSL EVP calls are outside the repository.  [EVP_sha256 s] is
    what [EVP_MD_CTX_new], [EVP_DigestInit_ex], [EVP_DigestUpdate] and
    [EVP_DigestFinal_ex] leave in [hash[0..hash_len)] for input [s], or
    [None] when the context cannot be created or one of the calls does
    not return 1. *)
Variable EVP_sha256 : string -> option (list byte).

Definition makeHash (script : string) : option string :=
  match EVP_sha256 script with
  | None => None
  | Some hash => Some (restrict_hash (hex_string hash))
  end.

(** [AcfShellIface::makeScriptId]; [now_time_t] is the reading of the
    system clock, [system_clock::to_time_t(system_clock::now())]: see
    [to_time_t] for the readings the clock can give. *)
Definition makeScriptId (now_time_t : Z) (script : string) : option string :=
  let scriptWithTime := to_string now_time_t +:+ "_" +:+ script in
  makeHash scriptWithTime.

End Hashing.

(** ** SHA-256 (FIPS 180-4), the digest [EVP_sha256] selects *)

(** OpenSSL is not part of the repository.  The digest is written here
    from the standard, on words kept as numbers below [2 ^ 32], and is
    checked on the test vectors of the standard further down. *)

Module SHA256.

Local Open Scope N_scope.

Definition word (x : N) : N := N.land x 0xFFFFFFFF.

Definition add (x y : N) : N := word (x + y).

Definition rotr (n x : N) : N :=
  N.lor (N.shiftr x n) (word (N.shiftl x (32 - n))).

Definition shr (n x : N) : N := N.shiftr x n.

Definition Ch (x y z : N) : N :=
  N.lxor (N.land x y) (N.land (N.lxor x 0xFFFFFFFF) z).

Definition Maj (x y z : N) : N :=
  N.lxor (N.lxor (N.land x y) (N.land x z)) (N.land y z).

Definition Sigma0 (x : N) : N := N.lxor (N.lxor (rotr 2 x) (rotr 13 x)) (rotr 22 x).
Definition Sigma1 (x : N) : N := N.lxor (N.lxor (rotr 6 x) (rotr 11 x)) (rotr 25 x).
Definition sigma0 (x : N) : N := N.lxor (N.lxor (rotr 7 x) (rotr 18 x)) (shr 3 x).
Definition sigma1 (x : N) : N := N.lxor (N.lxor (rotr 17 x) (rotr 19 x)) (shr 10 x).

(** The first 64 primes. *)
Definition is_prime (n : nat) : bool :=
  forallb (fun d => negb (n mod d =? 0)%nat) (seq 2 (n - 2)).

Definition primes : list N :=
  map N.of_nat (List.filter is_prime (seq 2 310)).

(** The largest [r] below [2 ^ bits] whose [k]-th power is at most [x],
    found bit by bit from the top. *)
Fixpoint root (k : N) (bits : nat) (x r : N) : N :=
  match bits with
  | O => r
  | S b =>
      let r' := r + 2 ^ N.of_nat b in
      root k b x (if r' ^ k <=? x then r' else r)
  end.

(** The first 32 bits of the fractional part of the [k]-th root of [p]. *)
Definition frac_root (k p : N) : N :=
  word (root k 40 (p * 2 ^ (32 * k)) 0).

(** The round constants come from the cube roots of the first 64 primes,
    the initial hash value from the square roots of the first 8. *)
Definition K : list N := map (frac_root 3) primes.

Definition H0 : list N := map (frac_root 2) (firstn 8 primes).

(** Big-endian bytes of a number, [n] of them. *)
Fixpoint be_bytes (n : nat) (x : N) : list N :=
  match n with
  | O => []
  | S n' => N.land (N.shiftr x (8 * N.of_nat n')) 0xFF :: be_bytes n' x
  end.

(** The message, the byte 0x80, zeros up to 56 modulo 64, and the length
    in bits on 8 bytes. *)
Definition pad (msg : list N) : list N :=
  let len := length msg in
  let zeros := ((55 + 64 - len mod 64) mod 64)%nat in
  msg ++ 0x80 :: repeat 0 zeros ++ be_bytes 8 (8 * N.of_nat len).

Fixpoint be_words (bytes : list N) : list N :=
  match bytes with
  | b0 :: b1 :: b2 :: b3 :: rest =>
      (N.shiftl b0 24 + N.shiftl b1 16 + N.shiftl b2 8 + b3) :: be_words rest
  | _ => []
  end.

(** The message schedule, latest word first: [n] more words. *)
Fixpoint schedule (n : nat) (w : list N) : list N :=
  match n with
  | O => w
  | S n' =>
      let at_ i := nth i w 0 in
      schedule n' (add (add (sigma1 (at_ 1%nat)) (at_ 6%nat))
                       (add (sigma0 (at_ 14%nat)) (at_ 15%nat)) :: w)
  end.

Definition round (s : list N) (kw : N * N) : list N :=
  match s with
  | [a; b; c; d; e; f; g; h] =>
      let t1 := add (add (add (add h (Sigma1 e)) (Ch e f g)) kw.1) kw.2 in
      let t2 := add (Sigma0 a) (Maj a b c) in
      [add t1 t2; a; b; c; add d t1; e; f; g]
  | _ => s
  end.

Definition compress (h : list N) (block : list N) : list N :=
  let w := rev (schedule 48 (rev block)) in
  zip_with add h (fold_left round (combine K w) h).

Fixpoint blocks (n : nat) (h : list N) (words : list N) : list N :=
  match n with
  | O => h
  | S n' => blocks n' (compress h (firstn 16 words)) (skipn 16 words)
  end.

Definition digest_words (msg : list N) : list N :=
  let words := be_words (pad msg) in
  blocks (length words / 16) H0 words.

Definition byte_of (n : N) : byte := byte_of_ascii (ascii_of_N n).

Definition digest (msg : string) : list byte :=
  map byte_of
      (flat_map (be_bytes 4)
                (digest_words (map N_of_ascii (list_ascii_of_string msg)))).

End SHA256.

(** The digest calls when every one of them returns 1. *)
Definition EVP_sha256_ok (s : string) : option (list byte) := Some (SHA256.digest s).


(** ** The state shared by the handlers *)

(** The only callable this program ever stores in a [ScriptRunner::Callback]
    is [std::bind_front(&AcfShellIface::removeFromActive, this)], built in
    [AcfShellIface::runScript]. *)
Inductive Callback : Type := bound_removeFromActive.

(** [ScriptRunner::ScriptEntry].  The [bp::child] that [child] refers to is
    a local of one [execute] coroutine; it is named by the number of that
    coroutine.  The local is gone once that coroutine has ended, and an
    entry that is still in the table then holds a dangling reference; the
    embedding records a [terminate()] through [child] and does not say
    what it does to a child that is gone.  A [std::function] may be empty:
    [None]. *)
Record ScriptEntry : Type := mkScriptEntry {
  child : nat;
  callback : option Callback
}.

(** [ScriptIface::Data]; [data_timeout] is a [uint64_t]. *)
Record Data : Type := mkData {
  data_script : string;
  data_id : string;
  data_timeout : Z;
  data_dumpNeeded : bool
}.

(** The part of a [ScriptIface] that the handlers read or write: its data
    and its timer.  [timer = Some d] while an [async_wait] is pending, [d]
    being the duration given to [expires_after], in the nanoseconds of
    [steady_timer::duration]. *)
Record ScriptIface : Type := mkScriptIface {
  data : Data;
  timer : option Z
}.

(** Where an [execute] coroutine is suspended, or how it ended. *)
Inductive Suspension : Type :=
  | Spawned       (* handed to co_spawn, body not entered yet *)
  | Streaming     (* co_await writeResult(ap, ep, ofs) *)
  | DumpCall      (* startDump: co_await of the CreateDump reply *)
  | DumpBackoff   (* startDump: co_await of the 20 s steady_timer *)
  | Finished      (* ran past invokeCallback and remove *)
  | NotRunning    (* co_return after !c.running() *)
  | Caught        (* the catch block ran to its end *)
  | Escaped (e : exn). (* an exception left the coroutine *)

#[global] Instance Suspension_eq_dec : EqDecision Suspension.
Proof. solve_decision. Defined.

(** The frame of one [execute] coroutine: its parameters, the state of its
    by-value [callback] parameter ([None] once it has been moved from; the
    moved-from [std::function] of libstdc++ is empty), its output stream
    ([Some path] while [ofs] is open on [path]) and its suspension point. *)
Record Frame : Type := mkFrame {
  fr_filename : string;
  fr_hash : string;
  fr_dumpNeeded : bool;
  fr_callback : option Callback;
  fr_ofs : option string;
  fr_at : Suspension
}.

(** What the handlers do to the world outside, in program order.  This is
    the only ghost component of the state: no handler reads it. *)
Inductive Obs : Type :=
  | ObsCallback (ec : error_code) (id : string) (* a Callback is invoked *)
  | ObsEmplace (id : string) (pid : nat)        (* script_cache gains an entry *)
  | ObsErase (id : string)                      (* script_cache loses an entry *)
  | ObsTerminate (pid : nat)                    (* child.terminate() *)
  | ObsCancel (id : string) (found : bool)      (* ScriptIface::cancel returns *)
  | ObsPublish (id : string)                    (* objServer.add_interface *)
  | ObsUnpublish (id : string)                  (* objServer.remove_interface *)
  | ObsArm (id : string) (expiry : Z)           (* timer->async_wait *)
  | ObsCreateDump (id : string).                (* CreateDump call sent *)

#[global] Instance Obs_eq_dec : EqDecision Obs.
Proof. solve_decision. Defined.

Record World : Type := mkWorld {
  scriptIfaces : list ScriptIface;              (* AcfShellIface *)
  script_cache : gmap string ScriptEntry;       (* ScriptRunner *)
  dumpProgressMatches : gmap string (string * string);
      (* ScriptRunner; a match is the pair (id, dumpId) its callback captured *)
  frames : list Frame;                          (* coroutines, by number *)
  dirs : gset string;                           (* existing directories *)
  files : gmap string string;                   (* regular files by path *)
  trace : list Obs
}.

Definition initial : World :=
  mkWorld [] ∅ ∅ [] ∅ ∅ [].

Definition with_scriptIfaces (l : list ScriptIface) (w : World) : World :=
  mkWorld l (script_cache w) (dumpProgressMatches w) (frames w)
          (dirs w) (files w) (trace w).

Definition with_script_cache (c : gmap string ScriptEntry) (w : World) : World :=
  mkWorld (scriptIfaces w) c (dumpProgressMatches w) (frames w)
          (dirs w) (files w) (trace w).

Definition with_matches (m : gmap string (string * string)) (w : World) : World :=
  mkWorld (scriptIfaces w) (script_cache w) m (frames w)
          (dirs w) (files w) (trace w).

Definition with_frames (f : list Frame) (w : World) : World :=
  mkWorld (scriptIfaces w) (script_cache w) (dumpProgressMatches w) f
          (dirs w) (files w) (trace w).

Definition with_dirs (d : gset string) (w : World) : World :=
  mkWorld (scriptIfaces w) (script_cache w) (dumpProgressMatches w) (frames w)
          d (files w) (trace w).

Definition with_files (f : gmap string string) (w : World) : World :=
  mkWorld (scriptIfaces w) (script_cache w) (dumpProgressMatches w) (frames w)
          (dirs w) f (trace w).

Definition emit (o : Obs) (w : World) : World :=
  mkWorld (scriptIfaces w) (script_cache w) (dumpProgressMatches w) (frames w)
          (dirs w) (files w) (trace w ++ [o]).

Definition set_frame (pid : nat) (fr : Frame) (w : World) : World :=
  with_frames (<[pid := fr]> (frames w)) w.

Definition suspend_at (s : Suspension) (fr : Frame) : Frame :=
  mkFrame (fr_filename fr) (fr_hash fr) (fr_dumpNeeded fr)
          (fr_callback fr) (fr_ofs fr) s.

(** ** Handlers as state transformers that may throw *)

Definition M (A : Type) : Type := World -> res A * World.

#[global] Instance M_ret : MRet M := fun A a w => (Ret a, w).

#[global] Instance M_bind : MBind M := fun A B k m w =>
  match m w with
  | (Ret a, w1) => k a w1
  | (Throw e, w1) => (Throw e, w1)
  end.

Definition throw {A : Type} (e : exn) : M A := fun w => (Throw e, w).

Definition gets {A : Type} (f : World -> A) : M A := fun w => (Ret (f w), w).

Definition modify (f : World -> World) : M unit := fun w => (Ret tt, f w).

(** [try { m } catch (const std::exception&) { h }] *)
Definition try_catch {A : Type} (m : M A) (h : exn -> M A) : M A := fun w =>
  match m w with
  | (Ret a, w1) => (Ret a, w1)
  | (Throw e, w1) => h e w1
  end.

(** A local whose destructor [d] runs when the scope is left by an
    exception. *)
Definition unwinding {A : Type} (m : M A) (d : World -> World) : M A := fun w =>
  match m w with
  | (Ret a, w1) => (Ret a, w1)
  | (Throw e, w1) => (Throw e, d w1)
  end.

(** The world a handler leaves behind, whether it returned or threw. *)
Definition exec {A : Type} (m : M A) (w : World) : World := (m w).2.

(** ** ScriptIface: destructor *)

(** [~ScriptIface]: [timer->cancel()] drops the pending wait together with
    the object; [objServer.remove_interface(dbusIface)] is observable. *)
Definition ScriptIface_dtor (iface : ScriptIface) (w : World) : World :=
  emit (ObsUnpublish (data_id (data iface))) w.

(** ** AcfShellIface::removeFromActive, the target of every callback *)

Definition removeFromActive (ec : error_code) (scriptId : string) : M bool := fun w =>
  match list_find (fun iface => data_id (data iface) = scriptId) (scriptIfaces w) with
  | Some (k, iface) =>
      (Ret true,
       ScriptIface_dtor iface (with_scriptIfaces (delete k (scriptIfaces w)) w))
  | None => (Ret false, w)
  end.

(** Calling a [std::function]: empty throws [std::bad_function_call]. *)
Definition call (f : option Callback) (ec : error_code) (id : string) : M unit :=
  match f with
  | None => throw bad_function_call
  | Some bound_removeFromActive =>
      modify (emit (ObsCallback ec id)) ;;
      _ ← removeFromActive ec id;
      mret tt
  end.

(** ** Working storage *)

Definition acfdirectory : string := "/tmp/acf".

(** What the file system answers during one handler: whether
    [create_directories], opening an [ofstream] and [remove_all] succeed. *)
Record Fs : Type := mkFs {
  mkdir_ok : bool;
  open_ok : bool;
  remove_ok : bool
}.

Definition fs_ok : Fs := mkFs true true true.

(** [std::format("{}/{}", acfdirectory, id)] *)
Definition dir_path (id : string) : string :=
  acfdirectory +:+ "/" +:+ id.

(** [std::format("{}/{}.sh", dir, id)] and [std::format("{}/{}.out", dir, id)] *)
Definition file_path (dir id ext : string) : string :=
  dir +:+ "/" +:+ id +:+ ext.

Arguments dir_path : simpl never.
Arguments file_path : simpl never.

Definition scriptDir (env : Fs) (id : string) : M string := fun w =>
  let dir := dir_path id in
  if decide (dir ∈ dirs w) then (Ret dir, w)
  else if mkdir_ok env then (Ret dir, with_dirs ({[dir]} ∪ dirs w) w)
  else (Throw filesystem_error, w).

Definition scriptFileName (env : Fs) (id : string) : M string :=
  dir ← scriptDir env id;
  mret (file_path dir id ".sh").

Definition scriptOutputFileName (env : Fs) (id : string) : M string :=
  dir ← scriptDir env id;
  mret (file_path dir id ".out").

(** [std::filesystem::remove_all(dir)]: the directory and what is below it. *)
Definition remove_all (env : Fs) (dir : string) : M unit := fun w =>
  if remove_ok env then
    (Ret tt,
     with_files (filter (fun kv => String.prefix (dir +:+ "/") kv.1 = false) (files w))
                (with_dirs (dirs w ∖ {[dir]}) w))
  else (Throw filesystem_error, w).

(** [std::ofstream os(path)]: creates or truncates; [None] is a stream
    that failed to open, on which every write is dropped. *)
Definition ofstream_open (env : Fs) (path : string) : M (option string) := fun w =>
  if open_ok env then (Ret (Some path), with_files (<[path := EmptyString]> (files w)) w)
  else (Ret None, w).

Definition os_write (os : option string) (s : string) (w : World) : World :=
  match os with
  | Some path => with_files (alter (fun c => c +:+ s) path (files w)) w
  | None => w
  end.

(** ** ScriptRunner: draining the pipes *)

(** How the last [async_read] on a pipe ends: [net::error::eof] or another
    error. *)
Inductive pipe_end : Type :=
  | at_eof
  | at_error (n : Z).

(** Everything one pipe delivers: the reads that fill the 4096-byte buffer
    without error, then the read that sets [ec], with the bytes it
    transferred. *)
Record Pipe : Type := mkPipe {
  full_reads : list string;
  last_read : string;
  last_end : pipe_end
}.

(** The iterations of [while (!ec)] whose read succeeds. *)
Fixpoint write_reads (reads : list string) (os : option string) (w : World) : World :=
  match reads with
  | [] => w
  | buf :: rest => write_reads rest os (os_write os buf w)
  end.

(** [writeResult(ap, os)]: on [eof] the last chunk is still written, on
    another error the loop breaks before the write. *)
Definition writeResult1 (ap : Pipe) (os : option string) : M error_code := fun w =>
  let w1 := write_reads (full_reads ap) os w in
  match last_end ap with
  | at_eof => (Ret ec_default, os_write os (last_read ap) w1)
  | at_error n => (Ret (ec_failure n), w1)
  end.

(** [writeResult(out, err, ofs)]: standard output first, standard error
    after it, and not at all when reading standard output failed. *)
Definition writeResult (out err : Pipe) (ofs : option string) : M error_code :=
  ec ← writeResult1 out ofs;
  if ec_set ec then mret ec
  else
    ec ← writeResult1 err ofs;
    if ec_set ec then mret ec
    else mret ec_default.

(** ** ScriptRunner: dump progress *)

Definition Completed : string :=
  "xyz.openbmc_project.Common.Progress.OperationStatus.Completed".

(** One iteration of [for (const auto& [prop, value] : changedProperties)]
    in the callback that [monitorDumpProgress] installs.  The filter view
    built just before the loop is discarded, so [prop] is not looked at. *)
Definition propcallback_visit (env : Fs) (id dumpId : string)
    (entry : string * string) : M unit :=
  let '(prop, value) := entry in
  if String.eqb value Completed then
    dir ← scriptDir env id;
    remove_all env dir ;;
    modify (fun w => with_matches (delete dumpId (dumpProgressMatches w)) w)
  else mret tt.

(** The callback; [changedProperties] lists the entries of the
    [std::map] in iteration order.  [dumpProgressMatches.erase(dumpId)]
    destroys the match that owns the running callable, and with it the
    captured [id] and [dumpId], which the iterations that follow read
    again; the embedding goes on with the values they had. *)
Fixpoint propcallback (env : Fs) (id dumpId : string)
    (changedProperties : list (string * string)) : M unit :=
  match changedProperties with
  | [] => mret tt
  | entry :: rest =>
      propcallback_visit env id dumpId entry ;;
      propcallback env id dumpId rest
  end.

(** [dumpProgressMatches.emplace(dumpId, ...)]: no effect on a key that is
    already present. *)
Definition monitorDumpProgress (id dumpId : string) : M unit :=
  modify (fun w =>
    match dumpProgressMatches w !! dumpId with
    | Some _ => w
    | None => with_matches (<[dumpId := (id, dumpId)]> (dumpProgressMatches w)) w
    end).

(** ** ScriptRunner: the job table *)

Definition invokeCallback (ec : error_code) (id : string) : M unit :=
  it ← gets (fun w => script_cache w !! id);
  match it with
  | None => mret tt
  | Some entry => call (callback entry) ec id
  end.

Definition remove (id : string) : M unit :=
  modify (fun w =>
    match script_cache w !! id with
    | Some _ => emit (ObsErase id) (with_script_cache (delete id (script_cache w)) w)
    | None => w
    end).

(** The place in the registry of the [ScriptIface] that a call of the
    callable [f] with [id] destroys: [removeFromActive] erases the first
    element with that id, and the [std::unique_ptr] erased deletes its
    object. *)
Definition destroyed_by (f : option Callback) (id : string) (w : World) : option nat :=
  match f with
  | Some bound_removeFromActive =>
      fst <$> list_find (fun iface => data_id (data iface) = id) (scriptIfaces w)
  | None => None
  end.

(** [cancel_script(const std::string& id)].  The callers bind the
    reference to [data.id] of the [ScriptIface] on which [cancel] runs;
    [owner] is the place of that object in the registry, and [None] when
    the object has been moved out of the registry.  The callback takes
    the id by value.  When the callback destroys the owner, the string
    that [id] refers to is destroyed with it, and [remove(id)] reads a
    destroyed string. *)
Definition cancel_script (id : string) (owner : option nat) : M bool :=
  it ← gets (fun w => script_cache w !! id);
  match it with
  | None => mret false
  | Some entry =>
      modify (emit (ObsTerminate (child entry))) ;;
      victim ← gets (destroyed_by (callback entry) id);
      call (callback entry) ec_default id ;;
      match owner with
      | Some k =>
          if decide (victim = Some k) then throw dangling_reference
          else remove id
      | None => remove id
      end ;;
      mret true
  end.

(** ** ScriptRunner::execute, one segment per resumption *)

(** What [bp::child c(...)] does: the constructor throws, or it returns
    and [c.running()] is false or true. *)
Inductive SpawnResult : Type :=
  | spawn_throws
  | spawn_not_running
  | spawn_running.

Definition update_frame (pid : nat) (f : Frame -> Frame) (w : World) : World :=
  with_frames (alter f pid (frames w)) w.

Definition moved_from (fr : Frame) : Frame :=
  mkFrame (fr_filename fr) (fr_hash fr) (fr_dumpNeeded fr) None (fr_ofs fr) (fr_at fr).

Definition set_ofs (os : option string) (fr : Frame) : Frame :=
  mkFrame (fr_filename fr) (fr_hash fr) (fr_dumpNeeded fr) (fr_callback fr) os (fr_at fr).

(** The by-value parameter [callback] of coroutine [pid], as it is now. *)
Definition parameter_callback (pid : nat) (w : World) : option Callback :=
  frames w !! pid ≫= fr_callback.

(** [script_cache.emplace(hash, ScriptEntry{std::ref(c), std::move(callback)})]:
    the entry is built, which empties [callback], and is inserted unless
    the key is present. *)
Definition emplace (pid : nat) (hash : string) : M unit :=
  modify (fun w =>
    let entry := mkScriptEntry pid (parameter_callback pid w) in
    let w1 := update_frame pid moved_from w in
    match script_cache w1 !! hash with
    | Some _ => w1
    | None =>
        emit (ObsEmplace hash pid)
             (with_script_cache (<[hash := entry]> (script_cache w1)) w1)
    end).

(** From the head of the [try] block to [co_await writeResult]. *)
Definition execute_begin (pid : nat) (hash : string)
    (spawn : SpawnResult) (env : Fs) : M Suspension :=
  _ ← scriptDir env hash;
  match spawn with
  | spawn_throws => throw process_error
  | spawn_not_running =>
      f ← gets (parameter_callback pid);
      call f ec_operation_aborted hash ;;
      mret NotRunning
  | spawn_running =>
      emplace pid hash ;;
      path ← scriptOutputFileName env hash;
      ofs ← ofstream_open env path;
      modify (update_frame pid (set_ofs ofs)) ;;
      mret Streaming
  end.

Definition newline : string := String (ascii_of_nat 10) EmptyString.

(** [invokeCallback(boost::system::error_code{}, hash); remove(hash);] *)
Definition execute_end (hash : string) : M Suspension :=
  invokeCallback ec_default hash ;;
  remove hash ;;
  mret Finished.

(** [if (c.exit_code() != 0) { ofs << "Script execution failed with exit
    code: " << c.exit_code() << std::endl; }] *)
Definition report_exit_code (ofs : option string) (exit_code : Z) : M unit :=
  if decide (exit_code ≠ 0)
  then modify (os_write ofs ("Script execution failed with exit code: "
                             +:+ to_string exit_code +:+ newline))
  else mret tt.

(** From the return of [writeResult] to the end, or to the first
    [co_await] of [startDump] when a dump is needed. *)
Definition execute_streamed (pid : nat) (hash : string) (dumpNeeded : bool)
    (out err : Pipe) (exit_code : Z) (env : Fs) : M Suspension :=
  ofs ← gets (fun w => frames w !! pid ≫= fr_ofs);
  _ ← writeResult out err ofs;
  report_exit_code ofs exit_code ;;
  modify (update_frame pid (set_ofs None)) ;;
  if dumpNeeded then
    modify (emit (ObsCreateDump hash)) ;;
    mret DumpCall
  else
    dir ← scriptDir env hash;
    remove_all env dir ;;
    execute_end hash.

(** [startDump] on the reply to [CreateDump]: [None] is an error reply,
    [Some dumpId] carries [path.filename()] of the returned object path. *)
Definition execute_dump_reply (hash : string) (reply : option string) : M Suspension :=
  match reply with
  | None => mret DumpBackoff
  | Some dumpId =>
      monitorDumpProgress hash dumpId ;;
      execute_end hash
  end.

(** [startDump] when the 20 s timer expires: the call is sent again. *)
Definition execute_backoff (hash : string) : M Suspension :=
  modify (emit (ObsCreateDump hash)) ;;
  mret DumpCall.

(** The [try]/[catch] around the body.  The handler calls the parameter
    [callback]; what that throws leaves the coroutine and is dropped by
    the [net::detached] completion token. *)
Definition execute_try (pid : nat) (hash : string) (body : M Suspension) : M unit := fun w =>
  match body w with
  | (Ret s, w1) => (Ret tt, update_frame pid (suspend_at s) w1)
  | (Throw _, w1) =>
      match call (parameter_callback pid w1) ec_operation_aborted hash w1 with
      | (Ret _, w2) => (Ret tt, update_frame pid (suspend_at Caught) w2)
      | (Throw e, w2) => (Ret tt, update_frame pid (suspend_at (Escaped e)) w2)
      end
  end.

(** What wakes a suspended coroutine, with what the environment hands it. *)
Inductive Resumption : Type :=
  | child_spawned (r : SpawnResult) (env : Fs)
  | pipes_drained (out err : Pipe) (exit_code : Z) (env : Fs)
  | dump_reply (reply : option string)
  | backoff_expired.

(** Coroutine [pid] runs from its suspension point to the next one.  A
    resumption that does not match the suspension point does not happen. *)
Definition execute (pid : nat) (r : Resumption) : M unit := fun w =>
  match frames w !! pid with
  | None => (Ret tt, w)
  | Some fr =>
      let hash := fr_hash fr in
      match fr_at fr, r with
      | Spawned, child_spawned sp env =>
          execute_try pid hash (execute_begin pid hash sp env) w
      | Streaming, pipes_drained out err exit_code env =>
          execute_try pid hash
            (execute_streamed pid hash (fr_dumpNeeded fr) out err exit_code env) w
      | DumpCall, dump_reply reply =>
          execute_try pid hash (execute_dump_reply hash reply) w
      | DumpBackoff, backoff_expired =>
          execute_try pid hash (execute_backoff hash) w
      | _, _ => (Ret tt, w)
      end
  end.

(** ** ScriptRunner::run_script *)

(** [net::co_spawn(io_context, ..., net::detached)]: a coroutine is added,
    with the copies of [filename] and [id] that the lambda captured.  Its
    first segment, up to the first [co_await] that suspends, is the
    resumption [child_spawned] below.  Asio dispatches that segment at once
    when [co_spawn] is called from a handler of the same [io_context], as
    the [start] method is; the embedding leaves the moment to the event
    loop, which may deliver [child_spawned] right after [call_start].
    What holds of a coroutine standing at [Spawned] while another handler
    runs is therefore a fact of the embedding alone. *)
Definition co_spawn (fr : Frame) : M unit :=
  modify (fun w => with_frames (frames w ++ [fr]) w).

Definition run_script (id script : string) (dumpNeeded : bool)
    (callback : option Callback) (env : Fs) : M bool :=
  filename ← scriptFileName env id;
  script_file ← ofstream_open env filename;
  match script_file with
  | None => mret false
  | Some _ =>
      modify (os_write script_file script) ;;
      co_spawn (mkFrame filename id dumpNeeded callback None Spawned) ;;
      mret true
  end.

(** ** ScriptIface *)

(** The constructor publishes the per-script object; [add_ok] tells
    whether the object server accepts it (it throws otherwise). *)
Definition ScriptIface_ctor (d : Data) (add_ok : bool) : M ScriptIface :=
  if add_ok then
    modify (emit (ObsPublish (data_id d))) ;;
    mret (mkScriptIface d None)
  else throw sdbus_error.

(** [ScriptIface::cancel] on an object that lives at [owner]: a place in
    the registry, or [None] for an object held by the caller. *)
Definition ScriptIface_cancel (iface : ScriptIface) (owner : option nat) : M bool :=
  success ← cancel_script (data_id (data iface)) owner;
  modify (emit (ObsCancel (data_id (data iface)) success)) ;;
  if negb success then mret false
  else mret success.

(** [std::chrono::seconds(data.timeout)]: the [uint64_t] becomes the signed
    64-bit tick count of the duration. *)
Definition seconds (timeout : Z) : Z :=
  let r := timeout mod 2 ^ 64 in
  if r <? 2 ^ 63 then r else r - 2 ^ 64.

(** The conversion of a count of seconds to [steady_timer::duration],
    which [expires_after] takes: the count is multiplied by 10^9 in an
    [int64_t].  Above 9223372036 s the product does not fit; the
    two's-complement result is taken. *)
Definition nanoseconds (s : Z) : Z :=
  let r := (s * 10 ^ 9) mod 2 ^ 64 in
  if r <? 2 ^ 63 then r else r - 2 ^ 64.

Definition startTimeout (iface : ScriptIface) : M ScriptIface :=
  if decide (data_timeout (data iface) = 0) then mret iface
  else
    let expiry := nanoseconds (seconds (data_timeout (data iface))) in
    modify (emit (ObsArm (data_id (data iface)) expiry)) ;;
    mret (mkScriptIface (data iface) (Some expiry)).

(** The handler given to [timer->async_wait], run when the timer of
    [scriptIfaces[k]] expires ([ec] is not set).  Without a pending wait
    there is nothing to run. *)
Definition timer_expired (k : nat) : M unit := fun w =>
  match scriptIfaces w !! k with
  | None => (Ret tt, w)
  | Some iface =>
      match timer iface with
      | None => (Ret tt, w)
      | Some _ =>
          let fired := mkScriptIface (data iface) None in
          (_ ← ScriptIface_cancel fired (Some k); mret tt)
            (with_scriptIfaces (<[k := fired]> (scriptIfaces w)) w)
      end
  end.

(** ** AcfShellIface *)

Definition maxActiveScripts : nat := 1.

(** The method [active]. *)
Definition active (w : World) : list string :=
  map (fun iface => data_id (data iface)) (scriptIfaces w).

(** [n] iterations at most of the [while] loop of
    [ensureMaxActiveScripts]. *)
Fixpoint ensure_loop (n : nat) : M unit :=
  match n with
  | O => mret tt
  | S n' =>
      l ← gets scriptIfaces;
      if (maxActiveScripts <=? length l)%nat then
        match l with
        | [] => mret tt
        | iface :: rest =>
            modify (with_scriptIfaces rest) ;;
            unwinding (ScriptIface_cancel iface None) (ScriptIface_dtor iface) ;;
            modify (ScriptIface_dtor iface) ;;
            ensure_loop n'
        end
      else mret tt
  end.

(** Every iteration erases an element, so as many iterations as there are
    elements, and one more test, are enough. *)
Definition ensureMaxActiveScripts : M unit := fun w =>
  ensure_loop (S (length (scriptIfaces w))) w.

(** The pointer [getScriptIface] returns: the place of the object in the
    registry, with the object; [nullptr] is [None]. *)
Definition getScriptIface (scriptId : string) (w : World) : option (nat * ScriptIface) :=
  list_find (fun iface => data_id (data iface) = scriptId) (scriptIfaces w).

(** The method [cancel]. *)
Definition cancel (id : string) : M bool :=
  iface ← gets (getScriptIface id);
  match iface with
  | Some (k, iface) => ScriptIface_cancel iface (Some k)
  | None => mret false
  end.

(** [iface] is owned by the parameter: it is destroyed on every way out
    except the one that moves it into [scriptIfaces]. *)
Definition runScript (iface : ScriptIface) (env : Fs) : M bool :=
  success ← unwinding
    (run_script (data_id (data iface)) (data_script (data iface))
                (data_dumpNeeded (data iface)) (Some bound_removeFromActive) env)
    (ScriptIface_dtor iface);
  if negb success then
    modify (ScriptIface_dtor iface) ;;
    mret false
  else
    armed ← startTimeout iface;
    modify (fun w => with_scriptIfaces (scriptIfaces w ++ [armed]) w) ;;
    mret success.

(** [std::optional::value()] *)
Definition value {A : Type} (o : option A) : M A :=
  match o with
  | Some a => mret a
  | None => throw bad_optional_access
  end.

(** What the environment decides during one call of [start]. *)
Record StartEnv : Type := mkStartEnv {
  now_time_t : Z;
  add_interface_ok : bool;
  start_fs : Fs
}.

Section Service.

Variable EVP_sha256 : string -> option (list byte).

(** The argument of [LOG_DEBUG] is evaluated whatever the log level. *)
Definition addToActive (script : string) (timeout : Z) (dumpNeeded : bool)
    (env : StartEnv) : M bool :=
  let scriptId := makeScriptId EVP_sha256 (now_time_t env) script in
  _ ← value scriptId;
  match scriptId with
  | None => mret false
  | Some id =>
      try_catch
        (iface ← ScriptIface_ctor (mkData script id timeout dumpNeeded)
                                  (add_interface_ok env);
         runScript iface (start_fs env))
        (fun _ => mret false)
  end.

(** The method [start]. *)
Definition start (script : string) (timeout : Z) (dumpNeeded : bool)
    (env : StartEnv) : M bool :=
  ensureMaxActiveScripts ;;
  addToActive script timeout dumpNeeded env.

(** ** The event loop *)

(** What [io_context.run()] can dispatch. *)
Inductive Event : Type :=
  | call_start (script : string) (timeout : Z) (dumpNeeded : bool) (env : StartEnv)
  | call_cancel (id : string)
  | call_script_cancel (k : nat)
  | timer_expires (k : nat)
  | resume (pid : nat) (r : Resumption)
  | properties_changed (dumpId : string)
      (changedProperties : list (string * string)) (env : Fs).

(** The [cancel] method of the object published for [scriptIfaces[k]]. *)
Definition script_cancel (k : nat) : M bool := fun w =>
  match scriptIfaces w !! k with
  | Some iface => ScriptIface_cancel iface (Some k) w
  | None => (Ret false, w)
  end.

(** A signal is delivered to the match registered under [dumpId]. *)
Definition deliver (dumpId : string) (changedProperties : list (string * string))
    (env : Fs) : M unit := fun w =>
  match dumpProgressMatches w !! dumpId with
  | Some (id, dumpId') => propcallback env id dumpId' changedProperties w
  | None => (Ret tt, w)
  end.

Definition step (e : Event) (w : World) : World :=
  match e with
  | call_start script timeout dumpNeeded env =>
      exec (start script timeout dumpNeeded env) w
  | call_cancel id => exec (cancel id) w
  | call_script_cancel k => exec (script_cancel k) w
  | timer_expires k => exec (timer_expired k) w
  | resume pid r => exec (execute pid r) w
  | properties_changed dumpId changedProperties env =>
      exec (deliver dumpId changedProperties env) w
  end.

Definition run (events : list Event) (w : World) : World :=
  fold_left (fun w e => step e w) events w.

End Service.

(** * What the properties are stated with *)

Definition emits (evs : list Obs) (w : World) : World :=
  mkWorld (scriptIfaces w) (script_cache w) (dumpProgressMatches w) (frames w)
          (dirs w) (files w) (trace w ++ evs).

(** Whatever it returns or throws, [m] moves the world along [R]. *)
Definition stable (R : relation World) {A : Type} (m : M A) : Prop :=
  forall w, R w (m w).2.

(** The handlers that neither add to the registry nor to the job table
    nor touch a coroutine frame. *)
Definition calm (w w' : World) : Prop :=
  scriptIfaces w' `sublist_of` scriptIfaces w
  /\ script_cache w' ⊆ script_cache w
  /\ frames w' = frames w.

(** One iteration of the loop of [ensureMaxActiveScripts]. *)
Definition ensure_body (iface : ScriptIface) (n : nat) : M unit :=
  unwinding (ScriptIface_cancel iface None) (ScriptIface_dtor iface) ;;
  modify (ScriptIface_dtor iface) ;;
  ensure_loop n.

Definition storage_only (w w' : World) : Prop :=
  scriptIfaces w' = scriptIfaces w
  /\ script_cache w' = script_cache w
  /\ dumpProgressMatches w' = dumpProgressMatches w
  /\ frames w' = frames w
  /\ trace w' = trace w.

Definition timer_ok (iface : ScriptIface) : Prop :=
  timer iface = None
  \/ (data_timeout (data iface) <> 0
      /\ timer iface = Some (nanoseconds (seconds (data_timeout (data iface))))).

Fixpoint count (p : Obs -> bool) (t : list Obs) : nat :=
  match t with
  | [] => 0
  | o :: t' => ((if p o then 1 else 0) + count p t')%nat
  end.

Definition is_callback (x : string) (o : Obs) : bool :=
  match o with
  | ObsCallback _ y => bool_decide (y = x)
  | _ => false
  end.

Definition is_erase (x : string) (o : Obs) : bool :=
  match o with
  | ObsErase y => bool_decide (y = x)
  | _ => false
  end.

(** How often a callback was invoked for job [x], with whatever error
    code, and how often an entry for [x] left the job table. *)
Definition callbacks (x : string) (w : World) : nat :=
  count (is_callback x) (trace w).

Definition erasures (x : string) (w : World) : nat :=
  count (is_erase x) (trace w).

(** The observations that concern the job table. *)
Definition job_event (o : Obs) : bool :=
  match o with
  | ObsCallback _ _ | ObsEmplace _ _ | ObsErase _ => true
  | _ => false
  end.

Definition ledger (w : World) : list Obs :=
  List.filter job_event (trace w).

(** A coroutine that has entered its child in the job table and is
    suspended. *)
Definition awaiting (s : Suspension) : bool :=
  match s with
  | Streaming | DumpCall | DumpBackoff => true
  | _ => false
  end.

(** The calls of this program give every callable a target, and the
    parameter [callback] of a coroutine holds it until [emplace]. *)
Definition tidy (w : World) : Prop :=
  (forall id entry, script_cache w !! id = Some entry ->
                    callback entry = Some bound_removeFromActive)
  /\ (forall pid fr, frames w !! pid = Some fr ->
        match fr_at fr with
        | Spawned => fr_callback fr = Some bound_removeFromActive
        | Streaming | DumpCall | DumpBackoff => fr_callback fr = None
        | _ => True
        end).

(** What one handler, or one part of a handler, does to the job table,
    the coroutines and the ledger. *)
Inductive job_step (w w' : World) : Prop :=
  | js_quiet :
      script_cache w' = script_cache w ->
      frames w' = frames w ->
      ledger w' = ledger w ->
      job_step w w'
  | js_cancel (id : string) (entry : ScriptEntry) :
      script_cache w !! id = Some entry ->
      script_cache w' = delete id (script_cache w) ->
      frames w' = frames w ->
      ledger w' = ledger w ++ [ObsCallback ec_default id; ObsErase id] ->
      job_step w w'
  | js_callback (id : string) (entry : ScriptEntry) :
      script_cache w !! id = Some entry ->
      script_cache w' = script_cache w ->
      frames w' = frames w ->
      ledger w' = ledger w ++ [ObsCallback ec_default id] ->
      job_step w w'
  | js_spawn (fr : Frame) :
      fr_at fr = Spawned ->
      fr_callback fr = Some bound_removeFromActive ->
      script_cache w' = script_cache w ->
      frames w' = frames w ++ [fr] ->
      ledger w' = ledger w ->
      job_step w w'
  | js_abort (pid : nat) (fr fr' : Frame) :
      frames w !! pid = Some fr ->
      fr_at fr = Spawned ->
      fr_hash fr' = fr_hash fr ->
      fr_at fr' = NotRunning \/ fr_at fr' = Caught ->
      script_cache w' = script_cache w ->
      frames w' = <[pid := fr']> (frames w) ->
      ledger w' = ledger w ++ [ObsCallback ec_operation_aborted (fr_hash fr)] ->
      job_step w w'
  | js_emplace (pid : nat) (fr fr' : Frame) :
      frames w !! pid = Some fr ->
      fr_at fr = Spawned ->
      fr_hash fr' = fr_hash fr ->
      fr_callback fr' = None ->
      fr_at fr' = Streaming \/ (exists e, fr_at fr' = Escaped e) ->
      (script_cache w !! fr_hash fr = None ->
       script_cache w' = <[fr_hash fr := mkScriptEntry pid (fr_callback fr)]> (script_cache w)
       /\ ledger w' = ledger w ++ [ObsEmplace (fr_hash fr) pid]) ->
      (is_Some (script_cache w !! fr_hash fr) ->
       script_cache w' = script_cache w /\ ledger w' = ledger w) ->
      frames w' = <[pid := fr']> (frames w) ->
      job_step w w'
  | js_move (pid : nat) (fr fr' : Frame) :
      frames w !! pid = Some fr ->
      awaiting (fr_at fr) = true ->
      fr_hash fr' = fr_hash fr ->
      fr_callback fr' = fr_callback fr ->
      awaiting (fr_at fr') = true \/ (exists e, fr_at fr' = Escaped e) ->
      script_cache w' = script_cache w ->
      frames w' = <[pid := fr']> (frames w) ->
      ledger w' = ledger w ->
      job_step w w'
  | js_finish (pid : nat) (fr fr' : Frame) :
      frames w !! pid = Some fr ->
      awaiting (fr_at fr) = true ->
      fr_hash fr' = fr_hash fr ->
      fr_callback fr' = fr_callback fr ->
      fr_at fr' = Finished ->
      (script_cache w !! fr_hash fr = None ->
       script_cache w' = script_cache w /\ ledger w' = ledger w) ->
      (is_Some (script_cache w !! fr_hash fr) ->
       script_cache w' = delete (fr_hash fr) (script_cache w)
       /\ ledger w' = ledger w ++ [ObsCallback ec_default (fr_hash fr);
                                   ObsErase (fr_hash fr)]) ->
      frames w' = <[pid := fr']> (frames w) ->
      job_step w w'.

(** The bytes [writeResult(ap, os)] writes: every full read, and the last
    one when it ends in [eof]. *)
Definition drained (ap : Pipe) : string :=
  fold_right append
    (match last_end ap with at_eof => last_read ap | at_error _ => EmptyString end)
    (full_reads ap).

(** The bytes [writeResult(out, err, ofs)] writes. *)
Definition captured (out err : Pipe) : string :=
  drained out +:+
  match last_end out with at_eof => drained err | at_error _ => EmptyString end.

Definition diagnostic (exit_code : Z) : string :=
  "Script execution failed with exit code: " +:+ to_string exit_code +:+ newline.

(** What is in the file behind a stream, if it is open and the file
    exists. *)
Definition content (os : option string) (w : World) : option string :=
  os ≫= fun path => files w !! path.

(** The handlers that leave the job table, the coroutines and the ledger
    alone and do not add to the registry. *)
Definition still (w w' : World) : Prop :=
  scriptIfaces w' `sublist_of` scriptIfaces w
  /\ script_cache w' = script_cache w
  /\ frames w' = frames w
  /\ ledger w' = ledger w.

(** From a tidy world a handler reaches a tidy world whose registry
    has not grown. *)
Definition progress (w w' : World) : Prop :=
  tidy w -> tidy w' /\ scriptIfaces w' `sublist_of` scriptIfaces w.

Definition bounded (w : World) : Prop :=
  (length (scriptIfaces w) <= maxActiveScripts)%nat.

Definition timers_ok (w : World) : Prop :=
  Forall timer_ok (scriptIfaces w).

Definition invariant (w : World) : Prop :=
  bounded w /\ timers_ok w /\ tidy w.

(** The script on which an event calls [ScriptIface::cancel]: the methods
    [cancel] of the service and of the per-script object, and the expiry
    of an armed timer. *)
Definition cancels (e : Event) (w : World) : option ScriptIface :=
  match e with
  | call_cancel id => snd <$> getScriptIface id w
  | call_script_cancel k => scriptIfaces w !! k
  | timer_expires k =>
      match scriptIfaces w !! k with
      | Some iface => if timer iface is Some _ then Some iface else None
      | None => None
      end
  | _ => None
  end.

(** The [bp::child] that an entry refers to is there: the coroutine that
    declared it is suspended inside [execute].  What is stated below of a
    [terminate()] through an entry is stated of attached entries; an entry
    left behind by a coroutine that an exception has ended is not one. *)
Definition attached (entry : ScriptEntry) (w : World) : Prop :=
  exists fr, frames w !! child entry = Some fr /\ awaiting (fr_at fr) = true.

(** The handler of an event, with the way it ends. *)
Definition handler (EVP : string -> option (list byte)) (e : Event) : M unit :=
  match e with
  | call_start script timeout dumpNeeded env =>
      _ ← start EVP script timeout dumpNeeded env; mret tt
  | call_cancel id => _ ← cancel id; mret tt
  | call_script_cancel k => _ ← script_cancel k; mret tt
  | timer_expires k => timer_expired k
  | resume pid r => execute pid r
  | properties_changed dumpId changedProperties env =>
      deliver dumpId changedProperties env
  end.

(** The working directory of the job is gone and the subscription is
    cancelled. *)
Definition reclaimed (id dumpId : string) (w : World) : Prop :=
  (dir_path id ∉ dirs w) /\ dumpProgressMatches w !! dumpId = None.

(** The error codes the callback of job [id] was given, in order. *)
Definition callback_codes (id : string) (w : World) : list error_code :=
  omap (fun o => match o with
                 | ObsCallback ec id' => if decide (id' = id) then Some ec else None
                 | _ => None
                 end) (trace w).

(** The number a hex digit stands for: the one [hex_digit] prints as it. *)
Definition unhex_digit (c : ascii) : option N :=
  head (List.filter (fun n => Ascii.eqb (hex_digit n) c) (map N.of_nat (seq 0 16))).

(** Reads back the byte two hex digits stand for. *)
Definition unhex_byte (s : string) : option byte :=
  match s with
  | String hi (String lo _) =>
      match unhex_digit hi, unhex_digit lo with
      | Some h, Some l => Byte.of_N (16 * h + l)
      | _, _ => None
      end
  | _ => None
  end.

(** * Runs used as examples *)

(** The digest primitive failing, as when [EVP_MD_CTX_new] returns null. *)
Definition EVP_failing (s : string) : option (list byte) := None.

(** The call of the example in the header of [script_runner.hpp], and the
    world after its coroutine found the child not running. *)
Definition C3_call : res bool * World :=
  run_script "id123" "echo Hello" false (Some bound_removeFromActive) fs_ok initial.

Definition C3_after : World :=
  exec (execute 0 (child_spawned spawn_not_running fs_ok)) C3_call.2.

Definition demo_env : StartEnv := mkStartEnv 1700000000 true fs_ok.

Definition C7_unbounded : World :=
  run EVP_sha256_ok [call_start "sleep 9" 0 false demo_env] initial.

(** The job of the example in the header of [script_runner.hpp], started
    through the service at a fixed clock reading, with its child running. *)
Definition demo_running : list Event :=
  [call_start "echo Hello" 30 false demo_env;
   resume 0 (child_spawned spawn_running fs_ok)].

Definition demo_iface : ScriptIface :=
  mkScriptIface (mkData "echo Hello" "29242177a4a07f0b" 30 false) (Some 30000000000).

Definition demo_spawned_frame : Frame :=
  mkFrame "/tmp/acf/29242177a4a07f0b/29242177a4a07f0b.sh" "29242177a4a07f0b"
          false None (Some "/tmp/acf/29242177a4a07f0b/29242177a4a07f0b.out") Streaming.

Definition demo_faulty_cleanup : Event :=
  resume 0 (pipes_drained (mkPipe [] "Hello" at_eof) (mkPipe [] "" at_eof) 0
                          (mkFs true true false)).

(** A job that asked for a dump, after the dump service answered with
    bundle 7. *)
Definition demo_dumping : list Event :=
  [call_start "echo Hello" 30 true demo_env;
   resume 0 (child_spawned spawn_running fs_ok);
   resume 0 (pipes_drained (mkPipe [] "Hello" at_eof) (mkPipe [] "" at_eof) 0 fs_ok);
   resume 0 (dump_reply (Some "7"))].

Definition InProgress : string :=
  "xyz.openbmc_project.Common.Progress.OperationStatus.InProgress".

(** A notification whose [Status] is not [Completed] while another
    property carries the [Completed] value. *)
Definition demo_notification : list (string * string) :=
  [("Phase", Completed); ("Status", InProgress)].

(** The job of the example in the header of [script_runner.hpp], started
    with a dump requested, its child running. *)
Definition demo_running_dump : list Event :=
  [call_start "echo Hello" 30 true demo_env;
   resume 0 (child_spawned spawn_running fs_ok)].

Definition demo_out : Pipe := mkPipe [] "Hello" at_eof.

Definition demo_err : Pipe := mkPipe [] "" at_eof.

Definition demo_dump_frame : Frame :=
  mkFrame "/tmp/acf/29242177a4a07f0b/29242177a4a07f0b.sh" "29242177a4a07f0b"
          true None (Some "/tmp/acf/29242177a4a07f0b/29242177a4a07f0b.out") Streaming.

Definition demo_output : string := "/tmp/acf/29242177a4a07f0b/29242177a4a07f0b.out".

(** The job of the example in the header of [script_runner.hpp], with a
    timeout of 30 seconds. *)
Definition job_iface : ScriptIface :=
  mkScriptIface (mkData "echo Hello" "id123" 30 false) None.

Definition job_registered : World := exec (runScript job_iface fs_ok) initial.

(** Its child runs and the pipes are being read. *)
Definition job_streaming : World :=
  exec (execute 0 (child_spawned spawn_running fs_ok)) job_registered.

(** The ways it can end once the child runs. *)
Definition job_cancelled : World := exec (cancel "id123") job_streaming.

Definition job_timed_out : World := exec (timer_expired 0) job_streaming.

Definition job_completed : World :=
  exec (execute 0 (pipes_drained (mkPipe [] "Hello" at_eof) (mkPipe [] "" at_eof) 0 fs_ok))
       job_streaming.

Definition job_failed : World :=
  exec (execute 0 (pipes_drained (mkPipe [] "" at_eof) (mkPipe [] "oops" at_eof) 3 fs_ok))
       job_streaming.

(** * The logger ([src/acfshell/logger.hpp]) *)

Module Logging.

Inductive LogLevel : Type :=
  | DEBUG
  | INFO
  | WARNING
  | ERROR.

(** The values of the enumerators, which [operator>=] compares. *)
Definition rank (level : LogLevel) : Z :=
  match level with
  | DEBUG => 0
  | INFO => 1
  | WARNING => 2
  | ERROR => 3
  end.

(** [output] is a reference to a stream: what the stream holds is passed
    to [log] and returned by it. *)
Record Logger : Type := mkLogger {
  currentLogLevel : LogLevel
}.

Definition isLogLevelEnabled (lg : Logger) (level : LogLevel) : bool :=
  rank (currentLogLevel lg) <=? rank level.

(** [std::format("{}:{} ", filename, lineNumber)], the message and a
    line feed. *)
Definition line (filename : string) (lineNumber : Z) (message : string) : string :=
  (filename +:+ ":" +:+ to_string lineNumber +:+ " ") +:+ message +:+ newline.

Definition log (lg : Logger) (filename : string) (lineNumber : Z) (level : LogLevel)
    (message : string) (output : string) : string :=
  if isLogLevelEnabled lg level
  then output +:+ line filename lineNumber message
  else output.

Definition setLogLevel (lg : Logger) (level : LogLevel) : Logger :=
  mkLogger level.

(** The logger [getLogger] builds on first use. *)
Definition getLogger : Logger := mkLogger ERROR.

(** The first argument the macros give to [std::format]. *)
Definition label (level : LogLevel) : string :=
  match level with
  | DEBUG => "Debug"
  | INFO => "Info"
  | WARNING => "Warning"
  | ERROR => "Error"
  end.

(** [LOG_DEBUG], [LOG_INFO], [LOG_WARNING] and [LOG_ERROR]; [text] is the
    message with its arguments formatted in. *)
Definition LOG (level : LogLevel) (lg : Logger) (filename : string) (lineNumber : Z)
    (text : string) (output : string) : string :=
  log lg filename lineNumber level (label level +:+ " :" +:+ text) output.

(** What a client does with the logger, in program order. *)
Inductive Call : Type :=
  | call_log (filename : string) (lineNumber : Z) (level : LogLevel) (message : string)
  | call_setLogLevel (level : LogLevel).

Definition perform (c : Call) (st : Logger * string) : Logger * string :=
  match c with
  | call_log filename lineNumber level message =>
      (st.1, log st.1 filename lineNumber level message st.2)
  | call_setLogLevel level => (setLogLevel st.1 level, st.2)
  end.

Definition perform_all (cs : list Call) (st : Logger * string) : Logger * string :=
  fold_left (fun st c => perform c st) cs st.

End Logging.

(** * The command line of the certificate manager ([src/argument.cpp]) *)

Module Argument.

(** [struct option] of [getopt.h], without [flag], which is null in every
    entry.  A null [name] is [None]. *)
Record option_ : Type := mkOption {
  name : option string;
  has_arg : Z;
  val : Z
}.

Definition no_argument : Z := 0.
Definition required_argument : Z := 1.
Definition optional_argument : Z := 2.

Definition char (c : ascii) : Z := Z.of_N (N_of_ascii c).

(** [ArgumentParser::options], with its terminating entry. *)
Definition options : list option_ :=
  [mkOption (Some "type") required_argument (char "t");
   mkOption (Some "endpoint") required_argument (char "e");
   mkOption (Some "path") required_argument (char "p");
   mkOption (Some "unit") optional_argument (char "u");
   mkOption (Some "help") no_argument (char "h");
   mkOption None 0 0].

Definition optionstr : string := "tepuh?".
Definition true_string : string := "true".
Definition empty_string : string := "".

(** What [usage] sends to [std::cerr]. *)
Definition usage (argv0 : string) : string :=
  "Usage: " +:+ argv0 +:+ " [options]" +:+ newline
  +:+ "Options:" +:+ newline
  +:+ "    --help            Print this menu" +:+ newline
  +:+ "    --type            certificate type" +:+ newline
  +:+ "                      Valid types: client,server,authority" +:+ newline
  +:+ "    --endpoint        d-bus endpoint" +:+ newline
  +:+ "    --path            certificate file path" +:+ newline
  +:+ "    --unit=<name>     Optional systemd unit need to reload" +:+ newline.

(** [while ((i->val != option) && (i->val != 0)) ++i;] from entry [i],
    with the entries after it.  The last entry of the table has [val]
    0, so the walk stops in the table. *)
Fixpoint walk (i : option_) (rest : list option_) (option : Z) : option_ :=
  if negb (val i =? option) && negb (val i =? 0) then
    match rest with
    | [] => i
    | j :: rest' => walk j rest' option
    end
  else i.

Definition find (option : Z) : option_ :=
  match options with
  | [] => mkOption None 0 0
  | i :: rest => walk i rest option
  end.

(** How the constructor ends: the object is built, [exit] is called, or a
    [std::string] is built from a null pointer, which is undefined
    (libstdc++ throws [std::logic_error]). *)
Inductive Outcome : Type :=
  | constructed (arguments : gmap string string)
  | exited (status : Z) (cerr : string)
  | string_from_null.

(** The loop of the constructor.  [results] lists what the calls of
    [getopt_long] return before the call that returns -1, each with the
    [optarg] it leaves (null is [None]). *)
Fixpoint parse (argv0 : string) (results : list (Z * option string))
    (arguments : gmap string string) : Outcome :=
  match results with
  | [] => constructed arguments
  | (option, optarg) :: rest =>
      if (option =? char "?") || (option =? char "h") then
        exited (-1) (usage argv0)
      else
        let i := find option in
        if val i =? 0 then parse argv0 rest arguments
        else
          match (if has_arg i =? 0 then Some true_string else optarg), name i with
          | Some value, Some key => parse argv0 rest (<[key := value]> arguments)
          | _, _ => string_from_null
          end
  end.

Definition ArgumentParser (argv0 : string) (results : list (Z * option string)) : Outcome :=
  parse argv0 results ∅.

(** [ArgumentParser::operator[]] *)
Definition index (arguments : gmap string string) (opt : string) : string :=
  match arguments !! opt with
  | None => empty_string
  | Some value => value
  end.

End Argument.

(** The records a sequence of calls asks to log, with their levels. *)
Definition logged (cs : list Logging.Call) : list (Logging.LogLevel * string) :=
  omap (fun c => match c with
                 | Logging.call_log filename lineNumber level message =>
                     Some (level, Logging.line filename lineNumber message)
                 | Logging.call_setLogLevel _ => None
                 end) cs.

Definition lines (rs : list (Logging.LogLevel * string)) : string :=
  fold_right (fun r acc => r.2 +:+ acc) EmptyString rs.

Definition at_least (level : Logging.LogLevel) (r : Logging.LogLevel * string) : bool :=
  Logging.rank level <=? Logging.rank r.1.

Definition log_call (r : string * Z * Logging.LogLevel * string) : Logging.Call :=
  Logging.call_log r.1.1.1 r.1.1.2 r.1.2 r.2.

Definition is_error (r : Logging.LogLevel * string) : bool :=
  match r.1 with Logging.ERROR => true | _ => false end.

(** The argument [getopt_long] left with the last occurrence of an
    option. *)
Definition last_optarg (o : Z) (results : list (Z * option string)) : option string :=
  last (List.filter (fun r => r.1 =? o) results) ≫= snd.

(** An occurrence that lets the constructor go on. *)
Definition accepted (r : Z * option string) : Prop :=
  r.1 <> Argument.char "?" /\ r.1 <> Argument.char "h"
  /\ (r.1 ∈ [Argument.char "t"; Argument.char "e"; Argument.char "p"; Argument.char "u"]
      -> is_Some r.2).

(** ** ScriptRunner: destructor *)






(** The dump service answers [CreateDump] with an error [n] times in a
    row, and the coroutine waits for 20 s after each. *)
Definition dump_unavailable (pid : nat) (n : nat) : list Event :=
  concat (replicate n [resume pid (dump_reply None); resume pid backoff_expired]).

(** The error code [writeResult(out, err, ofs)] returns. *)
Definition result_code (out err : Pipe) : error_code :=
  match last_end out with
  | at_error n => ec_failure n
  | at_eof =>
      match last_end err with
      | at_error n => ec_failure n
      | at_eof => ec_default
      end
  end.

(** A string without the path separator. *)
Fixpoint plain (s : string) : bool :=
  match s with
  | EmptyString => true
  | String c s' => negb (Ascii.eqb c "/") && plain s'
  end.

(** A string of lowercase hexadecimal digits. *)
Definition is_hex (c : ascii) : bool :=
  existsb (Ascii.eqb c) (list_ascii_of_string "0123456789abcdef").

Fixpoint all_hex (s : string) : bool :=
  match s with
  | EmptyString => true
  | String c s' => is_hex c && all_hex s'
  end.

(** ** Published objects and the registry *)

Definition is_publish (x : string) (o : Obs) : bool :=
  match o with
  | ObsPublish y => bool_decide (y = x)
  | _ => false
  end.

Definition is_unpublish (x : string) (o : Obs) : bool :=
  match o with
  | ObsUnpublish y => bool_decide (y = x)
  | _ => false
  end.

(** How often the object of job [x] was added to the object server, and
    how often it was removed from it. *)
Definition publishes (x : string) (w : World) : nat :=
  count (is_publish x) (trace w).

Definition unpublishes (x : string) (w : World) : nat :=
  count (is_unpublish x) (trace w).

(** How many elements of a list of ids, and of the registry, are [x]. *)
Definition occurrences (x : string) (ids : list string) : nat :=
  length (filter (fun y => y = x) ids).

Definition registered (x : string) (w : World) : nat :=
  occurrences x (active w).

(** Every object published and not yet unpublished belongs to a
    [ScriptIface] that is in the registry or is held by the running
    handler ([held] lists the ids of those). *)
Definition balanced_with (held : list string) (w : World) : Prop :=
  forall x,
    publishes x w = (unpublishes x w + registered x w + occurrences x held)%nat.

Definition balanced (w : World) : Prop := balanced_with [] w.

Definition keeps (held : list string) (w w' : World) : Prop :=
  balanced_with held w -> balanced_with held w'.

(** The observations of the object server. *)
Definition registry_event (o : Obs) : bool :=
  match o with
  | ObsPublish _ | ObsUnpublish _ => true
  | _ => false
  end.

(** The handlers that leave the registry and the object server alone. *)
Definition aside (w w' : World) : Prop :=
  scriptIfaces w' = scriptIfaces w
  /\ forall x, publishes x w' = publishes x w /\ unpublishes x w' = unpublishes x w.

(** Whether the registry and the job table both know the job. *)
Definition cancellable (id : string) (w : World) : bool :=
  bool_decide (id ∈ active w) && bool_decide (is_Some (script_cache w !! id)).

(** What [addToActive] needs from the environment to admit job [id]. *)
Definition admissible (id : string) (env : StartEnv) (w : World) : bool :=
  add_interface_ok env
  && (bool_decide (dir_path id ∈ dirs w) || mkdir_ok (start_fs env))
  && open_ok (start_fs env).

(** * Properties *)

(** Unfolds the plumbing of [M]. *)
Ltac munfold :=
  unfold mbind, mret, M_bind, M_ret, throw, gets, modify, try_catch,
         unwinding, exec, value in *.

(** ** The synchronous result of [run_script] *)

Lemma with_dirs_same w : with_dirs (dirs w) w = w.
Proof. by destruct w. Qed.

(** [scriptDir] touches the set of directories only, and leaves the
    directory in place when it returns. *)
Lemma scriptDir_inv env id w r w' :
  scriptDir env id w = (r, w') ->
  exists d, w' = with_dirs d w /\
    match r with
    | Ret dir => (dir = dir_path id /\ dir_path id ∈ d)
    | Throw e => (e = filesystem_error /\ ~ (dir_path id ∈ dirs w)
                  /\ mkdir_ok env = false /\ d = dirs w)
    end.
Proof.
  unfold scriptDir. case_decide as Hin.
  - intros [= <- <-]. exists (dirs w). by rewrite with_dirs_same.
  - destruct (mkdir_ok env).
    + intros [= <- <-]. eexists. split; [done|]. split; [done|set_solver].
    + intros [= <- <-]. exists (dirs w). by rewrite with_dirs_same.
Qed.

Lemma scriptDir_returns env id w :
  (exists w', scriptDir env id w = (Ret (dir_path id), w'))
  <-> (dir_path id ∈ dirs w \/ mkdir_ok env = true).
Proof.
  unfold scriptDir. case_decide as Hin.
  - split; eauto.
  - destruct (mkdir_ok env); split; eauto.
    + intros [w' [=]].
    + intros [?|[=]]; done.
Qed.

Lemma run_script_result id script dumpNeeded cb env w b :
  (run_script id script dumpNeeded cb env w).1 = Ret b
  <-> ((dir_path id ∈ dirs w \/ mkdir_ok env = true) /\ open_ok env = b).
Proof.
  rewrite <- scriptDir_returns.
  unfold run_script, scriptFileName, ofstream_open, co_spawn. munfold.
  destruct (scriptDir env id w) as [r w0] eqn:Hdir.
  destruct (scriptDir_inv _ _ _ _ _ Hdir) as (d & -> & Hr).
  destruct r as [dir|e]; simpl.
  - destruct Hr as [-> _].
    destruct (open_ok env); simpl; split.
    + intros [= <-]. eauto.
    + intros [_ <-]. done.
    + intros [= <-]. eauto.
    + intros [_ <-]. done.
  - split; [discriminate|]. intros [[w' [=]] _].
Qed.

Lemma run_script_world id script dumpNeeded cb env w :
  (run_script id script dumpNeeded cb env w).1 = Ret true ->
  exists d f,
    (run_script id script dumpNeeded cb env w).2
    = with_frames (frames w ++ [mkFrame (file_path (dir_path id) id ".sh") id
                                        dumpNeeded cb None Spawned])
        (with_files f (with_dirs d w))
    /\ dir_path id ∈ d.
Proof.
  unfold run_script, scriptFileName, ofstream_open, co_spawn. munfold.
  destruct (scriptDir env id w) as [r w0] eqn:Hdir.
  destruct (scriptDir_inv _ _ _ _ _ Hdir) as (d & -> & Hr).
  destruct r as [dir|e]; simpl; [|discriminate].
  destruct Hr as [-> Hin].
  destruct (open_ok env); simpl; [|discriminate].
  intros _. eexists d, _. split; [reflexivity|done].
Qed.

(** ** Footprints: what the callback machinery may change *)

Lemma removeFromActive_inv ec id w :
  exists b l evs,
    removeFromActive ec id w = (Ret b, emits evs (with_scriptIfaces l w))
    /\ l `sublist_of` scriptIfaces w
    /\ (evs = [] \/ evs = [ObsUnpublish id]).
Proof.
  unfold removeFromActive.
  destruct (list_find (fun iface => data_id (data iface) = id) (scriptIfaces w))
    as [[k iface]|] eqn:Hfind.
  - apply list_find_Some in Hfind as (Hk & Hid & _).
    exists true, (delete k (scriptIfaces w)), [ObsUnpublish id].
    split; [|split; [apply sublist_delete|by right]].
    unfold ScriptIface_dtor. rewrite Hid. reflexivity.
  - exists false, (scriptIfaces w), []. split; [|split; [done|by left]].
    destruct w. unfold emits, with_scriptIfaces. simpl. by rewrite app_nil_r.
Qed.

Lemma call_inv ec id w :
  exists l evs,
    call (Some bound_removeFromActive) ec id w
    = (Ret tt, emits (ObsCallback ec id :: evs) (with_scriptIfaces l w))
    /\ l `sublist_of` scriptIfaces w
    /\ (evs = [] \/ evs = [ObsUnpublish id]).
Proof.
  unfold call. munfold. simpl.
  destruct (removeFromActive_inv ec id (emit (ObsCallback ec id) w))
    as (b & l & evs & Heq & Hsub & Hevs).
  rewrite Heq. exists l, evs. split; [|done].
  unfold emits, with_scriptIfaces, emit. simpl. by rewrite <- app_assoc.
Qed.

(** The segment of [execute] that spawns the child, for a coroutine that
    [run_script] has just created: a child that does not start is reported
    through the callback with [operation_aborted]. *)
Lemma spawn_failure_reported pid fr spawn env w :
  frames w !! pid = Some fr ->
  fr_at fr = Spawned ->
  fr_callback fr = Some bound_removeFromActive ->
  spawn <> spawn_running ->
  exists evs at_end,
    trace (exec (execute pid (child_spawned spawn env)) w)
    = trace w ++ ObsCallback ec_operation_aborted (fr_hash fr) :: evs
    /\ (at_end = NotRunning \/ at_end = Caught)
    /\ frames (exec (execute pid (child_spawned spawn env)) w)
       = <[pid := suspend_at at_end fr]> (frames w)
    /\ script_cache (exec (execute pid (child_spawned spawn env)) w) = script_cache w.
Proof.
  intros Hfr Hat Hcb Hspawn.
  unfold exec, execute. rewrite Hfr, Hat.
  unfold execute_try, execute_begin. munfold.
  destruct (scriptDir env (fr_hash fr) w) as [r w0] eqn:Hdir.
  destruct (scriptDir_inv _ _ _ _ _ Hdir) as (d & -> & Hr).
  assert (Hpc : parameter_callback pid (with_dirs d w) = Some bound_removeFromActive).
  { unfold parameter_callback. simpl. rewrite Hfr. simpl. done. }
  assert (Halter : forall s w', frames w' = frames w ->
            frames (update_frame pid (suspend_at s) w') = <[pid := suspend_at s fr]> (frames w)).
  { intros s w' Hw'. unfold update_frame. simpl. rewrite Hw'.
    apply list_eq. intros i. destruct (decide (i = pid)) as [->|Hne].
    - rewrite list_lookup_alter_eq, Hfr. simpl.
      rewrite list_lookup_insert_eq; [done|]. by eapply lookup_lt_Some.
    - rewrite list_lookup_alter_ne, list_lookup_insert_ne by done. done. }
  destruct r as [dir|e]; simpl.
  - destruct spawn; [| |congruence]; simpl; rewrite Hpc;
      destruct (call_inv ec_operation_aborted (fr_hash fr) (with_dirs d w))
        as (l & evs & -> & _ & _); simpl;
      exists evs; [exists Caught|exists NotRunning];
      (split; [reflexivity|]); (split; [eauto|]); (split; [by apply Halter|done]).
  - rewrite Hpc.
    destruct (call_inv ec_operation_aborted (fr_hash fr) (with_dirs d w))
        as (l & evs & -> & _ & _); simpl.
    exists evs, Caught.
    (split; [reflexivity|]); (split; [eauto|]); (split; [by apply Halter|done]).
Qed.

(** ** Hashing failure during [start] *)

Lemma addToActive_no_hash EVP script timeout dumpNeeded env w :
  makeScriptId EVP (now_time_t env) script = None ->
  addToActive EVP script timeout dumpNeeded env w = (Throw bad_optional_access, w).
Proof.
  intros Hnone. unfold addToActive. rewrite Hnone. reflexivity.
Qed.

(** C5 (as the code behaves).  When the hash of the time-salted script
    cannot be computed, [addToActive] does not return [false]: the argument
    [scriptId.value()] of the log statement that precedes the test
    [if (!scriptId)] throws [std::bad_optional_access], and the exception
    leaves [addToActive] and [start].  Nothing is registered or published
    by [addToActive] on that path. *)
Theorem C5_hash_failure_escapes_as_exception
    EVP script timeout dumpNeeded env w :
  makeScriptId EVP (now_time_t env) script = None ->
  addToActive EVP script timeout dumpNeeded env w = (Throw bad_optional_access, w)
  /\ (exists e, (start EVP script timeout dumpNeeded env w).1 = Throw e)
  /\ (forall b, (start EVP script timeout dumpNeeded env w).1 <> Ret b).
Proof.
  intros Hnone.
  assert (Hadd := fun w' => addToActive_no_hash EVP script timeout dumpNeeded env w' Hnone).
  split; [apply Hadd|].
  assert (exists e, (start EVP script timeout dumpNeeded env w).1 = Throw e) as [e He].
  { unfold start. munfold.
    destruct (ensureMaxActiveScripts w) as [[[]|e] w1]; simpl.
    - rewrite Hadd. eauto.
    - eauto. }
  split; [eauto|]. intros b Hb. rewrite He in Hb. discriminate.
Qed.

Lemma C5_witness :
  makeScriptId EVP_failing 1700000000 "echo hi" = None
  /\ addToActive EVP_failing "echo hi" 0 false (mkStartEnv 1700000000 true fs_ok) initial
     = (Throw bad_optional_access, initial)
  /\ (exists e, (start EVP_failing "echo hi" 0 false
                   (mkStartEnv 1700000000 true fs_ok) initial).1 = Throw e)
  /\ (forall b, (start EVP_failing "echo hi" 0 false
                   (mkStartEnv 1700000000 true fs_ok) initial).1 <> Ret b).
Proof.
  split; [reflexivity|].
  apply (C5_hash_failure_escapes_as_exception EVP_failing "echo hi" 0 false
           (mkStartEnv 1700000000 true fs_ok) initial).
  reflexivity.
Defined.

(** ** C3: the synchronous result of [run_script] *)

(** C3 (amended).  [run_script] returns [false] exactly when the script
    file cannot be opened for writing, its directory being there or having
    been created; it returns [true] exactly when the file was opened.  A
    child that then fails to spawn does not reach the return value: the
    coroutine spawned by that call reports it through the callback, with
    [operation_aborted]. *)
Theorem C3_run_script_false_iff_open_fails id script dumpNeeded env w :
  ((run_script id script dumpNeeded (Some bound_removeFromActive) env w).1 = Ret false
   <-> ((dir_path id ∈ dirs w \/ mkdir_ok env = true) /\ open_ok env = false))
  /\ ((run_script id script dumpNeeded (Some bound_removeFromActive) env w).1 = Ret true
      <-> ((dir_path id ∈ dirs w \/ mkdir_ok env = true) /\ open_ok env = true))
  /\ (forall spawn env',
        (run_script id script dumpNeeded (Some bound_removeFromActive) env w).1 = Ret true ->
        spawn <> spawn_running ->
        exists evs,
          trace (exec (execute (length (frames w)) (child_spawned spawn env'))
                      (run_script id script dumpNeeded (Some bound_removeFromActive) env w).2)
          = trace w ++ ObsCallback ec_operation_aborted id :: evs).
Proof.
  split; [apply run_script_result|]. split; [apply run_script_result|].
  intros spawn env' Htrue Hspawn.
  destruct (run_script_world _ _ _ _ _ _ Htrue) as (d & f & -> & _).
  set (fr := mkFrame (file_path (dir_path id) id ".sh") id dumpNeeded
                     (Some bound_removeFromActive) None Spawned).
  destruct (spawn_failure_reported (length (frames w)) fr spawn env'
              (with_frames (frames w ++ [fr]) (with_files f (with_dirs d w))))
    as (evs & s & Htr & _); [| done | done | exact Hspawn |].
  - simpl. by apply list_lookup_middle.
  - exists evs. rewrite Htr. reflexivity.
Qed.

Lemma C3_witness :
  exists evs,
    trace (exec (execute (length (frames initial)) (child_spawned spawn_not_running fs_ok))
                (run_script "id123" "echo Hello" false (Some bound_removeFromActive)
                            fs_ok initial).2)
    = trace initial ++ ObsCallback ec_operation_aborted "id123" :: evs.
Proof.
  apply (C3_run_script_false_iff_open_fails "id123" "echo Hello" false fs_ok initial).
  - reflexivity.
  - discriminate.
Defined.

(** C3 as stated fails: the file was written, the child failed to spawn
    (the coroutine left through [co_return] after [!c.running()] and the
    callback got [operation_aborted]), and [run_script] had returned
    [true], not [false]. *)
Lemma C3_counterexample :
  (fr_at <$> frames C3_after !! 0%nat) = Some NotRunning
  /\ trace C3_after = [ObsCallback ec_operation_aborted "id123"]
  /\ ~ (C3_call.1 = Ret false
        <-> (open_ok fs_ok = false
             \/ (fr_at <$> frames C3_after !! 0%nat) = Some NotRunning)).
Proof.
  split; [reflexivity|]. split; [reflexivity|].
  intros [_ H]. specialize (H (or_intror eq_refl)). discriminate H.
Qed.

(** ** Handlers that respect a preorder on worlds *)

Section Stable.

Variable R : relation World.

Context `{!PreOrder R}.

Lemma stable_ret {A : Type} (a : A) : stable R (mret a).
Proof. intros w. simpl. reflexivity. Qed.

Lemma stable_throw {A : Type} (e : exn) : stable R (@throw A e).
Proof. intros w. simpl. reflexivity. Qed.

Lemma stable_gets {A : Type} (f : World -> A) : stable R (gets f).
Proof. intros w. simpl. reflexivity. Qed.

Lemma stable_modify (f : World -> World) :
  (forall w, R w (f w)) -> stable R (modify f).
Proof. intros Hf w. apply Hf. Qed.

Lemma stable_bind {A B : Type} (m : M A) (k : A -> M B) :
  stable R m -> (forall a, stable R (k a)) -> stable R (m ≫= k).
Proof.
  intros Hm Hk w. specialize (Hm w). munfold.
  destruct (m w) as [[a|e] w1]; simpl in *.
  - etransitivity; [exact Hm|apply Hk].
  - exact Hm.
Qed.

Lemma stable_try_catch {A : Type} (m : M A) (h : exn -> M A) :
  stable R m -> (forall e, stable R (h e)) -> stable R (try_catch m h).
Proof.
  intros Hm Hh w. specialize (Hm w). munfold.
  destruct (m w) as [[a|e] w1]; simpl in *.
  - exact Hm.
  - etransitivity; [exact Hm|apply Hh].
Qed.

Lemma stable_unwinding {A : Type} (m : M A) (d : World -> World) :
  stable R m -> (forall w, R w (d w)) -> stable R (unwinding m d).
Proof.
  intros Hm Hd w. specialize (Hm w). munfold.
  destruct (m w) as [[a|e] w1]; simpl in *.
  - exact Hm.
  - etransitivity; [exact Hm|apply Hd].
Qed.

Lemma stable_if {A : Type} (b : bool) (m1 m2 : M A) :
  stable R m1 -> stable R m2 -> stable R (if b then m1 else m2).
Proof. by destruct b. Qed.

Lemma stable_if_decide {A : Type} (P : Prop) `{!Decision P} (m1 m2 : M A) :
  stable R m1 -> stable R m2 -> stable R (if decide P then m1 else m2).
Proof. by case_decide. Qed.

End Stable.

#[global] Instance calm_preorder : PreOrder calm.
Proof.
  split.
  - intros w. by repeat split.
  - intros w1 w2 w3 (?&?&?) (?&?&?). repeat split.
    + by etransitivity.
    + by etransitivity.
    + congruence.
Qed.

Ltac stable_step :=
  lazymatch goal with
  | |- stable _ (mret _) => apply stable_ret; apply _
  | |- stable _ (throw _) => apply stable_throw; apply _
  | |- stable _ (gets _) => apply stable_gets; apply _
  | |- stable _ (mbind _ _) => apply stable_bind; [apply _| |intros ?]
  | |- stable _ (try_catch _ _) => apply stable_try_catch; [apply _| |intros ?]
  | |- stable _ (unwinding _ _) => apply stable_unwinding; [apply _| |intros ?]
  | |- stable _ (modify _) => apply stable_modify; intros ?
  | |- stable _ (if decide _ then _ else _) => apply stable_if_decide
  | |- stable _ (if _ then _ else _) => apply stable_if
  | |- stable _ (match ?x with _ => _ end) => destruct x
  end.

Lemma calm_removeFromActive ec id : stable calm (removeFromActive ec id).
Proof.
  intros w. destruct (removeFromActive_inv ec id w) as (b & l & evs & -> & Hsub & _).
  by repeat split.
Qed.

Lemma calm_emit o w : calm w (emit o w).
Proof. by repeat split. Qed.

Lemma calm_call f ec id : stable calm (call f ec id).
Proof.
  destruct f as [[]|]; unfold call; repeat stable_step.
  - apply calm_emit.
  - apply calm_removeFromActive.
Qed.

Lemma calm_dirs d w : calm w (with_dirs d w).
Proof. by repeat split. Qed.

Lemma calm_files f w : calm w (with_files f w).
Proof. by repeat split. Qed.

Lemma calm_matches m w : calm w (with_matches m w).
Proof. by repeat split. Qed.

Lemma calm_dtor iface w : calm w (ScriptIface_dtor iface w).
Proof. by repeat split. Qed.

Create HintDb calm.

#[local] Hint Resolve calm_emit calm_dirs calm_files calm_matches calm_dtor
  calm_removeFromActive calm_call : calm.

Ltac calm := repeat stable_step; eauto with calm.

Lemma calm_scriptDir env id : stable calm (scriptDir env id).
Proof.
  intros w. destruct (scriptDir env id w) as [r w'] eqn:H.
  apply scriptDir_inv in H as (d & -> & _). apply calm_dirs.
Qed.

#[local] Hint Resolve calm_scriptDir : calm.

Lemma calm_scriptFileName env id : stable calm (scriptFileName env id).
Proof. unfold scriptFileName. calm. Qed.

Lemma calm_scriptOutputFileName env id : stable calm (scriptOutputFileName env id).
Proof. unfold scriptOutputFileName. calm. Qed.

Lemma calm_remove_all env dir : stable calm (remove_all env dir).
Proof.
  intros w. unfold remove_all. destruct (remove_ok env); simpl; [|reflexivity].
  by repeat split.
Qed.

Lemma calm_ofstream_open env path : stable calm (ofstream_open env path).
Proof.
  intros w. unfold ofstream_open. destruct (open_ok env); simpl; [|reflexivity].
  by repeat split.
Qed.

Lemma calm_os_write os s w : calm w (os_write os s w).
Proof. destruct os; simpl; [|reflexivity]. by repeat split. Qed.

Lemma calm_write_reads reads os w : calm w (write_reads reads os w).
Proof.
  revert w. induction reads as [|buf rest IH]; intros w; simpl; [reflexivity|].
  etransitivity; [apply (calm_os_write os buf)|apply IH].
Qed.

Lemma calm_writeResult1 ap os : stable calm (writeResult1 ap os).
Proof.
  intros w. unfold writeResult1. destruct (last_end ap); simpl.
  - etransitivity; [apply calm_write_reads|apply calm_os_write].
  - apply calm_write_reads.
Qed.

#[local] Hint Resolve calm_scriptFileName calm_scriptOutputFileName calm_remove_all
  calm_ofstream_open calm_os_write calm_writeResult1 : calm.

Lemma calm_writeResult out err ofs : stable calm (writeResult out err ofs).
Proof. unfold writeResult. calm. Qed.

Lemma calm_propcallback env id dumpId changed :
  stable calm (propcallback env id dumpId changed).
Proof.
  induction changed as [|[prop v] rest IH]; simpl; calm.
Qed.

Lemma calm_monitorDumpProgress id dumpId : stable calm (monitorDumpProgress id dumpId).
Proof.
  unfold monitorDumpProgress. stable_step.
  destruct (dumpProgressMatches _ !! dumpId); [reflexivity|apply calm_matches].
Qed.

Lemma calm_invokeCallback ec id : stable calm (invokeCallback ec id).
Proof. unfold invokeCallback. calm. Qed.

Lemma calm_remove id : stable calm (remove id).
Proof.
  unfold remove. stable_step. destruct (script_cache _ !! id); [|reflexivity].
  repeat split; simpl; try done. apply delete_subseteq.
Qed.

#[local] Hint Resolve calm_writeResult calm_propcallback calm_monitorDumpProgress
  calm_invokeCallback calm_remove : calm.

Lemma calm_cancel_script id owner : stable calm (cancel_script id owner).
Proof. unfold cancel_script. calm. Qed.

#[local] Hint Resolve calm_cancel_script : calm.

Lemma calm_ScriptIface_cancel iface owner :
  stable calm (ScriptIface_cancel iface owner).
Proof. unfold ScriptIface_cancel. calm. Qed.

#[local] Hint Resolve calm_ScriptIface_cancel : calm.

Lemma calm_cancel id : stable calm (cancel id).
Proof. unfold cancel. calm. Qed.

Lemma calm_script_cancel k : stable calm (script_cancel k).
Proof.
  intros w. unfold script_cancel. destruct (scriptIfaces w !! k); [|reflexivity].
  apply calm_ScriptIface_cancel.
Qed.

Lemma calm_deliver dumpId changed env : stable calm (deliver dumpId changed env).
Proof.
  intros w. unfold deliver.
  destruct (dumpProgressMatches w !! dumpId) as [[id d]|]; [|reflexivity].
  apply calm_propcallback.
Qed.

Lemma ensure_loop_unfold n w :
  ensure_loop (S n) w =
  match scriptIfaces w with
  | [] => (Ret tt, w)
  | iface :: rest =>
      if (maxActiveScripts <=? length (iface :: rest))%nat
      then ensure_body iface n (with_scriptIfaces rest w)
      else (Ret tt, w)
  end.
Proof.
  simpl. munfold. simpl. destruct (scriptIfaces w) as [|iface rest]; [done|].
  destruct (maxActiveScripts <=? length (iface :: rest))%nat; reflexivity.
Qed.

Lemma calm_ensure_loop n : stable calm (ensure_loop n).
Proof.
  induction n as [|n IH]; intros w; [reflexivity|].
  rewrite ensure_loop_unfold.
  destruct (scriptIfaces w) as [|iface rest] eqn:Hl; [reflexivity|].
  destruct (maxActiveScripts <=? length (iface :: rest))%nat; [|reflexivity].
  transitivity (with_scriptIfaces rest w).
  - repeat split; simpl; try done. rewrite Hl. by apply sublist_cons.
  - revert IH. generalize (with_scriptIfaces rest w). unfold ensure_body.
    intros w' IH. revert w'. change (stable calm
      (unwinding (ScriptIface_cancel iface None) (ScriptIface_dtor iface) ;;
       modify (ScriptIface_dtor iface) ;; ensure_loop n)). calm.
Qed.

Lemma calm_ensureMaxActiveScripts : stable calm ensureMaxActiveScripts.
Proof. intros w. apply calm_ensure_loop. Qed.

(** ** The loop of [ensureMaxActiveScripts] runs to its exit test *)

Lemma ensure_loop_exit n w :
  (length (scriptIfaces w) < n)%nat ->
  (ensure_loop n w).1 = Ret tt ->
  (length (scriptIfaces (ensure_loop n w).2) < maxActiveScripts)%nat.
Proof.
  revert w. induction n as [|n IH]; intros w Hn; [lia|].
  rewrite ensure_loop_unfold.
  destruct (scriptIfaces w) as [|iface rest] eqn:Hl.
  { intros _. simpl. rewrite Hl. unfold maxActiveScripts. simpl. lia. }
  destruct (maxActiveScripts <=? length (iface :: rest))%nat eqn:Hmax.
  2:{ intros _. simpl. rewrite Hl. apply Nat.leb_gt in Hmax. exact Hmax. }
  unfold ensure_body. munfold.
  destruct (ScriptIface_cancel iface None (with_scriptIfaces rest w)) as [[b|e] w1] eqn:Hc;
    simpl; [|discriminate].
  intros Hret. apply IH; [|exact Hret].
  pose proof (calm_ScriptIface_cancel iface None (with_scriptIfaces rest w)) as (Hsub & _).
  rewrite Hc in Hsub. simpl in *. apply sublist_length in Hsub. lia.
Qed.

Lemma ensureMaxActiveScripts_exit w :
  (ensureMaxActiveScripts w).1 = Ret tt ->
  (length (scriptIfaces (ensureMaxActiveScripts w).2) < maxActiveScripts)%nat.
Proof. apply ensure_loop_exit. lia. Qed.

(** ** Handlers that touch working storage only *)

#[global] Instance storage_only_preorder : PreOrder storage_only.
Proof.
  split.
  - intros w. by repeat split.
  - intros w1 w2 w3 (?&?&?&?&?) (?&?&?&?&?). repeat split; congruence.
Qed.

Lemma storage_scriptDir env id : stable storage_only (scriptDir env id).
Proof.
  intros w. destruct (scriptDir env id w) as [r w'] eqn:H.
  apply scriptDir_inv in H as (d & -> & _). by repeat split.
Qed.

Lemma storage_remove_all env dir : stable storage_only (remove_all env dir).
Proof.
  intros w. unfold remove_all. destruct (remove_ok env); simpl; by repeat split.
Qed.

Lemma storage_ofstream_open env path : stable storage_only (ofstream_open env path).
Proof.
  intros w. unfold ofstream_open. destruct (open_ok env); simpl; by repeat split.
Qed.

Lemma storage_os_write os s w : storage_only w (os_write os s w).
Proof. destruct os; simpl; by repeat split. Qed.

Lemma storage_write_reads reads os w : storage_only w (write_reads reads os w).
Proof.
  revert w. induction reads as [|buf rest IH]; intros w; simpl; [reflexivity|].
  etransitivity; [apply (storage_os_write os buf)|apply IH].
Qed.

Lemma storage_writeResult1 ap os : stable storage_only (writeResult1 ap os).
Proof.
  intros w. unfold writeResult1. destruct (last_end ap); simpl.
  - etransitivity; [apply storage_write_reads|apply storage_os_write].
  - apply storage_write_reads.
Qed.

Create HintDb storage.

#[local] Hint Resolve storage_scriptDir storage_remove_all storage_ofstream_open
  storage_os_write storage_writeResult1 : storage.

Ltac storage := repeat stable_step; eauto with storage.

Lemma storage_scriptFileName env id : stable storage_only (scriptFileName env id).
Proof. unfold scriptFileName. storage. Qed.

Lemma storage_scriptOutputFileName env id :
  stable storage_only (scriptOutputFileName env id).
Proof. unfold scriptOutputFileName. storage. Qed.

Lemma storage_writeResult out err ofs : stable storage_only (writeResult out err ofs).
Proof. unfold writeResult. storage. Qed.

#[local] Hint Resolve storage_scriptFileName storage_scriptOutputFileName
  storage_writeResult : storage.

(** A call of [run_script] that does not return [true] spawns nothing. *)
Lemma run_script_unspawned id script dumpNeeded cb env w :
  (run_script id script dumpNeeded cb env w).1 <> Ret true ->
  storage_only w (run_script id script dumpNeeded cb env w).2.
Proof.
  unfold run_script. munfold.
  pose proof (storage_scriptFileName env id w) as Hs.
  destruct (scriptFileName env id w) as [[filename|e] w0]; simpl in *; [|done].
  unfold ofstream_open. destruct (open_ok env); simpl; [done|]. done.
Qed.

(** ** What [addToActive] leaves behind *)

(** Storage and the trace apart, [addToActive] either changes nothing or
    appends one registry entry and one coroutine that has not started. *)
Lemma addToActive_inv EVP script timeout dumpNeeded env w :
  script_cache (addToActive EVP script timeout dumpNeeded env w).2 = script_cache w
  /\ ((scriptIfaces (addToActive EVP script timeout dumpNeeded env w).2 = scriptIfaces w
       /\ frames (addToActive EVP script timeout dumpNeeded env w).2 = frames w
       /\ (addToActive EVP script timeout dumpNeeded env w).1 <> Ret true)
      \/ (exists iface fr,
            scriptIfaces (addToActive EVP script timeout dumpNeeded env w).2
            = scriptIfaces w ++ [iface]
            /\ frames (addToActive EVP script timeout dumpNeeded env w).2
               = frames w ++ [fr]
            /\ timer_ok iface
            /\ data iface = mkData script (fr_hash fr) timeout dumpNeeded
            /\ makeScriptId EVP (now_time_t env) script = Some (fr_hash fr)
            /\ fr_at fr = Spawned
            /\ fr_dumpNeeded fr = dumpNeeded
            /\ fr_callback fr = Some bound_removeFromActive
            /\ (addToActive EVP script timeout dumpNeeded env w).1 = Ret true)).
Proof.
  unfold addToActive.
  destruct (makeScriptId EVP (now_time_t env) script) as [id|]; simpl.
  2:{ split; [done|]. left. by repeat split. }
  munfold. unfold ScriptIface_ctor. munfold.
  destruct (add_interface_ok env); simpl.
  2:{ split; [done|]. left. by repeat split. }
  unfold runScript. munfold. simpl.
  set (w0 := emit (ObsPublish id) w).
  pose proof (run_script_unspawned id script dumpNeeded (Some bound_removeFromActive)
                (start_fs env) w0) as Hun.
  destruct (run_script id script dumpNeeded (Some bound_removeFromActive) (start_fs env) w0)
    as [[b|e] w1] eqn:Hrun; simpl.
  - destruct b; simpl.
    + assert (Htrue : (run_script id script dumpNeeded (Some bound_removeFromActive)
                                  (start_fs env) w0).1 = Ret true) by (by rewrite Hrun).
      destruct (run_script_world _ _ _ _ _ _ Htrue) as (d & f & Hw1 & _).
      rewrite Hrun in Hw1. simpl in Hw1. subst w1.
      unfold startTimeout. munfold. simpl.
      case_decide as Hto; simpl.
      * split; [done|]. right. eexists _, _. repeat split; try done. by left.
      * split; [done|]. right. eexists _, _. repeat split; try done. by right.
    + destruct Hun as (?&?&?&?&?); [done|]. simpl in *.
      split; [done|]. left. by repeat split.
  - destruct Hun as (?&?&?&?&?); [done|]. simpl in *.
    split; [done|]. left. by repeat split.
Qed.

(** ** Test vectors of SHA-256 *)

Lemma SHA256_abc :
  hex_string (SHA256.digest "abc")
  = "ba7816bf8f01cfea414140de5dae2223b00361a396177a9cb410ff61f20015ad".
Proof. vm_compute. reflexivity. Qed.

Lemma SHA256_empty :
  hex_string (SHA256.digest "")
  = "e3b0c44298fc1c149afbf4c8996fb92427ae41e4649b934ca495991b7852b855".
Proof. vm_compute. reflexivity. Qed.

Lemma SHA256_two_blocks :
  hex_string (SHA256.digest "abcdbcdecdefdefgefghfghighijhijkijkljklmklmnlmnomnopnopq")
  = "248d6a61d20638b8e5c026930c3e6039a33ce45964ff2167f6ecedd419db06c1".
Proof. vm_compute. reflexivity. Qed.

Lemma demo_id_value :
  makeScriptId EVP_sha256_ok 1700000000 "echo Hello" = Some "29242177a4a07f0b".
Proof. vm_compute. reflexivity. Qed.

Lemma SHA256_constants :
  length SHA256.primes = 64%nat
  /\ nth 0 SHA256.K 0%N = 0x428a2f98%N
  /\ nth 63 SHA256.K 0%N = 0xc67178f2%N
  /\ nth 0 SHA256.H0 0%N = 0x6a09e667%N
  /\ nth 7 SHA256.H0 0%N = 0x5be0cd19%N.
Proof. vm_compute. repeat split. Qed.

(** ** Counting what happened to a job *)

Lemma count_app p t1 t2 : count p (t1 ++ t2) = (count p t1 + count p t2)%nat.
Proof. induction t1 as [|o t1 IH]; simpl; [done|]. rewrite IH. lia. Qed.

Lemma ledger_emit o w :
  ledger (emit o w) = ledger w ++ (if job_event o then [o] else []).
Proof.
  unfold ledger. simpl. rewrite List.filter_app. simpl. by destruct (job_event o).
Qed.

Lemma ledger_emits evs w :
  ledger (emits evs w) = ledger w ++ List.filter job_event evs.
Proof. unfold ledger. simpl. by rewrite List.filter_app. Qed.

Lemma ledger_with_scriptIfaces l w : ledger (with_scriptIfaces l w) = ledger w.
Proof. reflexivity. Qed.

Lemma ledger_with_script_cache c w : ledger (with_script_cache c w) = ledger w.
Proof. reflexivity. Qed.

Lemma ledger_with_matches m w : ledger (with_matches m w) = ledger w.
Proof. reflexivity. Qed.

Lemma ledger_with_frames f w : ledger (with_frames f w) = ledger w.
Proof. reflexivity. Qed.

Lemma ledger_with_dirs d w : ledger (with_dirs d w) = ledger w.
Proof. reflexivity. Qed.

Lemma ledger_with_files f w : ledger (with_files f w) = ledger w.
Proof. reflexivity. Qed.

Lemma ledger_update_frame pid f w : ledger (update_frame pid f w) = ledger w.
Proof. reflexivity. Qed.

Lemma ledger_dtor iface w : ledger (ScriptIface_dtor iface w) = ledger w.
Proof. unfold ScriptIface_dtor. by rewrite ledger_emit, app_nil_r. Qed.

Create Rewrite HintDb ledger.

#[global] Hint Rewrite ledger_emit ledger_emits ledger_with_scriptIfaces
  ledger_with_script_cache ledger_with_matches ledger_with_frames ledger_with_dirs
  ledger_with_files ledger_update_frame ledger_dtor : ledger.

Arguments ledger : simpl never.

Ltac ledger_simpl := autorewrite with ledger; simpl; rewrite ?app_nil_r.

(** ** Normal forms of the storage operations *)

Lemma with_files_same w : with_files (files w) w = w.
Proof. by destruct w. Qed.

Lemma with_matches_same w : with_matches (dumpProgressMatches w) w = w.
Proof. by destruct w. Qed.

Lemma os_write_inv os s w : exists f, os_write os s w = with_files f w.
Proof.
  destruct os; simpl; [by eexists|]. exists (files w). by rewrite with_files_same.
Qed.

Lemma write_reads_inv reads os w : exists f, write_reads reads os w = with_files f w.
Proof.
  revert w. induction reads as [|buf rest IH]; intros w; simpl.
  - exists (files w). by rewrite with_files_same.
  - destruct (os_write_inv os buf w) as (f & ->).
    destruct (IH (with_files f w)) as (f' & ->). by exists f'.
Qed.

Lemma writeResult1_inv ap os w r w' :
  writeResult1 ap os w = (r, w') ->
  exists ec f, r = Ret ec /\ w' = with_files f w.
Proof.
  unfold writeResult1. destruct (write_reads_inv (full_reads ap) os w) as (f & ->).
  destruct (last_end ap).
  - destruct (os_write_inv os (last_read ap) (with_files f w)) as (f' & ->).
    intros [= <- <-]. by eexists _, f'.
  - intros [= <- <-]. by eexists _, f.
Qed.

Lemma writeResult_inv out err ofs w r w' :
  writeResult out err ofs w = (r, w') ->
  exists ec f, r = Ret ec /\ w' = with_files f w.
Proof.
  unfold writeResult. munfold.
  destruct (writeResult1 out ofs w) as [r1 w1] eqn:H1.
  apply writeResult1_inv in H1 as (ec1 & f1 & -> & ->).
  destruct (ec_set ec1).
  - intros [= <- <-]. by eexists _, _.
  - destruct (writeResult1 err ofs (with_files f1 w)) as [r2 w2] eqn:H2.
    apply writeResult1_inv in H2 as (ec2 & f2 & -> & ->).
    destruct (ec_set ec2); intros [= <- <-]; by eexists _, _.
Qed.

Lemma remove_all_inv env dir w r w' :
  remove_all env dir w = (r, w') ->
  exists d f, w' = with_files f (with_dirs d w)
    /\ match r with
       | Ret _ => (remove_ok env = true /\ (dir ∉ d)
                   /\ forall p, String.prefix (dir +:+ "/") p = true -> f !! p = None)
       | Throw e => (e = filesystem_error /\ remove_ok env = false)
       end.
Proof.
  unfold remove_all. destruct (remove_ok env).
  - intros [= <- <-]. eexists _, _. split; [done|]. split; [done|]. split.
    { intros [_ Hn]%elem_of_difference. apply Hn. by apply elem_of_singleton. }
    intros p Hp. apply map_lookup_filter_None. right. intros v _. simpl. congruence.
  - intros [= <- <-]. exists (dirs w), (files w).
    rewrite with_dirs_same, with_files_same. done.
Qed.

Lemma ofstream_open_inv env path w r w' :
  ofstream_open env path w = (r, w') ->
  exists f, w' = with_files f w
    /\ ((open_ok env = true /\ r = Ret (Some path) /\ f = <[path := EmptyString]> (files w))
        \/ (open_ok env = false /\ r = Ret None /\ f = files w)).
Proof.
  unfold ofstream_open. destruct (open_ok env); intros [= <- <-].
  - eexists. split; [done|]. by left.
  - exists (files w). rewrite with_files_same. split; [done|]. by right.
Qed.

Lemma scriptOutputFileName_inv env id w r w' :
  scriptOutputFileName env id w = (r, w') ->
  exists d, w' = with_dirs d w /\
    match r with
    | Ret path => (path = file_path (dir_path id) id ".out" /\ dir_path id ∈ d)
    | Throw e => (e = filesystem_error /\ ~ (dir_path id ∈ dirs w)
                  /\ mkdir_ok env = false /\ d = dirs w)
    end.
Proof.
  unfold scriptOutputFileName. munfold.
  destruct (scriptDir env id w) as [r0 w0] eqn:H.
  apply scriptDir_inv in H as (d & -> & Hr).
  destruct r0 as [dir|e]; intros [= <- <-]; exists d; (split; [done|]).
  - destruct Hr as [-> ?]. done.
  - done.
Qed.

Lemma report_exit_code_inv ofs exit_code w r w' :
  report_exit_code ofs exit_code w = (r, w') ->
  exists f, r = Ret tt /\ w' = with_files f w.
Proof.
  unfold report_exit_code. munfold. case_decide; intros [= <- <-].
  - destruct (os_write_inv ofs
                ("Script execution failed with exit code: " +:+ to_string exit_code
                 +:+ newline) w) as (f & ->). by exists f.
  - exists (files w). by rewrite with_files_same.
Qed.

Lemma monitorDumpProgress_inv id dumpId w :
  exists m, monitorDumpProgress id dumpId w = (Ret tt, with_matches m w).
Proof.
  unfold monitorDumpProgress. munfold.
  destruct (dumpProgressMatches w !! dumpId).
  - exists (dumpProgressMatches w). by rewrite with_matches_same.
  - by eexists.
Qed.

(** ** The job table seen through the ledger *)

Lemma call_spec ec id w :
  exists w',
    call (Some bound_removeFromActive) ec id w = (Ret tt, w')
    /\ scriptIfaces w' `sublist_of` scriptIfaces w
    /\ script_cache w' = script_cache w
    /\ frames w' = frames w
    /\ dirs w' = dirs w
    /\ files w' = files w
    /\ dumpProgressMatches w' = dumpProgressMatches w
    /\ ledger w' = ledger w ++ [ObsCallback ec id].
Proof.
  destruct (call_inv ec id w) as (l & evs & -> & Hsub & Hevs).
  eexists. split; [done|]. repeat split; try done.
  rewrite ledger_emits. simpl. f_equal.
  destruct Hevs as [-> | ->]; reflexivity.
Qed.

(** [remove] by cases on the table. *)
Lemma remove_spec id w :
  match script_cache w !! id with
  | None => remove id w = (Ret tt, w)
  | Some _ =>
      remove id w
      = (Ret tt, emit (ObsErase id) (with_script_cache (delete id (script_cache w)) w))
  end.
Proof. unfold remove. munfold. by destruct (script_cache w !! id). Qed.

Lemma call_None ec id w : call None ec id w = (Throw bad_function_call, w).
Proof. reflexivity. Qed.

(** ** What ends up in the output file *)

Lemma append_assoc (a b c : string) : (a +:+ b) +:+ c = a +:+ (b +:+ c).
Proof.
  induction a as [|x a IH]; [done|].
  change (String x ((a +:+ b) +:+ c) = String x (a +:+ (b +:+ c))). by f_equal.
Qed.

Lemma append_empty (a : string) : a +:+ EmptyString = a.
Proof.
  induction a as [|x a IH]; [done|].
  change (String x (a +:+ EmptyString) = String x a). by f_equal.
Qed.

Lemma prefix_append (a b : string) : String.prefix a (a +:+ b) = true.
Proof.
  induction a as [|x a IH]; [by destruct b|].
  change (String.prefix (String x a) (String x (a +:+ b)) = true). simpl.
  destruct (Ascii.ascii_dec x x); [done|congruence].
Qed.

Lemma os_write_content os s w :
  content os (os_write os s w) = (fun c => c +:+ s) <$> content os w.
Proof.
  destruct os as [path|]; simpl; [|done]. by rewrite lookup_alter_eq.
Qed.

Lemma write_reads_content reads os w :
  content os (write_reads reads os w)
  = (fun c => c +:+ fold_right append EmptyString reads) <$> content os w.
Proof.
  revert w. induction reads as [|buf rest IH]; intros w; simpl.
  - destruct (content os w); simpl; [|done]. by rewrite append_empty.
  - rewrite IH, os_write_content. destruct (content os w); simpl; [|done].
    by rewrite append_assoc.
Qed.

Lemma fold_right_append (reads : list string) (s : string) :
  fold_right append s reads = fold_right append EmptyString reads +:+ s.
Proof.
  induction reads as [|buf rest IH]; simpl; [done|]. by rewrite IH, append_assoc.
Qed.

Lemma writeResult1_content ap os w :
  content os (writeResult1 ap os w).2 = (fun c => c +:+ drained ap) <$> content os w
  /\ (writeResult1 ap os w).1
     = Ret (match last_end ap with at_eof => ec_default | at_error n => ec_failure n end).
Proof.
  unfold writeResult1, drained. rewrite (fold_right_append (full_reads ap)).
  destruct (last_end ap); simpl.
  - split; [|done]. rewrite os_write_content, write_reads_content.
    destruct (content os w); simpl; [|done]. by rewrite append_assoc.
  - split; [|done]. rewrite write_reads_content.
    destruct (content os w); simpl; [|done]. by rewrite append_empty.
Qed.

Lemma writeResult_content out err os w :
  content os (writeResult out err os w).2 = (fun c => c +:+ captured out err) <$> content os w.
Proof.
  unfold writeResult, captured. munfold.
  destruct (writeResult1_content out os w) as [Hc Hr].
  destruct (writeResult1 out os w) as [r1 w1]. simpl in Hc, Hr. subst r1.
  destruct (last_end out); simpl.
  - destruct (writeResult1_content err os w1) as [Hc2 Hr2].
    destruct (writeResult1 err os w1) as [r2 w2]. simpl in Hc2, Hr2. subst r2.
    assert (content os w2 = (fun c => c +:+ (drained out +:+ drained err)) <$> content os w).
    { rewrite Hc2, Hc. destruct (content os w); simpl; [|done]. by rewrite append_assoc. }
    by destruct (last_end err).
  - rewrite Hc. destruct (content os w); simpl; [|done]. by rewrite append_empty.
Qed.

Lemma report_exit_code_content ofs exit_code w :
  exit_code <> 0 ->
  content ofs (report_exit_code ofs exit_code w).2
  = (fun c => c +:+ diagnostic exit_code) <$> content ofs w.
Proof.
  intros Hne. unfold report_exit_code. rewrite decide_True by done. munfold. simpl.
  apply os_write_content.
Qed.

(** From here on the operations above are used through their
    characterisations only. *)
#[global] Opaque removeFromActive call remove scriptDir scriptFileName
  scriptOutputFileName remove_all ofstream_open os_write writeResult1 writeResult
  monitorDumpProgress report_exit_code.

(** The tail of [execute] in a tidy world. *)
Lemma execute_end_spec hash w :
  (forall id entry, script_cache w !! id = Some entry ->
                    callback entry = Some bound_removeFromActive) ->
  exists w',
    execute_end hash w = (Ret Finished, w')
    /\ scriptIfaces w' `sublist_of` scriptIfaces w
    /\ frames w' = frames w
    /\ dirs w' = dirs w /\ files w' = files w
    /\ dumpProgressMatches w' = dumpProgressMatches w
    /\ (script_cache w !! hash = None ->
        script_cache w' = script_cache w /\ ledger w' = ledger w)
    /\ (is_Some (script_cache w !! hash) ->
        script_cache w' = delete hash (script_cache w)
        /\ ledger w' = ledger w ++ [ObsCallback ec_default hash; ObsErase hash]).
Proof.
  intros Hcache. unfold execute_end, invokeCallback. munfold. simpl.
  destruct (script_cache w !! hash) as [entry|] eqn:Hlook.
  - rewrite (Hcache _ _ Hlook).
    destruct (call_spec ec_default hash w) as (w1 & -> & Hsub & Hc & Hf & Hd & Hfi & Hm & Hl).
    pose proof (remove_spec hash w1) as Hrm. rewrite Hc, Hlook in Hrm.
    rewrite Hrm. simpl. eexists. split; [done|]. simpl.
    repeat split; try done.
    ledger_simpl. rewrite Hl. by rewrite <- app_assoc.
  - pose proof (remove_spec hash w) as Hrm. rewrite Hlook in Hrm. rewrite Hrm. simpl.
    exists w. split; [done|]. repeat split; try done; by intros [? [=]].
Qed.

Lemma alter_as_insert {A : Type} (f : A -> A) (l : list A) (i : nat) (x : A) :
  l !! i = Some x -> alter f i l = <[i := f x]> l.
Proof.
  intros Hl. apply list_eq. intros j. destruct (decide (j = i)) as [->|Hne].
  - rewrite list_lookup_alter_eq, Hl. simpl.
    rewrite list_lookup_insert_eq; [done|]. by eapply lookup_lt_Some.
  - by rewrite list_lookup_alter_ne, list_lookup_insert_ne.
Qed.

Lemma update_frame_frames pid f w fr :
  frames w !! pid = Some fr ->
  frames (update_frame pid f w) = <[pid := f fr]> (frames w).
Proof. intros H. unfold update_frame. simpl. by apply alter_as_insert. Qed.

Ltac quiet_step := apply js_quiet; reflexivity.

(** The segment that spawns the child. *)
Lemma execute_begin_job_step pid fr spawn env w :
  tidy w ->
  frames w !! pid = Some fr ->
  fr_at fr = Spawned ->
  job_step w (execute_try pid (fr_hash fr) (execute_begin pid (fr_hash fr) spawn env) w).2
  /\ scriptIfaces (execute_try pid (fr_hash fr)
                     (execute_begin pid (fr_hash fr) spawn env) w).2
     `sublist_of` scriptIfaces w.
Proof.
  intros Htidy Hfr Hat.
  assert (Hcb : fr_callback fr = Some bound_removeFromActive).
  { destruct Htidy as [_ Hfrs]. specialize (Hfrs _ _ Hfr). by rewrite Hat in Hfrs. }
  unfold execute_try, execute_begin. munfold.
  destruct (scriptDir env (fr_hash fr) w) as [r0 w0] eqn:Hd.
  apply scriptDir_inv in Hd as (d & -> & Hr).
  assert (Hpc : parameter_callback pid (with_dirs d w) = Some bound_removeFromActive).
  { unfold parameter_callback. simpl. by rewrite Hfr. }
  assert (Habort : forall s, s = NotRunning \/ s = Caught ->
    forall w1, script_cache w1 = script_cache w -> frames w1 = frames w ->
      ledger w1 = ledger w ++ [ObsCallback ec_operation_aborted (fr_hash fr)] ->
      job_step w (update_frame pid (suspend_at s) w1)).
  { intros s Hs w1 Hc Hf Hl.
    eapply (js_abort _ _ pid fr (suspend_at s fr)); try done.
    rewrite <- Hf in Hfr. rewrite (update_frame_frames _ _ _ _ Hfr). by rewrite Hf. }
  destruct r0 as [dir|e]; simpl.
  - destruct spawn; simpl.
    + rewrite Hpc.
      destruct (call_spec ec_operation_aborted (fr_hash fr) (with_dirs d w))
        as (w1 & -> & Hsub & Hc & Hf & _ & _ & _ & Hl). simpl.
      split; [apply Habort; auto|done].
    + rewrite Hpc.
      destruct (call_spec ec_operation_aborted (fr_hash fr) (with_dirs d w))
        as (w1 & -> & Hsub & Hc & Hf & _ & _ & _ & Hl). simpl.
      split; [apply Habort; auto|done].
    + unfold emplace. munfold. simpl. rewrite Hpc.
      set (w1 := match script_cache w !! fr_hash fr with
                 | Some _ => update_frame pid moved_from (with_dirs d w)
                 | None => _ end).
      assert (Hw1 : scriptIfaces w1 = scriptIfaces w
                    /\ frames w1 = <[pid := moved_from fr]> (frames w)
                    /\ (script_cache w !! fr_hash fr = None ->
                        script_cache w1 = <[fr_hash fr := mkScriptEntry pid (fr_callback fr)]> (script_cache w)
                        /\ ledger w1 = ledger w ++ [ObsEmplace (fr_hash fr) pid])
                    /\ (is_Some (script_cache w !! fr_hash fr) ->
                        script_cache w1 = script_cache w /\ ledger w1 = ledger w)).
      { subst w1. destruct (script_cache w !! fr_hash fr) eqn:Hlook; simpl;
          (split; [done|]); (split; [by apply alter_as_insert|]); split; intros H;
          try (by destruct H); try done.
        split; [by rewrite Hcb|]. by ledger_simpl. }
      clearbody w1. destruct Hw1 as (Hi1 & Hf1 & Hnone & Hsome).
      assert (Hfinal : forall s w2,
                s = Streaming \/ (exists e, s = Escaped e) ->
                script_cache w2 = script_cache w1 ->
                ledger w2 = ledger w1 ->
                forall fr2, frames w2 = <[pid := fr2]> (frames w) ->
                fr_hash fr2 = fr_hash fr -> fr_callback fr2 = None ->
                job_step w (update_frame pid (suspend_at s) w2)).
      { intros s w2 Hs Hc2 Hl2 fr2 Hf2 Hh2 Hcb2.
        assert (Hlk : frames w2 !! pid = Some fr2).
        { rewrite Hf2. apply list_lookup_insert_eq. by eapply lookup_lt_Some. }
        eapply (js_emplace _ _ pid fr (suspend_at s fr2)); try done.
        - intros Hn. ledger_simpl. rewrite Hc2, Hl2. by apply Hnone.
        - intros Hn. ledger_simpl. rewrite Hc2, Hl2. by apply Hsome.
        - rewrite (update_frame_frames _ _ _ _ Hlk), Hf2. by rewrite list_insert_insert_eq. }
      destruct (scriptOutputFileName env (fr_hash fr) w1) as [r2 w2] eqn:Hout.
      apply scriptOutputFileName_inv in Hout as (d2 & -> & Hr2).
      destruct r2 as [path|e2]; simpl.
      * destruct (ofstream_open env path (with_dirs d2 w1)) as [r3 w3] eqn:Hopen.
        apply ofstream_open_inv in Hopen as (f3 & -> & Hopen).
        assert (exists os, r3 = Ret os) as [os ->]
          by (destruct Hopen as [(_&->&_)|(_&->&_)]; eauto).
        split; [|simpl; by rewrite Hi1].
        eapply (Hfinal Streaming) with (fr2 := set_ofs os (moved_from fr)); try done; [by left|].
        simpl. rewrite Hf1.
        rewrite (alter_as_insert _ _ _ (moved_from fr)).
        -- by rewrite list_insert_insert_eq.
        -- apply list_lookup_insert_eq. by eapply lookup_lt_Some.
      * unfold parameter_callback. simpl. rewrite Hf1.
        rewrite list_lookup_insert_eq by (by eapply lookup_lt_Some). simpl.
        rewrite call_None.
        split; [|simpl; by rewrite Hi1].
        eapply (Hfinal (Escaped bad_function_call)) with (fr2 := moved_from fr);
          try done; eauto.
  - rewrite Hpc.
    destruct (call_spec ec_operation_aborted (fr_hash fr) (with_dirs d w))
      as (w1 & -> & Hsub & Hc & Hf & _ & _ & _ & Hl). simpl.
    split; [apply Habort; auto|done].
Qed.

(** A suspended coroutine moves to another suspension point, or an
    exception leaves it, without touching the job table. *)
Lemma move_step w w2 pid fr fr2 s :
  frames w !! pid = Some fr ->
  awaiting (fr_at fr) = true ->
  frames w2 = <[pid := fr2]> (frames w) ->
  fr_hash fr2 = fr_hash fr ->
  fr_callback fr2 = fr_callback fr ->
  script_cache w2 = script_cache w ->
  ledger w2 = ledger w ->
  awaiting s = true \/ (exists e, s = Escaped e) ->
  job_step w (update_frame pid (suspend_at s) w2).
Proof.
  intros Hfr Haw Hf2 Hh Hcb Hc Hl Hs.
  assert (Hlk : frames w2 !! pid = Some fr2).
  { rewrite Hf2. apply list_lookup_insert_eq. by eapply lookup_lt_Some. }
  eapply (js_move _ _ pid fr (suspend_at s fr2)); try done.
  rewrite (update_frame_frames _ _ _ _ Hlk), Hf2. by rewrite list_insert_insert_eq.
Qed.

(** A suspended coroutine runs through the tail of [execute]. *)
Lemma finish_step w w2 pid fr fr2 r w3 :
  tidy w ->
  frames w !! pid = Some fr ->
  awaiting (fr_at fr) = true ->
  frames w2 = <[pid := fr2]> (frames w) ->
  fr_hash fr2 = fr_hash fr ->
  fr_callback fr2 = fr_callback fr ->
  script_cache w2 = script_cache w ->
  ledger w2 = ledger w ->
  scriptIfaces w2 `sublist_of` scriptIfaces w ->
  execute_end (fr_hash fr) w2 = (r, w3) ->
  r = Ret Finished
  /\ job_step w (update_frame pid (suspend_at Finished) w3)
  /\ scriptIfaces w3 `sublist_of` scriptIfaces w.
Proof.
  intros [Hcache _] Hfr Haw Hf2 Hh Hcb Hc Hl Hsub Hend.
  destruct (execute_end_spec (fr_hash fr) w2)
    as (w3' & Heq & Hsub3 & Hf3 & _ & _ & _ & Hnone & Hsome).
  { intros id entry. rewrite Hc. apply Hcache. }
  rewrite Heq in Hend. injection Hend as <- <-.
  split; [done|]. split; [|by etransitivity].
  assert (Hlk : frames w3' !! pid = Some fr2).
  { rewrite Hf3, Hf2. apply list_lookup_insert_eq. by eapply lookup_lt_Some. }
  eapply (js_finish _ _ pid fr (suspend_at Finished fr2)); try done.
  - intros Hn. ledger_simpl. rewrite <- Hc, <- Hl. apply Hnone. by rewrite Hc.
  - intros Hn. ledger_simpl. rewrite <- Hc, <- Hl. apply Hsome. by rewrite Hc.
  - rewrite (update_frame_frames _ _ _ _ Hlk), Hf3, Hf2. by rewrite list_insert_insert_eq.
Qed.

Lemma list_insert_same {A : Type} (l : list A) (i : nat) (x : A) :
  l !! i = Some x -> l = <[i := x]> l.
Proof. intros H. symmetry. by apply list_insert_id. Qed.

(** The segment after the pipes are drained. *)
Lemma execute_streamed_job_step pid fr out err exit_code env w :
  tidy w ->
  frames w !! pid = Some fr ->
  fr_at fr = Streaming ->
  job_step w (execute_try pid (fr_hash fr)
                (execute_streamed pid (fr_hash fr) (fr_dumpNeeded fr)
                                  out err exit_code env) w).2
  /\ scriptIfaces (execute_try pid (fr_hash fr)
                     (execute_streamed pid (fr_hash fr) (fr_dumpNeeded fr)
                                       out err exit_code env) w).2
     `sublist_of` scriptIfaces w.
Proof.
  intros Htidy Hfr Hat.
  assert (Haw : awaiting (fr_at fr) = true) by (by rewrite Hat).
  assert (Hcb : fr_callback fr = None).
  { destruct Htidy as [_ Hfrs]. specialize (Hfrs _ _ Hfr). by rewrite Hat in Hfrs. }
  unfold execute_try, execute_streamed. munfold. simpl.
  match goal with
  | |- context [writeResult out err ?o w] => generalize o; intros ofs
  end.
  destruct (writeResult out err ofs w) as [r1 w1] eqn:Hw.
  apply writeResult_inv in Hw as (ec & f1 & -> & ->).
  destruct (report_exit_code ofs exit_code (with_files f1 w)) as [r2 w2] eqn:H2.
  apply report_exit_code_inv in H2 as (f2 & -> & ->). cbv beta iota.
  set (w3 := update_frame pid (set_ofs None) (with_files f2 (with_files f1 w))).
  assert (Hf3 : frames w3 = <[pid := set_ofs None fr]> (frames w)).
  { subst w3.
    exact (update_frame_frames pid (set_ofs None) (with_files f2 (with_files f1 w)) fr Hfr). }
  assert (Hpc : forall w', frames w' = frames w3 -> parameter_callback pid w' = None).
  { intros w' Hw'. unfold parameter_callback. rewrite Hw', Hf3.
    rewrite list_lookup_insert_eq by (by eapply lookup_lt_Some). simpl. done. }
  assert (Hesc : forall w', frames w' = frames w3 -> script_cache w' = script_cache w ->
             ledger w' = ledger w ->
             job_step w (update_frame pid (suspend_at (Escaped bad_function_call)) w')).
  { intros w' Hf' Hc' Hl'.
    eapply (move_step w w' pid fr (set_ofs None fr)); try done;
      first [by rewrite Hf', Hf3 | eauto]. }
  assert (Hi3 : scriptIfaces w3 = scriptIfaces w /\ script_cache w3 = script_cache w
                /\ ledger w3 = ledger w) by (by subst w3).
  clearbody w3. destruct Hi3 as (Hi3 & Hc3 & Hl3).
  destruct (fr_dumpNeeded fr); cbv beta iota.
  - split; [|simpl; by rewrite Hi3].
    eapply (move_step w _ pid fr (set_ofs None fr)); try done;
      first [by ledger_simpl | by left].
  - destruct (scriptDir env (fr_hash fr) w3) as [r4 w4] eqn:Hd.
    apply scriptDir_inv in Hd as (d4 & -> & Hr4).
    destruct r4 as [dir|e]; simpl.
    + destruct (remove_all env dir (with_dirs d4 w3)) as [r5 w5] eqn:Hrm.
      apply remove_all_inv in Hrm as (d5 & f5 & -> & Hr5).
      destruct r5 as [[]|e]; simpl.
      * destruct (execute_end (fr_hash fr) (with_files f5 (with_dirs d5 (with_dirs d4 w3))))
          as [r6 w6] eqn:Hend.
        eapply finish_step in Hend as (-> & Hjs & Hsub); try done.
        -- simpl. by rewrite Hi3.
      * rewrite Hpc by done. rewrite call_None. simpl.
        split; [by apply Hesc|by rewrite Hi3].
    + rewrite Hpc by done. rewrite call_None. simpl.
      split; [by apply Hesc|by rewrite Hi3].
Qed.

(** The segments of [startDump]. *)
Lemma execute_dump_reply_job_step pid fr reply w :
  tidy w ->
  frames w !! pid = Some fr ->
  fr_at fr = DumpCall ->
  job_step w (execute_try pid (fr_hash fr) (execute_dump_reply (fr_hash fr) reply) w).2
  /\ scriptIfaces (execute_try pid (fr_hash fr)
                     (execute_dump_reply (fr_hash fr) reply) w).2
     `sublist_of` scriptIfaces w.
Proof.
  intros Htidy Hfr Hat.
  assert (Haw : awaiting (fr_at fr) = true) by (by rewrite Hat).
  unfold execute_try, execute_dump_reply. munfold.
  destruct reply as [dumpId|]; cbv beta iota.
  - destruct (monitorDumpProgress_inv (fr_hash fr) dumpId w) as (m & ->).
    destruct (execute_end (fr_hash fr) (with_matches m w)) as [r w3] eqn:Hend.
    eapply (finish_step w _ pid fr fr) in Hend as (-> & Hjs & Hsub); try done.
    by apply list_insert_same.
  - split; [|done].
    eapply (move_step w w pid fr fr); try done; [by apply list_insert_same|by left].
Qed.

Lemma execute_backoff_job_step pid fr w :
  frames w !! pid = Some fr ->
  fr_at fr = DumpBackoff ->
  job_step w (execute_try pid (fr_hash fr) (execute_backoff (fr_hash fr)) w).2
  /\ scriptIfaces (execute_try pid (fr_hash fr) (execute_backoff (fr_hash fr)) w).2
     `sublist_of` scriptIfaces w.
Proof.
  intros Hfr Hat.
  assert (Haw : awaiting (fr_at fr) = true) by (by rewrite Hat).
  unfold execute_try, execute_backoff. munfold. cbv beta iota.
  split; [|done].
  eapply (move_step w _ pid fr fr); try done;
    [by apply list_insert_same|by ledger_simpl|by left].
Qed.

(** Every resumption of a coroutine is one step of the job table. *)
Lemma execute_job_step pid r w :
  tidy w ->
  job_step w (exec (execute pid r) w)
  /\ scriptIfaces (exec (execute pid r) w) `sublist_of` scriptIfaces w.
Proof.
  intros Htidy. unfold exec, execute.
  destruct (frames w !! pid) as [fr|] eqn:Hfr; [|split; [by apply js_quiet|done]].
  destruct (fr_at fr) eqn:Hat, r; try (split; [by apply js_quiet|done]).
  - by apply execute_begin_job_step.
  - by apply execute_streamed_job_step.
  - by apply execute_dump_reply_job_step.
  - by apply execute_backoff_job_step.
Qed.

(** [cancel_script] is one step of the job table: it erases the entry
    after the callback, or stops between the two. *)
Lemma cancel_script_job_step id owner w :
  tidy w ->
  job_step w (cancel_script id owner w).2
  /\ scriptIfaces (cancel_script id owner w).2 `sublist_of` scriptIfaces w.
Proof.
  intros [Hcache _]. unfold cancel_script. munfold. simpl.
  destruct (script_cache w !! id) as [entry|] eqn:Hlook.
  - rewrite (Hcache _ _ Hlook).
    destruct (call_spec ec_default id (emit (ObsTerminate (child entry)) w))
      as (w1 & -> & Hsub & Hc & Hf & _ & _ & _ & Hl).
    assert (Hstop : job_step w w1).
    { eapply (js_callback _ _ id entry); try done.
      rewrite Hl. by ledger_simpl. }
    assert (Hgo : job_step w (remove id w1).2 /\ (remove id w1).1 = Ret tt).
    { pose proof (remove_spec id w1) as Hrm. rewrite Hc in Hrm. simpl in Hrm.
      rewrite Hlook in Hrm. rewrite Hrm. simpl. split; [|done].
      eapply (js_cancel _ _ id entry); try done.
      ledger_simpl. rewrite Hl. ledger_simpl. by rewrite <- app_assoc. }
    assert (Hsub' : scriptIfaces (remove id w1).2 `sublist_of` scriptIfaces w).
    { pose proof (remove_spec id w1) as Hrm. rewrite Hc in Hrm. simpl in Hrm.
      rewrite Hlook in Hrm. by rewrite Hrm. }
    destruct Hgo as [Hgo Hret].
    destruct owner as [k|].
    + case_decide.
      * simpl. by split.
      * destruct (remove id w1) as [r w2]. simpl in *. subst r. simpl. by split.
    + destruct (remove id w1) as [r w2]. simpl in *. subst r. simpl. by split.
  - simpl. split; [by apply js_quiet|done].
Qed.

(** ** Tidy worlds stay tidy *)

(** Frames after one coroutine was replaced by a frame of the same job. *)
Section Replaced.

Variables (w w' : World) (pid : nat) (fr fr' : Frame).

Hypothesis Hfr : frames w !! pid = Some fr.

Hypothesis Hframes : frames w' = <[pid := fr']> (frames w).

Lemma replaced_lookup p fr0 :
  frames w' !! p = Some fr0 ->
  (p = pid /\ fr0 = fr') \/ (p <> pid /\ frames w !! p = Some fr0).
Proof.
  rewrite Hframes. destruct (decide (p = pid)) as [->|Hne].
  - rewrite list_lookup_insert_eq by (by eapply lookup_lt_Some). intros [= <-]. by left.
  - rewrite list_lookup_insert_ne by done. by right.
Qed.

End Replaced.

Lemma tidy_awaiting w pid fr :
  tidy w -> frames w !! pid = Some fr -> awaiting (fr_at fr) = true ->
  fr_callback fr = None.
Proof.
  intros [_ Hfrs] Hfr Haw. specialize (Hfrs _ _ Hfr).
  by destruct (fr_at fr).
Qed.

Lemma tidy_replaced w w' pid fr fr' :
  tidy w ->
  frames w !! pid = Some fr ->
  frames w' = <[pid := fr']> (frames w) ->
  (forall id entry, script_cache w' !! id = Some entry ->
                    callback entry = Some bound_removeFromActive) ->
  match fr_at fr' with
  | Spawned => fr_callback fr' = Some bound_removeFromActive
  | Streaming | DumpCall | DumpBackoff => fr_callback fr' = None
  | _ => True
  end ->
  tidy w'.
Proof.
  intros [_ Hfrs] Hfr Hframes Hcache Hnew. split; [done|].
  intros p fr0 Hp.
  destruct (replaced_lookup w w' pid fr fr' Hfr Hframes p fr0 Hp) as [[-> ->]|[_ Hp0]].
  - done.
  - by apply (Hfrs p).
Qed.

Lemma job_step_tidy w w' : tidy w -> job_step w w' -> tidy w'.
Proof.
  intros Htidy Hstep. pose proof Htidy as [Hcache Hfrs].
  destruct Hstep as
    [Hc Hf Hl | id entry Hlook Hc Hf Hl | id entry Hlook Hc Hf Hl
     | fr0 Hat Hcb Hc Hf Hl
     | pid fr fr' Hfr Hat Hh Hat' Hc Hf Hl
     | pid fr fr' Hfr Hat Hh Hcb' Hat' Hnone Hsome Hf
     | pid fr fr' Hfr Haw Hh Hcb' Hat' Hc Hf Hl
     | pid fr fr' Hfr Haw Hh Hcb' Hat' Hnone Hsome Hf].
  - split; [intros x e; rewrite Hc; apply Hcache|intros p f; rewrite Hf; apply Hfrs].
  - split.
    + intros x e. rewrite Hc. intros He%lookup_delete_Some. by eapply Hcache, He.
    + intros p f. rewrite Hf. apply Hfrs.
  - split; [intros x e; rewrite Hc; apply Hcache|intros p f; rewrite Hf; apply Hfrs].
  - split.
    + intros x e. rewrite Hc. eauto.
    + intros p f. rewrite Hf. intros [Hp|[_ Hp]]%lookup_app_Some.
      * by apply (Hfrs p).
      * destruct (p - length (frames w))%nat; [|done].
        injection Hp as <-. by rewrite Hat.
  - eapply tidy_replaced; try done.
    + intros x e. rewrite Hc. eauto.
    + by destruct Hat' as [-> | ->].
  - eapply tidy_replaced; try done.
    + intros x e. destruct (script_cache w !! fr_hash fr) as [e0|] eqn:Hlook.
      * destruct Hsome as [-> _]; eauto.
      * destruct Hnone as [-> _]; [done|].
        intros [[<- <-]|[_ He]]%lookup_insert_Some; [|eauto].
        simpl. specialize (Hfrs _ _ Hfr). by rewrite Hat in Hfrs.
    + by destruct Hat' as [-> | [e ->]].
  - eapply tidy_replaced; try done.
    + intros x e. rewrite Hc. eauto.
    + rewrite Hcb', (tidy_awaiting _ _ _ Htidy Hfr Haw).
      destruct Hat' as [Ha | [e ->]]; [|done]. by destruct (fr_at fr').
  - eapply tidy_replaced; try done.
    + intros x e. destruct (script_cache w !! fr_hash fr) as [e0|] eqn:Hlook.
      * destruct Hsome as [-> _]; [eauto|].
        intros He%lookup_delete_Some. by eapply Hcache, He.
      * destruct Hnone as [-> _]; eauto.
    + by rewrite Hat'.
Qed.

(** ** Handlers move tidy worlds to tidy worlds *)

#[global] Instance progress_preorder : PreOrder progress.
Proof.
  split.
  - intros w Hs. by split.
  - intros w1 w2 w3 H12 H23 Hs. destruct (H12 Hs) as [Hs2 Hsub2].
    destruct (H23 Hs2) as [Hs3 Hsub3]. split; [done|by etransitivity].
Qed.

Lemma still_progress w w' : still w w' -> progress w w'.
Proof.
  intros (Hsub & Hc & Hf & Hl) Hs. split; [|done].
  eapply job_step_tidy; [exact Hs|]. by apply js_quiet.
Qed.

Lemma job_step_progress w w' :
  (tidy w -> job_step w w' /\ scriptIfaces w' `sublist_of` scriptIfaces w) ->
  progress w w'.
Proof.
  intros Hstep Hs. destruct (Hstep Hs) as [Hj Hsub]. split; [|done].
  by eapply job_step_tidy.
Qed.

Create HintDb progress.

Lemma progress_emit_noise o w : job_event o = false -> progress w (emit o w).
Proof.
  intros Ho. apply still_progress. repeat split; try done.
  ledger_simpl. by rewrite Ho, app_nil_r.
Qed.

Lemma progress_dtor iface w : progress w (ScriptIface_dtor iface w).
Proof. by apply progress_emit_noise. Qed.

Lemma progress_with_matches m w : progress w (with_matches m w).
Proof. apply still_progress. by repeat split. Qed.

Lemma progress_with_dirs d w : progress w (with_dirs d w).
Proof. apply still_progress. by repeat split. Qed.

Lemma progress_with_files f w : progress w (with_files f w).
Proof. apply still_progress. by repeat split. Qed.

Lemma progress_scriptDir env id : stable progress (scriptDir env id).
Proof.
  intros w. destruct (scriptDir env id w) as [r w'] eqn:H.
  apply scriptDir_inv in H as (d & -> & _). apply progress_with_dirs.
Qed.

Lemma progress_remove_all env dir : stable progress (remove_all env dir).
Proof.
  intros w. destruct (remove_all env dir w) as [r w'] eqn:H.
  apply remove_all_inv in H as (d & f & -> & _). simpl.
  etransitivity; [apply (progress_with_dirs d)|apply progress_with_files].
Qed.

Lemma progress_cancel_script id owner : stable progress (cancel_script id owner).
Proof.
  intros w. apply job_step_progress.
  intros Ht. by apply cancel_script_job_step.
Qed.

#[local] Hint Resolve progress_emit_noise progress_dtor progress_with_matches
  progress_scriptDir progress_remove_all progress_cancel_script : progress.

Ltac progress_tac := repeat stable_step; eauto with progress.

Lemma progress_ScriptIface_cancel iface owner :
  stable progress (ScriptIface_cancel iface owner).
Proof. unfold ScriptIface_cancel. progress_tac. Qed.

#[local] Hint Resolve progress_ScriptIface_cancel : progress.

Lemma progress_cancel id : stable progress (cancel id).
Proof. unfold cancel. progress_tac. Qed.

Lemma progress_script_cancel k : stable progress (script_cancel k).
Proof.
  intros w. unfold script_cancel. destruct (scriptIfaces w !! k); [|reflexivity].
  apply progress_ScriptIface_cancel.
Qed.

Lemma progress_propcallback env id dumpId changed :
  stable progress (propcallback env id dumpId changed).
Proof. induction changed as [|[prop v] rest IH]; simpl; progress_tac. Qed.

Lemma progress_deliver dumpId changed env : stable progress (deliver dumpId changed env).
Proof.
  intros w. unfold deliver.
  destruct (dumpProgressMatches w !! dumpId) as [[id d]|]; [|reflexivity].
  apply progress_propcallback.
Qed.

Lemma progress_execute pid r : stable progress (execute pid r).
Proof.
  intros w. apply job_step_progress. apply execute_job_step.
Qed.

Lemma progress_ensure_loop n : stable progress (ensure_loop n).
Proof.
  induction n as [|n IH]; intros w; [reflexivity|].
  rewrite ensure_loop_unfold.
  destruct (scriptIfaces w) as [|iface rest] eqn:Hl; [reflexivity|].
  destruct (maxActiveScripts <=? length (iface :: rest))%nat; [|reflexivity].
  transitivity (with_scriptIfaces rest w).
  - apply still_progress. repeat split; try done.
    simpl. rewrite Hl. by apply sublist_cons.
  - generalize (with_scriptIfaces rest w). unfold ensure_body.
    change (stable progress
      (unwinding (ScriptIface_cancel iface None) (ScriptIface_dtor iface) ;;
       modify (ScriptIface_dtor iface) ;; ensure_loop n)). progress_tac.
Qed.

Lemma progress_ensureMaxActiveScripts : stable progress ensureMaxActiveScripts.
Proof. intros w. apply progress_ensure_loop. Qed.

Lemma storage_only_ledger w w' : storage_only w w' -> ledger w' = ledger w.
Proof. intros (_ & _ & _ & _ & Ht). unfold ledger. by rewrite Ht. Qed.

Lemma addToActive_ledger EVP script timeout dumpNeeded env w :
  ledger (addToActive EVP script timeout dumpNeeded env w).2 = ledger w.
Proof.
  unfold addToActive.
  destruct (makeScriptId EVP (now_time_t env) script) as [id|]; simpl; [|done].
  munfold. unfold ScriptIface_ctor. munfold.
  destruct (add_interface_ok env); simpl; [|done].
  unfold runScript. munfold. simpl.
  set (w0 := emit (ObsPublish id) w).
  assert (Hl0 : ledger w0 = ledger w) by (subst w0; by ledger_simpl).
  pose proof (run_script_unspawned id script dumpNeeded (Some bound_removeFromActive)
                (start_fs env) w0) as Hun.
  destruct (run_script id script dumpNeeded (Some bound_removeFromActive) (start_fs env) w0)
    as [[b|e] w1] eqn:Hrun; simpl.
  - destruct b; simpl.
    + assert (Htrue : (run_script id script dumpNeeded (Some bound_removeFromActive)
                                  (start_fs env) w0).1 = Ret true) by (by rewrite Hrun).
      destruct (run_script_world _ _ _ _ _ _ Htrue) as (d & f & Hw1 & _).
      rewrite Hrun in Hw1. simpl in Hw1. subst w1.
      unfold startTimeout. munfold. simpl.
      case_decide as Hto; simpl; by ledger_simpl.
    + ledger_simpl. rewrite <- Hl0. apply storage_only_ledger, Hun. done.
  - ledger_simpl. rewrite <- Hl0. apply storage_only_ledger, Hun. done.
Qed.

(** ** The invariant of the event loop *)

Lemma Forall_sublist_of {A : Type} (P : A -> Prop) (l1 l2 : list A) :
  l1 `sublist_of` l2 -> Forall P l2 -> Forall P l1.
Proof.
  induction 1 as [|x l1 l2 _ IH|x l1 l2 _ IH]; intros HP; [done| |].
  - apply Forall_cons in HP as [? ?]. constructor; auto.
  - apply Forall_cons in HP as [? ?]. auto.
Qed.

Lemma invariant_progress w w' : progress w w' -> invariant w -> invariant w'.
Proof.
  intros Hp (Hb & Ht & Hs). destruct (Hp Hs) as [Hs' Hsub].
  split; [|split; [|done]].
  - unfold bounded in *. apply sublist_length in Hsub. lia.
  - unfold timers_ok in *. by eapply Forall_sublist_of.
Qed.

Lemma invariant_initial : invariant initial.
Proof.
  split; [unfold bounded; simpl; lia|]. split; [constructor|].
  split; [intros id e; simpl; by rewrite lookup_empty|intros pid fr [=]].
Qed.

Lemma invariant_addToActive EVP script timeout dumpNeeded env w :
  (length (scriptIfaces w) < maxActiveScripts)%nat ->
  invariant w ->
  invariant (addToActive EVP script timeout dumpNeeded env w).2.
Proof.
  intros Hlt (Hb & Ht & Hs).
  pose proof (addToActive_ledger EVP script timeout dumpNeeded env w) as Hl.
  destruct (addToActive_inv EVP script timeout dumpNeeded env w)
    as [Hc [(Hi & Hf & _)|(iface & fr & Hi & Hf & Hto & _ & _ & Hat & _ & Hcb & _)]].
  - split; [|split].
    + unfold bounded. by rewrite Hi.
    + unfold timers_ok. by rewrite Hi.
    + eapply job_step_tidy; [exact Hs|]. by apply js_quiet.
  - split; [|split].
    + unfold bounded. rewrite Hi, length_app. simpl. lia.
    + unfold timers_ok. rewrite Hi. apply Forall_app. split; [done|]. by constructor.
    + eapply job_step_tidy; [exact Hs|]. by eapply js_spawn.
Qed.

Lemma invariant_start EVP script timeout dumpNeeded env w :
  invariant w -> invariant (exec (start EVP script timeout dumpNeeded env) w).
Proof.
  intros Hinv. unfold exec, start. munfold.
  pose proof (invariant_progress _ _ (progress_ensureMaxActiveScripts w) Hinv) as Hinv1.
  pose proof (ensureMaxActiveScripts_exit w) as Hexit.
  destruct (ensureMaxActiveScripts w) as [[[]|e] w1]; simpl in *; [|done].
  apply invariant_addToActive; auto.
Qed.

Lemma invariant_timer_expired k w :
  invariant w -> invariant (exec (timer_expired k) w).
Proof.
  intros Hinv. unfold exec, timer_expired.
  destruct (scriptIfaces w !! k) as [iface|] eqn:Hk; [|done].
  destruct (timer iface) as [d|]; [|done].
  set (fired := mkScriptIface (data iface) None).
  set (w1 := with_scriptIfaces (<[k := fired]> (scriptIfaces w)) w).
  assert (Hinv1 : invariant w1).
  { destruct Hinv as (Hb & Ht & Hs). split; [|split].
    - unfold bounded. simpl. by rewrite length_insert.
    - unfold timers_ok. simpl. apply Forall_insert; [done|]. by left.
    - eapply job_step_tidy; [exact Hs|]. by apply js_quiet. }
  eapply invariant_progress; [|exact Hinv1].
  assert (Hst : stable progress (ScriptIface_cancel fired (Some k) ≫= fun _ => mret tt))
    by progress_tac.
  apply (Hst w1).
Qed.

Lemma invariant_step EVP e w : invariant w -> invariant (step EVP e w).
Proof.
  intros Hinv. destruct e as [script timeout dumpNeeded env|id|k|k|pid r|dumpId changed env];
    simpl.
  - by apply invariant_start.
  - eapply invariant_progress; [apply progress_cancel|done].
  - eapply invariant_progress; [apply progress_script_cancel|done].
  - by apply invariant_timer_expired.
  - eapply invariant_progress; [apply progress_execute|done].
  - eapply invariant_progress; [apply progress_deliver|done].
Qed.

Lemma run_snoc EVP events e w :
  run EVP (events ++ [e]) w = step EVP e (run EVP events w).
Proof. unfold run. by rewrite fold_left_app. Qed.

Lemma invariant_run EVP events : invariant (run EVP events initial).
Proof.
  induction events as [|e events IH] using rev_ind; [apply invariant_initial|].
  rewrite run_snoc. by apply invariant_step.
Qed.

(** ** [cancel_script] in full *)

Lemma removeFromActive_find ec id w :
  removeFromActive ec id w
  = match list_find (fun iface => data_id (data iface) = id) (scriptIfaces w) with
    | Some (k, _) =>
        (Ret true, emit (ObsUnpublish id) (with_scriptIfaces (delete k (scriptIfaces w)) w))
    | None => (Ret false, w)
    end.
Proof.
  with_strategy transparent [removeFromActive] unfold removeFromActive.
  destruct (list_find _ (scriptIfaces w)) as [[k iface]|] eqn:Hfind; [|done].
  apply list_find_Some in Hfind as (_ & <- & _). done.
Qed.

Lemma call_bound ec id w :
  call (Some bound_removeFromActive) ec id w
  = (Ret tt, (removeFromActive ec id (emit (ObsCallback ec id) w)).2).
Proof.
  with_strategy transparent [call] unfold call. munfold.
  rewrite removeFromActive_find. simpl.
  by destruct (list_find _ (scriptIfaces w)) as [[k iface]|].
Qed.

Lemma emits_nil w : emits [] w = w.
Proof. destruct w. unfold emits. simpl. by rewrite app_nil_r. Qed.

Lemma emits_cons o evs w : emits (o :: evs) w = emits evs (emit o w).
Proof. unfold emits, emit. simpl. by rewrite <- app_assoc. Qed.

(** A job that is not in the job table: nothing is done. *)
Lemma cancel_script_absent id owner w :
  script_cache w !! id = None -> cancel_script id owner w = (Ret false, w).
Proof. intros Hlook. unfold cancel_script. munfold. by rewrite Hlook. Qed.

(** A job that is in the job table.  The callback unregisters the first
    [ScriptIface] with the id; when that is the object whose [data.id] the
    parameter refers to, the entry is not erased: the string is gone. *)
Lemma cancel_script_spec id owner entry w :
  tidy w ->
  script_cache w !! id = Some entry ->
  cancel_script id owner w
  = match list_find (fun iface => data_id (data iface) = id) (scriptIfaces w) with
    | None =>
        (Ret true,
         emits [ObsTerminate (child entry); ObsCallback ec_default id; ObsErase id]
               (with_script_cache (delete id (script_cache w)) w))
    | Some (j, _) =>
        if decide (owner = Some j) then
          (Throw dangling_reference,
           emits [ObsTerminate (child entry); ObsCallback ec_default id; ObsUnpublish id]
                 (with_scriptIfaces (delete j (scriptIfaces w)) w))
        else
          (Ret true,
           emits [ObsTerminate (child entry); ObsCallback ec_default id;
                  ObsUnpublish id; ObsErase id]
                 (with_script_cache (delete id (script_cache w))
                    (with_scriptIfaces (delete j (scriptIfaces w)) w)))
    end.
Proof.
  intros [Hcache _] Hlook. unfold cancel_script, destroyed_by. munfold.
  rewrite Hlook. simpl. rewrite (Hcache _ _ Hlook), call_bound, removeFromActive_find.
  simpl.
  assert (Hrm : forall w1, script_cache w1 = script_cache w ->
            remove id w1
            = (Ret tt, emit (ObsErase id) (with_script_cache (delete id (script_cache w)) w1))).
  { intros w1 Hc. pose proof (remove_spec id w1) as Hrm. by rewrite Hc, Hlook in Hrm. }
  destruct (list_find _ (scriptIfaces w)) as [[j i]|]; destruct owner as [k|];
    try change (fst <$> Some (j, i)) with (Some j);
    try change (fst <$> @None (nat * ScriptIface)) with (@None nat);
    repeat case_decide; try congruence;
    simpl; rewrite ?Hrm by done; simpl; by rewrite !emits_cons, emits_nil.
Qed.

(** [ScriptIface::cancel] in full. *)
Lemma ScriptIface_cancel_absent iface owner w :
  script_cache w !! data_id (data iface) = None ->
  ScriptIface_cancel iface owner w
  = (Ret false, emit (ObsCancel (data_id (data iface)) false) w).
Proof.
  intros Hlook. unfold ScriptIface_cancel. munfold.
  by rewrite cancel_script_absent.
Qed.

(** On the only object of the registry: the callback destroys it. *)
Lemma ScriptIface_cancel_registered iface entry w :
  tidy w ->
  scriptIfaces w = [iface] ->
  script_cache w !! data_id (data iface) = Some entry ->
  ScriptIface_cancel iface (Some 0%nat) w
  = (Throw dangling_reference,
     emits [ObsTerminate (child entry); ObsCallback ec_default (data_id (data iface));
            ObsUnpublish (data_id (data iface))]
           (with_scriptIfaces [] w)).
Proof.
  intros Htidy Hl Hlook. unfold ScriptIface_cancel. munfold.
  rewrite (cancel_script_spec _ _ entry) by done. rewrite Hl. simpl.
  rewrite decide_True by done. simpl. done.
Qed.

(** On an object that was moved out of a registry which is now empty. *)
Lemma ScriptIface_cancel_evicted iface entry w :
  tidy w ->
  scriptIfaces w = [] ->
  script_cache w !! data_id (data iface) = Some entry ->
  ScriptIface_cancel iface None w
  = (Ret true,
     emits [ObsTerminate (child entry); ObsCallback ec_default (data_id (data iface));
            ObsErase (data_id (data iface)); ObsCancel (data_id (data iface)) true]
           (with_script_cache (delete (data_id (data iface)) (script_cache w)) w)).
Proof.
  intros Htidy Hl Hlook. unfold ScriptIface_cancel. munfold.
  rewrite (cancel_script_spec _ _ entry) by done. rewrite Hl. simpl.
  unfold emits, emit, with_script_cache. simpl. by rewrite <- app_assoc.
Qed.

Lemma step_handler EVP e w : step EVP e w = (handler EVP e w).2.
Proof.
  destruct e; simpl; unfold exec; munfold; try done.
  - by destruct (start _ _ _ _ _ w) as [[b|x] w'].
  - by destruct (cancel _ w) as [[b|x] w'].
  - by destruct (script_cancel _ w) as [[b|x] w'].
Qed.

Lemma bounded_single w k iface :
  bounded w -> scriptIfaces w !! k = Some iface ->
  scriptIfaces w = [iface] /\ k = 0%nat.
Proof.
  unfold bounded, maxActiveScripts. intros Hb Hk.
  destruct (scriptIfaces w) as [|i0 [|i1 l]]; simpl in *; [done| |lia].
  destruct k; [|done]. by injection Hk as ->.
Qed.

(** The methods [cancel] and the timer, on a job that is in the job table:
    the handler stops at [remove(id)], after the callback has destroyed
    the object that holds the id. *)
Lemma cancel_event_stops EVP e iface entry w :
  tidy w -> bounded w ->
  cancels e w = Some iface ->
  script_cache w !! data_id (data iface) = Some entry ->
  handler EVP e w
  = (Throw dangling_reference,
     emits [ObsTerminate (child entry); ObsCallback ec_default (data_id (data iface));
            ObsUnpublish (data_id (data iface))]
           (with_scriptIfaces [] w)).
Proof.
  intros Htidy Hb Hc Hlook.
  destruct e as [script timeout dumpNeeded env|id|k|k|pid r|dumpId changed env];
    simpl in Hc; try done.
  - unfold getScriptIface in Hc.
    destruct (list_find _ (scriptIfaces w)) as [[k i]|] eqn:Hfind; [|done].
    injection Hc as ->. pose proof Hfind as (Hk & Hid & _)%list_find_Some.
    destruct (bounded_single w k iface Hb Hk) as [Hl ->].
    simpl. unfold cancel, getScriptIface. munfold. rewrite Hfind. subst id.
    by rewrite (ScriptIface_cancel_registered iface entry).
  - destruct (bounded_single w k iface Hb Hc) as [Hl ->].
    simpl. unfold script_cancel. munfold. rewrite Hc.
    by rewrite (ScriptIface_cancel_registered iface entry).
  - destruct (scriptIfaces w !! k) as [i|] eqn:Hk; [|done].
    destruct (timer i) as [d|] eqn:Ht; [|done]. injection Hc as ->.
    destruct (bounded_single w k iface Hb Hk) as [Hl ->].
    simpl. unfold timer_expired. rewrite Hk, Ht. munfold. rewrite Hl. simpl.
    rewrite (ScriptIface_cancel_registered _ entry); done.
Qed.

(** ** C1: the callback and the job-table entry of a cancelled job *)

(** C1 (as the code behaves).  In every world the event loop can reach,
    when the [cancel] method of the service or of the object of the job is
    called, or the timer of the job expires, for a job that is in the job
    table, [cancel_script] terminates the child and invokes the callback,
    which unregisters and destroys the [ScriptIface] of the job; the
    parameter [id] refers to the id held by that object, so [remove(id)]
    is given a destroyed string.  The handler gets there with the callback
    invoked once more than before, no entry erased, and the entry of the
    job still in the job table. *)
Theorem C1_cancel_reads_destroyed_id_before_erasing EVP events w e iface entry :
  w = run EVP events initial ->
  cancels e w = Some iface ->
  script_cache w !! data_id (data iface) = Some entry ->
  attached entry w ->
  (handler EVP e w).1 = Throw dangling_reference
  /\ callbacks (data_id (data iface)) (step EVP e w)
     = S (callbacks (data_id (data iface)) w)
  /\ erasures (data_id (data iface)) (step EVP e w)
     = erasures (data_id (data iface)) w
  /\ script_cache (step EVP e w) !! data_id (data iface) = Some entry
  /\ scriptIfaces (step EVP e w) = [].
Proof.
  intros -> Hc Hlook _.
  pose proof (invariant_run EVP events) as (Hb & _ & Htidy).
  rewrite step_handler, (cancel_event_stops EVP e iface entry _ Htidy Hb Hc Hlook).
  simpl. split; [done|]. unfold callbacks, erasures. simpl.
  rewrite !count_app. simpl. rewrite bool_decide_eq_true_2 by done.
  repeat split; try done; lia.
Qed.

Lemma C1_witness :
  cancels (call_cancel "29242177a4a07f0b") (run EVP_sha256_ok demo_running initial)
  = Some demo_iface
  /\ script_cache (run EVP_sha256_ok demo_running initial) !! data_id (data demo_iface)
     = Some (mkScriptEntry 0 (Some bound_removeFromActive))
  /\ attached (mkScriptEntry 0 (Some bound_removeFromActive))
              (run EVP_sha256_ok demo_running initial)
  /\ (handler EVP_sha256_ok (call_cancel "29242177a4a07f0b")
              (run EVP_sha256_ok demo_running initial)).1
     = Throw dangling_reference
  /\ callbacks (data_id (data demo_iface))
               (step EVP_sha256_ok (call_cancel "29242177a4a07f0b")
                     (run EVP_sha256_ok demo_running initial))
     = S (callbacks (data_id (data demo_iface)) (run EVP_sha256_ok demo_running initial))
  /\ erasures (data_id (data demo_iface))
              (step EVP_sha256_ok (call_cancel "29242177a4a07f0b")
                    (run EVP_sha256_ok demo_running initial))
     = erasures (data_id (data demo_iface)) (run EVP_sha256_ok demo_running initial)
  /\ script_cache (step EVP_sha256_ok (call_cancel "29242177a4a07f0b")
                        (run EVP_sha256_ok demo_running initial))
       !! data_id (data demo_iface)
     = Some (mkScriptEntry 0 (Some bound_removeFromActive))
  /\ scriptIfaces (step EVP_sha256_ok (call_cancel "29242177a4a07f0b")
                        (run EVP_sha256_ok demo_running initial)) = [].
Proof.
  assert (Hc : cancels (call_cancel "29242177a4a07f0b")
                       (run EVP_sha256_ok demo_running initial)
               = Some demo_iface) by (vm_compute; reflexivity).
  assert (Hs : script_cache (run EVP_sha256_ok demo_running initial)
                 !! data_id (data demo_iface)
               = Some (mkScriptEntry 0 (Some bound_removeFromActive)))
    by (vm_compute; reflexivity).
  assert (Ha : attached (mkScriptEntry 0 (Some bound_removeFromActive))
                        (run EVP_sha256_ok demo_running initial)).
  { exists demo_spawned_frame. split; vm_compute; reflexivity. }
  split; [exact Hc|]. split; [exact Hs|]. split; [exact Ha|].
  exact (C1_cancel_reads_destroyed_id_before_erasing EVP_sha256_ok demo_running
           (run EVP_sha256_ok demo_running initial)
           (call_cancel "29242177a4a07f0b") demo_iface
           (mkScriptEntry 0 (Some bound_removeFromActive)) eq_refl Hc Hs Ha).
Defined.

(** What the program does after that read is not defined.  The embedding
    goes on with the world of that point: the coroutine of the job, when
    its pipes are drained, finds the entry and invokes the callback a
    second time. *)
Lemma cancelled_job_called_back_again :
  callbacks "29242177a4a07f0b"
    (run EVP_sha256_ok
         (demo_running
          ++ [call_cancel "29242177a4a07f0b";
              resume 0 (pipes_drained demo_out demo_err 0 fs_ok)])
         initial) = 2%nat
  /\ erasures "29242177a4a07f0b"
       (run EVP_sha256_ok
            (demo_running
             ++ [call_cancel "29242177a4a07f0b";
                 resume 0 (pipes_drained demo_out demo_err 0 fs_ok)])
            initial) = 1%nat.
Proof. vm_compute. by split. Qed.

(** ** C4: what a cancelled job's callback is told *)

(** C4 (amended).  Whenever a job that is in the job table is cancelled,
    by the [cancel] method of the service or of its own object or by the
    expiry of its timer, the child is terminated and the callback is
    invoked with the default error code [boost::system::error_code{}],
    the only callback the handler invokes.  That is the code the normal
    end of [execute] passes as well: the argument of the callback does
    not tell a cancellation from a completion. *)
Theorem C4_cancellation_reports_default_error_code EVP events w e iface entry :
  w = run EVP events initial ->
  cancels e w = Some iface ->
  script_cache w !! data_id (data iface) = Some entry ->
  attached entry w ->
  trace (step EVP e w)
  = trace w ++ [ObsTerminate (child entry);
                ObsCallback ec_default (data_id (data iface));
                ObsUnpublish (data_id (data iface))]
  /\ (exists w',
        execute_end (data_id (data iface)) w = (Ret Finished, w')
        /\ ledger w'
           = ledger w ++ [ObsCallback ec_default (data_id (data iface));
                          ObsErase (data_id (data iface))]).
Proof.
  intros -> Hc Hlook _.
  pose proof (invariant_run EVP events) as (Hb & _ & Htidy).
  split.
  - by rewrite step_handler, (cancel_event_stops EVP e iface entry _ Htidy Hb Hc Hlook).
  - destruct (execute_end_spec (data_id (data iface)) (run EVP events initial))
      as (w' & Heq & _ & _ & _ & _ & _ & _ & Hsome); [apply Htidy|].
    exists w'. split; [done|]. apply Hsome. by exists entry.
Qed.

Lemma C4_witness :
  cancels (timer_expires 0) (run EVP_sha256_ok demo_running initial) = Some demo_iface
  /\ script_cache (run EVP_sha256_ok demo_running initial) !! data_id (data demo_iface)
     = Some (mkScriptEntry 0 (Some bound_removeFromActive))
  /\ attached (mkScriptEntry 0 (Some bound_removeFromActive))
              (run EVP_sha256_ok demo_running initial)
  /\ trace (step EVP_sha256_ok (timer_expires 0) (run EVP_sha256_ok demo_running initial))
     = trace (run EVP_sha256_ok demo_running initial)
       ++ [ObsTerminate (child (mkScriptEntry 0 (Some bound_removeFromActive)));
           ObsCallback ec_default (data_id (data demo_iface));
           ObsUnpublish (data_id (data demo_iface))]
  /\ (exists w',
        execute_end (data_id (data demo_iface)) (run EVP_sha256_ok demo_running initial)
        = (Ret Finished, w')
        /\ ledger w'
           = ledger (run EVP_sha256_ok demo_running initial)
             ++ [ObsCallback ec_default (data_id (data demo_iface));
                 ObsErase (data_id (data demo_iface))]).
Proof.
  assert (Hc : cancels (timer_expires 0) (run EVP_sha256_ok demo_running initial)
               = Some demo_iface) by (vm_compute; reflexivity).
  assert (Hs : script_cache (run EVP_sha256_ok demo_running initial)
                 !! data_id (data demo_iface)
               = Some (mkScriptEntry 0 (Some bound_removeFromActive)))
    by (vm_compute; reflexivity).
  assert (Ha : attached (mkScriptEntry 0 (Some bound_removeFromActive))
                        (run EVP_sha256_ok demo_running initial)).
  { exists demo_spawned_frame. split; vm_compute; reflexivity. }
  split; [exact Hc|]. split; [exact Hs|]. split; [exact Ha|].
  exact (C4_cancellation_reports_default_error_code EVP_sha256_ok demo_running
           (run EVP_sha256_ok demo_running initial)
           (timer_expires 0) demo_iface
           (mkScriptEntry 0 (Some bound_removeFromActive)) eq_refl Hc Hs Ha).
Defined.

(** ** C2: the registry never exceeds its maximum *)

(** The loop of [ensureMaxActiveScripts] on a registry that holds one
    script whose job is in the job table: the script leaves the registry,
    [cancel] terminates the child, invokes the callback and erases the
    entry, the object is unpublished, and the loop ends with the registry
    empty. *)
Lemma ensureMaxActiveScripts_cancels w oldest entry :
  tidy w ->
  scriptIfaces w = [oldest] ->
  script_cache w !! data_id (data oldest) = Some entry ->
  ensureMaxActiveScripts w
  = (Ret tt,
     emits [ObsTerminate (child entry); ObsCallback ec_default (data_id (data oldest));
            ObsErase (data_id (data oldest)); ObsCancel (data_id (data oldest)) true;
            ObsUnpublish (data_id (data oldest))]
           (with_script_cache (delete (data_id (data oldest)) (script_cache w))
                              (with_scriptIfaces [] w))).
Proof.
  intros Htidy Hl Hlook. unfold ensureMaxActiveScripts. rewrite Hl. simpl length.
  rewrite ensure_loop_unfold, Hl. simpl.
  unfold ensure_body. munfold.
  rewrite (ScriptIface_cancel_evicted oldest entry) by done.
  cbv beta iota. rewrite ensure_loop_unfold. simpl.
  f_equal. unfold emits, ScriptIface_dtor, emit, with_script_cache, with_scriptIfaces.
  simpl. by rewrite <- app_assoc.
Qed.

(** The same loop when the job is not in the job table: [cancel] finds
    nothing to terminate and returns [false]. *)
Lemma ensureMaxActiveScripts_unregisters w oldest :
  scriptIfaces w = [oldest] ->
  script_cache w !! data_id (data oldest) = None ->
  ensureMaxActiveScripts w
  = (Ret tt,
     emits [ObsCancel (data_id (data oldest)) false; ObsUnpublish (data_id (data oldest))]
           (with_scriptIfaces [] w)).
Proof.
  intros Hl Hlook. unfold ensureMaxActiveScripts. rewrite Hl. simpl length.
  rewrite ensure_loop_unfold, Hl. simpl.
  unfold ensure_body. munfold.
  rewrite (ScriptIface_cancel_absent oldest None) by done.
  cbv beta iota. rewrite ensure_loop_unfold. simpl.
  f_equal. unfold emits, ScriptIface_dtor, emit, with_scriptIfaces.
  simpl. by rewrite <- app_assoc.
Qed.

(** C2.  In every world the event loop can reach, the registry holds at
    most [maxActiveScripts] scripts (the constant 1 of
    [ensureMaxActiveScripts]).  When [start] is called while the registry
    is at that capacity, [ensureMaxActiveScripts] takes the oldest entry
    out of the registry and calls [cancel] on it.  If the job is in the
    job table, its child is terminated, its callback is invoked and its
    entry is erased; if it is not, there is no child to terminate and
    [cancel] returns [false].  Either way the object of the job is then
    unpublished, the registry is empty, and only then does [addToActive]
    admit the new job. *)
Theorem C2_registry_bounded_oldest_evicted_first EVP events w :
  w = run EVP events initial ->
  (length (scriptIfaces w) <= maxActiveScripts)%nat
  /\ (forall script timeout dumpNeeded env,
        length (scriptIfaces w) = maxActiveScripts ->
        exists oldest,
          scriptIfaces w = [oldest]
          /\ (forall entry,
                script_cache w !! data_id (data oldest) = Some entry ->
                attached entry w ->
                ensureMaxActiveScripts w
                = (Ret tt,
                   emits [ObsTerminate (child entry);
                          ObsCallback ec_default (data_id (data oldest));
                          ObsErase (data_id (data oldest));
                          ObsCancel (data_id (data oldest)) true;
                          ObsUnpublish (data_id (data oldest))]
                         (with_script_cache
                            (delete (data_id (data oldest)) (script_cache w))
                            (with_scriptIfaces [] w))))
          /\ (script_cache w !! data_id (data oldest) = None ->
              ensureMaxActiveScripts w
              = (Ret tt,
                 emits [ObsCancel (data_id (data oldest)) false;
                        ObsUnpublish (data_id (data oldest))]
                       (with_scriptIfaces [] w)))
          /\ (forall w1,
                ensureMaxActiveScripts w = (Ret tt, w1) ->
                start EVP script timeout dumpNeeded env w
                = addToActive EVP script timeout dumpNeeded env w1)
          /\ (length (scriptIfaces (step EVP (call_start script timeout dumpNeeded env) w))
              <= maxActiveScripts)%nat).
Proof.
  intros ->. pose proof (invariant_run EVP events) as Hinv.
  split; [apply Hinv|].
  intros script timeout dumpNeeded env Hfull.
  destruct (scriptIfaces (run EVP events initial)) as [|oldest [|second rest]] eqn:Hl;
    [done| |simpl in Hfull; unfold maxActiveScripts in Hfull; lia].
  exists oldest. split; [done|]. split; [|split; [|split]].
  - intros entry Hlook _.
    by apply ensureMaxActiveScripts_cancels; [apply Hinv| |].
  - intros Hlook. by apply ensureMaxActiveScripts_unregisters.
  - intros w1 Heq. unfold start. munfold. by rewrite Heq.
  - pose proof (invariant_step EVP (call_start script timeout dumpNeeded env) _ Hinv) as Hs.
    apply Hs.
Qed.

Lemma C2_witness :
  (length (scriptIfaces (run EVP_sha256_ok demo_running initial)) <= maxActiveScripts)%nat
  /\ scriptIfaces (run EVP_sha256_ok demo_running initial) = [demo_iface]
  /\ script_cache (run EVP_sha256_ok demo_running initial) !! data_id (data demo_iface)
     = Some (mkScriptEntry 0 (Some bound_removeFromActive))
  /\ attached (mkScriptEntry 0 (Some bound_removeFromActive))
              (run EVP_sha256_ok demo_running initial)
  /\ ensureMaxActiveScripts (run EVP_sha256_ok demo_running initial)
     = (Ret tt,
        emits [ObsTerminate 0; ObsCallback ec_default (data_id (data demo_iface));
               ObsErase (data_id (data demo_iface));
               ObsCancel (data_id (data demo_iface)) true;
               ObsUnpublish (data_id (data demo_iface))]
              (with_script_cache
                 (delete (data_id (data demo_iface))
                         (script_cache (run EVP_sha256_ok demo_running initial)))
                 (with_scriptIfaces [] (run EVP_sha256_ok demo_running initial))))
  /\ (length (scriptIfaces (step EVP_sha256_ok (call_start "sleep 9" 5 false demo_env)
                                 (run EVP_sha256_ok demo_running initial)))
      <= maxActiveScripts)%nat.
Proof.
  assert (Hl : scriptIfaces (run EVP_sha256_ok demo_running initial) = [demo_iface])
    by (vm_compute; reflexivity).
  assert (Hs : script_cache (run EVP_sha256_ok demo_running initial)
                 !! data_id (data demo_iface)
               = Some (mkScriptEntry 0 (Some bound_removeFromActive)))
    by (vm_compute; reflexivity).
  assert (Ha : attached (mkScriptEntry 0 (Some bound_removeFromActive))
                        (run EVP_sha256_ok demo_running initial)).
  { exists demo_spawned_frame. split; vm_compute; reflexivity. }
  destruct (C2_registry_bounded_oldest_evicted_first EVP_sha256_ok demo_running
              (run EVP_sha256_ok demo_running initial) eq_refl) as [Hb Hfull].
  split; [exact Hb|]. split; [exact Hl|]. split; [exact Hs|]. split; [exact Ha|].
  destruct (Hfull "sleep 9" 5 false demo_env) as (oldest & Hold & Hin & _ & _ & Hafter).
  { rewrite Hl. reflexivity. }
  rewrite Hl in Hold. injection Hold as <-.
  split; [exact (Hin _ Hs Ha)|exact Hafter].
Defined.

(** ** C7: the timeout timer *)

Lemma nanoseconds_exact t :
  0 < t <= 9223372036 -> nanoseconds (seconds t) = t * 10 ^ 9.
Proof.
  intros Ht. unfold nanoseconds, seconds.
  rewrite (Z.mod_small t) by lia.
  destruct (t <? 2 ^ 63) eqn:Hlt; [|apply Z.ltb_ge in Hlt; lia].
  rewrite (Z.mod_small (t * 10 ^ 9)) by lia.
  destruct (t * 10 ^ 9 <? 2 ^ 63) eqn:Hlt'; [done|apply Z.ltb_ge in Hlt'; lia].
Qed.

(** C7.  With a timeout of 0, [startTimeout] changes nothing and arms no
    timer, and in no reachable world does a registered script with timeout 0
    have a pending timer, so the timer path never runs for it.  With a
    timeout other than 0, [startTimeout] arms the timer, with that many
    seconds as long as they fit the nanosecond count of the timer.  When
    the timer of a registered script expires, the wait is consumed and the
    handler calls [cancel] on that script: if the job is in the job table
    its child is terminated and its callback is invoked, and if it is not,
    [cancel] returns [false]. *)
Theorem C7_timeout_zero_never_fires_nonzero_cancels EVP events w :
  w = run EVP events initial ->
  (forall iface w0,
     data_timeout (data iface) = 0 ->
     startTimeout iface w0 = (Ret iface, w0))
  /\ (forall k iface,
        scriptIfaces w !! k = Some iface ->
        data_timeout (data iface) = 0 ->
        timer iface = None /\ step EVP (timer_expires k) w = w)
  /\ (forall iface w0,
        data_timeout (data iface) <> 0 ->
        startTimeout iface w0
        = (Ret (mkScriptIface (data iface)
                  (Some (nanoseconds (seconds (data_timeout (data iface)))))),
           emit (ObsArm (data_id (data iface))
                        (nanoseconds (seconds (data_timeout (data iface))))) w0)
        /\ (0 < data_timeout (data iface) <= 9223372036 ->
            nanoseconds (seconds (data_timeout (data iface)))
            = data_timeout (data iface) * 10 ^ 9))
  /\ (forall k iface,
        scriptIfaces w !! k = Some iface ->
        is_Some (timer iface) ->
        data_timeout (data iface) <> 0
        /\ timer_expired k w
           = (_ ← ScriptIface_cancel (mkScriptIface (data iface) None) (Some k); mret tt)
               (with_scriptIfaces [mkScriptIface (data iface) None] w)
        /\ (script_cache w !! data_id (data iface) = None ->
            step EVP (timer_expires k) w
            = emit (ObsCancel (data_id (data iface)) false)
                   (with_scriptIfaces [mkScriptIface (data iface) None] w))
        /\ (forall entry,
              script_cache w !! data_id (data iface) = Some entry ->
              attached entry w ->
              trace (step EVP (timer_expires k) w)
              = trace w ++ [ObsTerminate (child entry);
                            ObsCallback ec_default (data_id (data iface));
                            ObsUnpublish (data_id (data iface))])).
Proof.
  intros ->. pose proof (invariant_run EVP events) as (Hb & Ht & Htidy).
  split; [|split; [|split]].
  - intros iface w0 H0. unfold startTimeout. by rewrite decide_True.
  - intros k iface Hk H0.
    assert (Hnone : timer iface = None).
    { unfold timers_ok in Ht. rewrite Forall_forall in Ht.
      destruct (Ht iface) as [Hn|[Hne _]]; [by eapply list_elem_of_lookup_2|done|done]. }
    split; [done|]. simpl. unfold exec, timer_expired. by rewrite Hk, Hnone.
  - intros iface w0 Hne. split; [|apply nanoseconds_exact].
    unfold startTimeout. by rewrite decide_False.
  - intros k iface Hk [d Hd].
    destruct (bounded_single _ k iface Hb Hk) as [Hl ->].
    assert (Heq : timer_expired 0 (run EVP events initial)
                  = (_ ← ScriptIface_cancel (mkScriptIface (data iface) None) (Some 0%nat);
                     mret tt)
                      (with_scriptIfaces [mkScriptIface (data iface) None]
                                         (run EVP events initial))).
    { unfold timer_expired. rewrite Hk, Hd, Hl. reflexivity. }
    split; [|split; [exact Heq|split]].
    + unfold timers_ok in Ht. rewrite Forall_forall in Ht.
      destruct (Ht iface) as [Hn|[Hne _]]; [by eapply list_elem_of_lookup_2|congruence|done].
    + intros Hlook. simpl. unfold exec. rewrite Heq. munfold.
      by rewrite (ScriptIface_cancel_absent (mkScriptIface (data iface) None)).
    + intros entry Hlook _.
      assert (Hc : cancels (timer_expires 0) (run EVP events initial) = Some iface).
      { simpl. by rewrite Hk, Hd. }
      by rewrite step_handler, (cancel_event_stops EVP _ iface entry _ Htidy Hb Hc Hlook).
Qed.

Lemma C7_witness :
  (exists iface,
     scriptIfaces C7_unbounded !! 0%nat = Some iface
     /\ data_timeout (data iface) = 0
     /\ timer iface = None
     /\ step EVP_sha256_ok (timer_expires 0) C7_unbounded = C7_unbounded)
  /\ scriptIfaces (run EVP_sha256_ok demo_running initial) !! 0%nat = Some demo_iface
  /\ timer demo_iface = Some (30 * 10 ^ 9)
  /\ script_cache (run EVP_sha256_ok demo_running initial) !! data_id (data demo_iface)
     = Some (mkScriptEntry 0 (Some bound_removeFromActive))
  /\ attached (mkScriptEntry 0 (Some bound_removeFromActive))
              (run EVP_sha256_ok demo_running initial)
  /\ data_timeout (data demo_iface) <> 0
  /\ trace (step EVP_sha256_ok (timer_expires 0) (run EVP_sha256_ok demo_running initial))
     = trace (run EVP_sha256_ok demo_running initial)
       ++ [ObsTerminate 0; ObsCallback ec_default (data_id (data demo_iface));
           ObsUnpublish (data_id (data demo_iface))].
Proof.
  split.
  - eexists. split; [reflexivity|]. split; [reflexivity|].
    apply (C7_timeout_zero_never_fires_nonzero_cancels EVP_sha256_ok
             [call_start "sleep 9" 0 false demo_env] C7_unbounded eq_refl);
      reflexivity.
  - assert (Hk : scriptIfaces (run EVP_sha256_ok demo_running initial) !! 0%nat
                 = Some demo_iface) by (vm_compute; reflexivity).
    assert (Hs : script_cache (run EVP_sha256_ok demo_running initial)
                   !! data_id (data demo_iface)
                 = Some (mkScriptEntry 0 (Some bound_removeFromActive)))
      by (vm_compute; reflexivity).
    assert (Ha : attached (mkScriptEntry 0 (Some bound_removeFromActive))
                          (run EVP_sha256_ok demo_running initial)).
    { exists demo_spawned_frame. split; vm_compute; reflexivity. }
    split; [exact Hk|]. split; [reflexivity|]. split; [exact Hs|]. split; [exact Ha|].
    destruct (C7_timeout_zero_never_fires_nonzero_cancels EVP_sha256_ok demo_running
                (run EVP_sha256_ok demo_running initial) eq_refl)
      as (_ & _ & _ & Hfire).
    destruct (Hfire 0%nat demo_iface Hk (ex_intro _ _ eq_refl)) as (Hne & _ & _ & Htr).
    split; [exact Hne|exact (Htr _ Hs Ha)].
Defined.

(** ** C6: an exception after the job entered the table *)

Lemma cleanup_failure_leaks pid fr out err exit_code env w :
  tidy w ->
  frames w !! pid = Some fr ->
  fr_at fr = Streaming ->
  fr_dumpNeeded fr = false ->
  remove_ok env = false ->
  script_cache (exec (execute pid (pipes_drained out err exit_code env)) w) = script_cache w
  /\ trace (exec (execute pid (pipes_drained out err exit_code env)) w) = trace w
  /\ scriptIfaces (exec (execute pid (pipes_drained out err exit_code env)) w)
     = scriptIfaces w
  /\ (fr_at <$> frames (exec (execute pid (pipes_drained out err exit_code env)) w) !! pid)
     = Some (Escaped bad_function_call).
Proof.
  intros Htidy Hfr Hat Hdump Hrm.
  assert (Hcb : fr_callback fr = None).
  { destruct Htidy as [_ Hfrs]. specialize (Hfrs _ _ Hfr). by rewrite Hat in Hfrs. }
  unfold exec, execute. rewrite Hfr, Hat, Hdump.
  unfold execute_try, execute_streamed. munfold. simpl.
  match goal with
  | |- context [writeResult out err ?o w] => generalize o; intros ofs
  end.
  destruct (writeResult out err ofs w) as [r1 w1] eqn:Hw.
  apply writeResult_inv in Hw as (ec & f1 & -> & ->).
  destruct (report_exit_code ofs exit_code (with_files f1 w)) as [r2 w2] eqn:H2.
  apply report_exit_code_inv in H2 as (f2 & -> & ->). cbv beta iota.
  set (w3 := update_frame pid (set_ofs None) (with_files f2 (with_files f1 w))).
  assert (Hf3 : frames w3 = <[pid := set_ofs None fr]> (frames w)).
  { subst w3.
    exact (update_frame_frames pid (set_ofs None) (with_files f2 (with_files f1 w)) fr Hfr). }
  assert (Hpc : forall w', frames w' = frames w3 -> parameter_callback pid w' = None).
  { intros w' Hw'. unfold parameter_callback. rewrite Hw', Hf3.
    rewrite list_lookup_insert_eq by (by eapply lookup_lt_Some). simpl. done. }
  assert (Hrest : script_cache w3 = script_cache w /\ trace w3 = trace w
                  /\ scriptIfaces w3 = scriptIfaces w) by (by subst w3).
  clearbody w3. destruct Hrest as (Hc3 & Ht3 & Hi3).
  assert (Hend : forall w4,
    script_cache w4 = script_cache w3 -> trace w4 = trace w3 ->
    scriptIfaces w4 = scriptIfaces w3 -> frames w4 = frames w3 ->
    script_cache (update_frame pid (suspend_at (Escaped bad_function_call)) w4)
    = script_cache w
    /\ trace (update_frame pid (suspend_at (Escaped bad_function_call)) w4) = trace w
    /\ scriptIfaces (update_frame pid (suspend_at (Escaped bad_function_call)) w4)
       = scriptIfaces w
    /\ (fr_at <$> frames (update_frame pid (suspend_at (Escaped bad_function_call)) w4)
                  !! pid)
       = Some (Escaped bad_function_call)).
  { intros w4 Hc4 Ht4 Hi4 Hf4. simpl. rewrite Hc4, Ht4, Hi4. repeat split; try done.
    rewrite list_lookup_alter_eq, Hf4, Hf3.
    rewrite list_lookup_insert_eq by (by eapply lookup_lt_Some). done. }
  destruct (scriptDir env (fr_hash fr) w3) as [r4 w4] eqn:Hd.
  apply scriptDir_inv in Hd as (d4 & -> & Hr4).
  destruct r4 as [dir|e]; cbv beta iota.
  - destruct (remove_all env dir (with_dirs d4 w3)) as [r5 w5] eqn:Hrm5.
    apply remove_all_inv in Hrm5 as (d5 & f5 & -> & Hr5).
    destruct r5 as [[]|e]; [destruct Hr5 as [Hok _]; congruence|].
    cbv beta iota. rewrite Hpc by done. rewrite call_None. by apply Hend.
  - rewrite Hpc by done. rewrite call_None. by apply Hend.
Qed.

(** C6 (as the code behaves).  When [remove_all] throws after the pipes
    are drained (no dump being needed), the [catch] block of [execute]
    calls its parameter [callback], which [emplace] has moved into the
    job table: the call throws [std::bad_function_call], no callback is
    invoked, nothing is removed from the registry, and the entry of the
    job stays in the job table. *)
Theorem C6_cleanup_exception_leaves_entry EVP events pid fr entry out err exit_code env :
  frames (run EVP events initial) !! pid = Some fr ->
  fr_at fr = Streaming ->
  fr_dumpNeeded fr = false ->
  remove_ok env = false ->
  script_cache (run EVP events initial) !! fr_hash fr = Some entry ->
  script_cache (step EVP (resume pid (pipes_drained out err exit_code env))
                     (run EVP events initial)) !! fr_hash fr = Some entry
  /\ trace (step EVP (resume pid (pipes_drained out err exit_code env))
                 (run EVP events initial))
     = trace (run EVP events initial)
  /\ scriptIfaces (step EVP (resume pid (pipes_drained out err exit_code env))
                        (run EVP events initial))
     = scriptIfaces (run EVP events initial)
  /\ (fr_at <$> frames (step EVP (resume pid (pipes_drained out err exit_code env))
                             (run EVP events initial)) !! pid)
     = Some (Escaped bad_function_call).
Proof.
  intros Hfr Hat Hdump Hrm Hlook.
  pose proof (invariant_run EVP events) as (_ & _ & Htidy).
  destruct (cleanup_failure_leaks pid fr out err exit_code env _ Htidy Hfr Hat Hdump Hrm)
    as (Hc & Ht & Hi & Hp).
  simpl. rewrite Hc. done.
Qed.

Lemma C6_witness :
  script_cache (step EVP_sha256_ok demo_faulty_cleanup
                     (run EVP_sha256_ok demo_running initial))
    !! fr_hash demo_spawned_frame
  = Some (mkScriptEntry 0 (Some bound_removeFromActive))
  /\ trace (step EVP_sha256_ok demo_faulty_cleanup (run EVP_sha256_ok demo_running initial))
     = trace (run EVP_sha256_ok demo_running initial)
  /\ scriptIfaces (step EVP_sha256_ok demo_faulty_cleanup
                        (run EVP_sha256_ok demo_running initial))
     = scriptIfaces (run EVP_sha256_ok demo_running initial)
  /\ (fr_at <$> frames (step EVP_sha256_ok demo_faulty_cleanup
                             (run EVP_sha256_ok demo_running initial)) !! 0%nat)
     = Some (Escaped bad_function_call).
Proof.
  refine (C6_cleanup_exception_leaves_entry EVP_sha256_ok demo_running 0 demo_spawned_frame
            (mkScriptEntry 0 (Some bound_removeFromActive))
            (mkPipe [] "Hello" at_eof) (mkPipe [] "" at_eof) 0 (mkFs true true false)
            _ _ _ _ _).
  - vm_compute. reflexivity.
  - reflexivity.
  - reflexivity.
  - reflexivity.
  - vm_compute. reflexivity.
Defined.

(** ** C8: dump progress notifications *)

Lemma visit_other env id dumpId prop value w :
  value <> Completed ->
  propcallback_visit env id dumpId (prop, value) w = (Ret tt, w).
Proof.
  intros Hne. unfold propcallback_visit.
  destruct (String.eqb value Completed) eqn:Heq; [|done].
  by apply String.eqb_eq in Heq.
Qed.

Lemma visit_completed env id dumpId prop w :
  remove_ok env = true ->
  reclaimed id dumpId (propcallback_visit env id dumpId (prop, Completed) w).2
  \/ ((dir_path id ∉ dirs w) /\ mkdir_ok env = false
      /\ propcallback_visit env id dumpId (prop, Completed) w
         = (Throw filesystem_error, w)).
Proof.
  intros Hrm. unfold propcallback_visit. rewrite String.eqb_refl. munfold.
  destruct (scriptDir env id w) as [r w1] eqn:Hd.
  apply scriptDir_inv in Hd as (d & -> & Hr).
  destruct r as [dir|e].
  - destruct Hr as [-> Hin].
    destruct (remove_all env (dir_path id) (with_dirs d w)) as [r2 w2] eqn:Hrm2.
    apply remove_all_inv in Hrm2 as (d2 & f2 & -> & Hr2).
    destruct r2 as [[]|e]; [|destruct Hr2 as [_ ?]; congruence].
    destruct Hr2 as (_ & Hout & _). left. split; simpl; [done|].
    apply lookup_delete_eq.
  - destruct Hr as (-> & Hnin & Hmk & ->). right. split; [done|]. split; [done|].
    by rewrite with_dirs_same.
Qed.

Lemma propcallback_cons env id dumpId entry rest w :
  propcallback env id dumpId (entry :: rest) w
  = match propcallback_visit env id dumpId entry w with
    | (Ret _, w1) => propcallback env id dumpId rest w1
    | (Throw e, w1) => (Throw e, w1)
    end.
Proof. reflexivity. Qed.

Lemma visit_keeps env id dumpId entry w :
  remove_ok env = true ->
  reclaimed id dumpId w ->
  reclaimed id dumpId (propcallback_visit env id dumpId entry w).2.
Proof.
  intros Hrm Hrec. destruct entry as [prop value].
  destruct (decide (value = Completed)) as [->|Hne].
  - destruct (visit_completed env id dumpId prop w Hrm) as [H|(_ & _ & ->)]; done.
  - by rewrite visit_other.
Qed.

Lemma propcallback_keeps env id dumpId changed w :
  remove_ok env = true ->
  reclaimed id dumpId w ->
  reclaimed id dumpId (propcallback env id dumpId changed w).2.
Proof.
  intros Hrm. revert w. induction changed as [|entry rest IH]; intros w Hrec; [done|].
  rewrite propcallback_cons.
  pose proof (visit_keeps env id dumpId entry w Hrm Hrec) as Hv.
  destruct (propcallback_visit env id dumpId entry w) as [[[]|e] w1]; simpl in *; [|done].
  by apply IH.
Qed.

Lemma propcallback_reclaims env id dumpId changed prop w :
  remove_ok env = true ->
  dir_path id ∈ dirs w \/ mkdir_ok env = true ->
  (prop, Completed) ∈ changed ->
  reclaimed id dumpId (propcallback env id dumpId changed w).2.
Proof.
  intros Hrm Hdir Hin. revert w Hdir.
  induction changed as [|[prop' value] rest IH]; intros w Hdir; [by apply elem_of_nil in Hin|].
  rewrite propcallback_cons.
  destruct (decide (value = Completed)) as [->|Hne].
  - destruct (visit_completed env id dumpId prop' w Hrm) as [Hrec|(Hnin & Hmk & _)].
    + pose proof (propcallback_keeps env id dumpId rest
                    (propcallback_visit env id dumpId (prop', Completed) w).2 Hrm Hrec) as Hk.
      destruct (propcallback_visit env id dumpId (prop', Completed) w) as [[[]|e] w1];
        [exact Hk|exact Hrec].
    + destruct Hdir as [?|?]; [done|congruence].
  - rewrite visit_other by done. apply IH; [|done].
    apply elem_of_cons in Hin as [Heq|Hin]; [congruence|done].
Qed.

Lemma propcallback_ignores env id dumpId changed w :
  (forall prop value, (prop, value) ∈ changed -> value <> Completed) ->
  propcallback env id dumpId changed w = (Ret tt, w).
Proof.
  revert w. induction changed as [|[prop value] rest IH]; intros w Hall; [done|].
  rewrite propcallback_cons. rewrite visit_other by (eapply Hall; left).
  apply IH. intros p v Hin. eapply Hall. by right.
Qed.

(** C8 (as the code behaves).  A notification delivered to the match
    registered for a bundle removes the working directory of the job and
    cancels the subscription, which is keyed by the bundle id, as soon as
    some changed property has the [Completed] value, whatever the name of
    that property: the view that filters on the name [Status] is built and
    dropped, and the loop visits every entry.  A notification none of whose
    values is [Completed] changes nothing. *)
Theorem C8_completed_value_of_any_property_reclaims
    env id dumpId changed w :
  dumpProgressMatches w !! dumpId = Some (id, dumpId) ->
  remove_ok env = true ->
  dir_path id ∈ dirs w \/ mkdir_ok env = true ->
  ((exists prop, (prop, Completed) ∈ changed) ->
   (dir_path id ∉ dirs (exec (deliver dumpId changed env) w))
   /\ dumpProgressMatches (exec (deliver dumpId changed env) w) !! dumpId = None)
  /\ ((forall prop value, (prop, value) ∈ changed -> value <> Completed) ->
      exec (deliver dumpId changed env) w = w).
Proof.
  intros Hm Hrm Hdir. unfold exec, deliver. rewrite Hm. split.
  - intros [prop Hin]. by eapply propcallback_reclaims.
  - intros Hall. by rewrite propcallback_ignores.
Qed.

Lemma C8_witness :
  lookup "Status" (list_to_map demo_notification : gmap string string) = Some InProgress
  /\ (dir_path "29242177a4a07f0b" ∈ dirs (run EVP_sha256_ok demo_dumping initial))
  /\ (dir_path "29242177a4a07f0b"
      ∉ dirs (exec (deliver "7" demo_notification fs_ok)
                   (run EVP_sha256_ok demo_dumping initial)))
  /\ dumpProgressMatches (exec (deliver "7" demo_notification fs_ok)
                               (run EVP_sha256_ok demo_dumping initial)) !! "7" = None.
Proof.
  split; [reflexivity|]. split; [by vm_compute|].
  apply (C8_completed_value_of_any_property_reclaims fs_ok "29242177a4a07f0b" "7"
           demo_notification (run EVP_sha256_ok demo_dumping initial)).
  - reflexivity.
  - reflexivity.
  - by right.
  - exists "Phase". by left.
Defined.

(** ** C9: a child that exits with a code other than 0 *)

(** The part of [execute] between [co_await writeResult] and
    [ofs.close()], for an exit code other than 0. *)
Lemma streamed_then_reported out err exit_code path c w :
  files w !! path = Some c ->
  exit_code <> 0 ->
  exists f,
    (_ ← writeResult out err (Some path); report_exit_code (Some path) exit_code) w
    = (Ret tt, with_files f w)
    /\ f !! path = Some (c +:+ captured out err +:+ diagnostic exit_code).
Proof.
  intros Hc Hne. munfold.
  pose proof (writeResult_content out err (Some path) w) as Hc1.
  destruct (writeResult out err (Some path) w) as [r1 w1] eqn:Hw.
  apply writeResult_inv in Hw as (ec & f1 & -> & ->).
  pose proof (report_exit_code_content (Some path) exit_code (with_files f1 w) Hne) as Hc2.
  destruct (report_exit_code (Some path) exit_code (with_files f1 w)) as [r2 w2] eqn:H2.
  apply report_exit_code_inv in H2 as (f2 & -> & ->).
  exists f2. split; [by destruct w|].
  simpl in Hc1, Hc2. rewrite Hc2, Hc1, Hc. simpl. by rewrite append_assoc.
Qed.

Lemma nonzero_exit_dump pid fr path c out err exit_code env w :
  frames w !! pid = Some fr ->
  fr_at fr = Streaming ->
  fr_ofs fr = Some path ->
  files w !! path = Some c ->
  exit_code <> 0 ->
  fr_dumpNeeded fr = true ->
  files (exec (execute pid (pipes_drained out err exit_code env)) w) !! path
  = Some (c +:+ captured out err +:+ diagnostic exit_code)
  /\ frames (exec (execute pid (pipes_drained out err exit_code env)) w)
     = <[pid := suspend_at DumpCall (set_ofs None fr)]> (frames w)
  /\ script_cache (exec (execute pid (pipes_drained out err exit_code env)) w)
     = script_cache w
  /\ trace (exec (execute pid (pipes_drained out err exit_code env)) w)
     = trace w ++ [ObsCreateDump (fr_hash fr)].
Proof.
  intros Hfr Hat Hofs Hc Hne Hdump.
  unfold exec, execute. rewrite Hfr, Hat, Hdump.
  unfold execute_try, execute_streamed. munfold. cbv beta iota.
  match goal with
  | |- context [writeResult out err ?o w] =>
      replace o with (Some path) by (rewrite Hfr; simpl; done)
  end.
  pose proof (writeResult_content out err (Some path) w) as Hc1.
  destruct (writeResult out err (Some path) w) as [r1 w1] eqn:Hw.
  apply writeResult_inv in Hw as (ec & f1 & -> & ->).
  pose proof (report_exit_code_content (Some path) exit_code (with_files f1 w) Hne) as Hc2.
  destruct (report_exit_code (Some path) exit_code (with_files f1 w)) as [r2 w2] eqn:H2.
  apply report_exit_code_inv in H2 as (f2 & -> & ->). cbv beta iota.
  simpl in Hc1, Hc2. simpl.
  split; [rewrite Hc2, Hc1, Hc; simpl; by rewrite append_assoc|].
  split; [|done].
  rewrite (alter_as_insert (set_ofs None) (frames w) pid fr Hfr).
  rewrite (alter_as_insert (suspend_at DumpCall) _ pid (set_ofs None fr)).
  - by rewrite list_insert_insert_eq.
  - rewrite list_lookup_insert_eq; [done|]. by eapply lookup_lt_Some.
Qed.

Lemma output_below_dir id :
  String.prefix (dir_path id +:+ "/") (file_path (dir_path id) id ".out") = true.
Proof.
  unfold file_path. rewrite <- append_assoc. apply prefix_append.
Qed.

Lemma nonzero_exit_no_dump pid fr out err exit_code env w :
  tidy w ->
  frames w !! pid = Some fr ->
  fr_at fr = Streaming ->
  fr_dumpNeeded fr = false ->
  remove_ok env = true ->
  dir_path (fr_hash fr) ∈ dirs w \/ mkdir_ok env = true ->
  is_Some (script_cache w !! fr_hash fr) ->
  files (exec (execute pid (pipes_drained out err exit_code env)) w)
    !! file_path (dir_path (fr_hash fr)) (fr_hash fr) ".out" = None
  /\ ~ (dir_path (fr_hash fr)
        ∈ dirs (exec (execute pid (pipes_drained out err exit_code env)) w))
  /\ (fr_at <$> frames (exec (execute pid (pipes_drained out err exit_code env)) w) !! pid)
     = Some Finished
  /\ script_cache (exec (execute pid (pipes_drained out err exit_code env)) w)
     = delete (fr_hash fr) (script_cache w)
  /\ ledger (exec (execute pid (pipes_drained out err exit_code env)) w)
     = ledger w ++ [ObsCallback ec_default (fr_hash fr); ObsErase (fr_hash fr)].
Proof.
  intros Htidy Hfr Hat Hdump Hrm Hdir Hin.
  unfold exec, execute. rewrite Hfr, Hat, Hdump.
  unfold execute_try, execute_streamed. munfold. cbv beta iota.
  match goal with
  | |- context [writeResult out err ?o w] => generalize o; intros ofs
  end.
  destruct (writeResult out err ofs w) as [r1 w1] eqn:Hw.
  apply writeResult_inv in Hw as (ec & f1 & -> & ->).
  destruct (report_exit_code ofs exit_code (with_files f1 w)) as [r2 w2] eqn:H2.
  apply report_exit_code_inv in H2 as (f2 & -> & ->). cbv beta iota.
  set (w3 := update_frame pid (set_ofs None) (with_files f2 (with_files f1 w))).
  assert (Hf3 : frames w3 = <[pid := set_ofs None fr]> (frames w)).
  { subst w3.
    exact (update_frame_frames pid (set_ofs None) (with_files f2 (with_files f1 w)) fr Hfr). }
  assert (Hrest : script_cache w3 = script_cache w /\ ledger w3 = ledger w
                  /\ dirs w3 = dirs w) by (by subst w3).
  clearbody w3. destruct Hrest as (Hc3 & Hl3 & Hd3).
  destruct (scriptDir env (fr_hash fr) w3) as [r4 w4] eqn:Hd.
  apply scriptDir_inv in Hd as (d4 & -> & Hr4).
  destruct r4 as [dir|e]; cycle 1.
  { destruct Hr4 as (_ & Hnin & Hmk & _). rewrite Hd3 in Hnin.
    destruct Hdir as [?|?]; [done|congruence]. }
  destruct Hr4 as [-> Hd4]. cbv beta iota.
  destruct (remove_all env (dir_path (fr_hash fr)) (with_dirs d4 w3)) as [r5 w5] eqn:Hrm5.
  apply remove_all_inv in Hrm5 as (d5 & f5 & -> & Hr5).
  destruct r5 as [[]|e]; [|destruct Hr5; congruence].
  destruct Hr5 as (_ & Hd5 & Hf5). cbv beta iota.
  set (w6 := with_files f5 (with_dirs d5 (with_dirs d4 w3))).
  destruct (execute_end_spec (fr_hash fr) w6)
    as (w' & -> & _ & Hfr' & Hd' & Hf' & _ & _ & Hsome).
  { subst w6. simpl. rewrite Hc3. apply Htidy. }
  destruct Hsome as [Hc' Hl']; [subst w6; simpl; by rewrite Hc3|].
  cbv beta iota. simpl.
  split; [rewrite Hf'; subst w6; simpl; apply Hf5, output_below_dir|].
  split; [rewrite Hd'; by subst w6|].
  split.
  { rewrite list_lookup_alter_eq, Hfr'. subst w6. simpl. rewrite Hf3.
    rewrite list_lookup_insert_eq by (by eapply lookup_lt_Some). done. }
  split; [rewrite Hc'; subst w6; simpl; by rewrite Hc3|].
  change (ledger w' = ledger w ++ [ObsCallback ec_default (fr_hash fr); ObsErase (fr_hash fr)]).
  rewrite Hl'. subst w6. by rewrite <- Hl3.
Qed.

Lemma dump_reply_completes pid fr dumpId w :
  tidy w ->
  frames w !! pid = Some fr ->
  fr_at fr = DumpCall ->
  is_Some (script_cache w !! fr_hash fr) ->
  files (exec (execute pid (dump_reply (Some dumpId))) w) = files w
  /\ dirs (exec (execute pid (dump_reply (Some dumpId))) w) = dirs w
  /\ (fr_at <$> frames (exec (execute pid (dump_reply (Some dumpId))) w) !! pid)
     = Some Finished
  /\ ledger (exec (execute pid (dump_reply (Some dumpId))) w)
     = ledger w ++ [ObsCallback ec_default (fr_hash fr); ObsErase (fr_hash fr)].
Proof.
  intros Htidy Hfr Hat Hin.
  unfold exec, execute. rewrite Hfr, Hat.
  unfold execute_try, execute_dump_reply. munfold. cbv beta iota.
  destruct (monitorDumpProgress_inv (fr_hash fr) dumpId w) as (m & ->). cbv beta iota.
  destruct (execute_end_spec (fr_hash fr) (with_matches m w))
    as (w' & -> & _ & Hfr' & Hd' & Hf' & _ & _ & Hsome); [apply Htidy|].
  destruct Hsome as [Hc' Hl']; [done|].
  cbv beta iota. simpl.
  split; [by rewrite Hf'|]. split; [by rewrite Hd'|].
  split; [rewrite list_lookup_alter_eq, Hfr'; simpl; by rewrite Hfr|].
  exact Hl'.
Qed.

(** C9 (amended).  When the child of a job that is in the job table exits
    with a code other than 0, [execute] appends the line [Script execution
    failed with exit code: <code>] to the output file, after the captured
    output, and the job still completes as a success: the callback is
    invoked with the default error code.  If a dump was requested, the
    output file with that line is still there when the callback is
    invoked, after the dump service has answered.  If no dump was
    requested, the directory of the job, with the output file in it, is
    removed before the callback is invoked. *)
Theorem C9_nonzero_exit_line_appended_callback_default
    EVP events pid fr path c out err exit_code env :
  frames (run EVP events initial) !! pid = Some fr ->
  fr_at fr = Streaming ->
  fr_ofs fr = Some path ->
  files (run EVP events initial) !! path = Some c ->
  is_Some (script_cache (run EVP events initial) !! fr_hash fr) ->
  exit_code <> 0 ->
  (exists f,
     (_ ← writeResult out err (Some path); report_exit_code (Some path) exit_code)
       (run EVP events initial)
     = (Ret tt, with_files f (run EVP events initial))
     /\ f !! path = Some (c +:+ captured out err +:+ diagnostic exit_code))
  /\ (fr_dumpNeeded fr = true ->
      files (step EVP (resume pid (pipes_drained out err exit_code env))
                  (run EVP events initial)) !! path
      = Some (c +:+ captured out err +:+ diagnostic exit_code)
      /\ ledger (step EVP (resume pid (pipes_drained out err exit_code env))
                      (run EVP events initial))
         = ledger (run EVP events initial)
      /\ forall dumpId,
           files (step EVP (resume pid (dump_reply (Some dumpId)))
                    (step EVP (resume pid (pipes_drained out err exit_code env))
                          (run EVP events initial))) !! path
           = Some (c +:+ captured out err +:+ diagnostic exit_code)
           /\ ledger (step EVP (resume pid (dump_reply (Some dumpId)))
                        (step EVP (resume pid (pipes_drained out err exit_code env))
                              (run EVP events initial)))
              = ledger (run EVP events initial)
                ++ [ObsCallback ec_default (fr_hash fr); ObsErase (fr_hash fr)])
  /\ (fr_dumpNeeded fr = false ->
      remove_ok env = true ->
      dir_path (fr_hash fr) ∈ dirs (run EVP events initial) \/ mkdir_ok env = true ->
      files (step EVP (resume pid (pipes_drained out err exit_code env))
                  (run EVP events initial))
        !! file_path (dir_path (fr_hash fr)) (fr_hash fr) ".out" = None
      /\ ~ (dir_path (fr_hash fr)
            ∈ dirs (step EVP (resume pid (pipes_drained out err exit_code env))
                         (run EVP events initial)))
      /\ ledger (step EVP (resume pid (pipes_drained out err exit_code env))
                      (run EVP events initial))
         = ledger (run EVP events initial)
           ++ [ObsCallback ec_default (fr_hash fr); ObsErase (fr_hash fr)]).
Proof.
  intros Hfr Hat Hofs Hc Hin Hne.
  pose proof (invariant_run EVP events) as (_ & _ & Htidy).
  split; [by apply streamed_then_reported|]. split.
  - intros Hdump.
    destruct (nonzero_exit_dump pid fr path c out err exit_code env _
                Hfr Hat Hofs Hc Hne Hdump) as (Hf1 & Hfr1 & Hc1 & Ht1).
    change (step EVP (resume pid (pipes_drained out err exit_code env))
                 (run EVP events initial))
      with (exec (execute pid (pipes_drained out err exit_code env))
                 (run EVP events initial)).
    set (w1 := exec (execute pid (pipes_drained out err exit_code env))
                    (run EVP events initial)) in *.
    assert (Hl1 : ledger w1 = ledger (run EVP events initial)).
    { unfold ledger. rewrite Ht1, List.filter_app. simpl. by rewrite app_nil_r. }
    split; [done|]. split; [done|]. intros dumpId.
    assert (Htidy1 : tidy w1).
    { pose proof (invariant_run EVP
                    (events ++ [resume pid (pipes_drained out err exit_code env)]))
        as (_ & _ & Ht).
      by rewrite run_snoc in Ht. }
    destruct (dump_reply_completes pid (suspend_at DumpCall (set_ofs None fr)) dumpId w1)
      as (Hf2 & _ & _ & Hl2); [done| |done| |].
    + rewrite Hfr1. rewrite list_lookup_insert_eq; [done|]. by eapply lookup_lt_Some.
    + simpl. by rewrite Hc1.
    + change (step EVP (resume pid (dump_reply (Some dumpId))) w1)
        with (exec (execute pid (dump_reply (Some dumpId))) w1).
      rewrite Hf2, Hl2, Hl1. done.
  - intros Hdump Hrm Hdir.
    destruct (nonzero_exit_no_dump pid fr out err exit_code env _
                Htidy Hfr Hat Hdump Hrm Hdir Hin) as (Hf1 & Hd1 & _ & _ & Hl1).
    done.
Qed.

Lemma C9_witness :
  (files (step EVP_sha256_ok (resume 0 (dump_reply (Some "7")))
            (step EVP_sha256_ok (resume 0 (pipes_drained demo_out demo_err 1 fs_ok))
                  (run EVP_sha256_ok demo_running_dump initial))) !! demo_output
   = Some ("" +:+ captured demo_out demo_err +:+ diagnostic 1)
   /\ ledger (step EVP_sha256_ok (resume 0 (dump_reply (Some "7")))
                (step EVP_sha256_ok (resume 0 (pipes_drained demo_out demo_err 1 fs_ok))
                      (run EVP_sha256_ok demo_running_dump initial)))
      = ledger (run EVP_sha256_ok demo_running_dump initial)
        ++ [ObsCallback ec_default (fr_hash demo_dump_frame);
            ObsErase (fr_hash demo_dump_frame)])
  /\ (files (step EVP_sha256_ok (resume 0 (pipes_drained demo_out demo_err 1 fs_ok))
                  (run EVP_sha256_ok demo_running initial))
        !! file_path (dir_path (fr_hash demo_spawned_frame)) (fr_hash demo_spawned_frame)
                     ".out" = None
      /\ ~ (dir_path (fr_hash demo_spawned_frame)
            ∈ dirs (step EVP_sha256_ok (resume 0 (pipes_drained demo_out demo_err 1 fs_ok))
                         (run EVP_sha256_ok demo_running initial)))
      /\ ledger (step EVP_sha256_ok (resume 0 (pipes_drained demo_out demo_err 1 fs_ok))
                      (run EVP_sha256_ok demo_running initial))
         = ledger (run EVP_sha256_ok demo_running initial)
           ++ [ObsCallback ec_default (fr_hash demo_spawned_frame);
               ObsErase (fr_hash demo_spawned_frame)]).
Proof.
  split.
  - destruct (C9_nonzero_exit_line_appended_callback_default EVP_sha256_ok
                demo_running_dump 0 demo_dump_frame demo_output "" demo_out demo_err 1 fs_ok)
      as (_ & Hdump & _).
    + vm_compute. reflexivity.
    + reflexivity.
    + reflexivity.
    + vm_compute. reflexivity.
    + vm_compute. by eexists.
    + lia.
    + destruct (Hdump eq_refl) as (_ & _ & Hreply). exact (Hreply "7").
  - destruct (C9_nonzero_exit_line_appended_callback_default EVP_sha256_ok
                demo_running 0 demo_spawned_frame demo_output "" demo_out demo_err 1 fs_ok)
      as (_ & _ & Hnone).
    + vm_compute. reflexivity.
    + reflexivity.
    + reflexivity.
    + vm_compute. reflexivity.
    + vm_compute. by eexists.
    + lia.
    + exact (Hnone eq_refl eq_refl (or_intror eq_refl)).
Defined.

(** ** A job followed from [runScript] on *)

(** C4 as stated fails: the callback of a job cancelled through the
    [cancel] method, and of one cancelled by its timer, gets the same
    error code as the callback of a job whose child ran to its end. *)
Lemma C4_counterexample :
  callback_codes "id123" job_cancelled = [ec_default]
  /\ callback_codes "id123" job_timed_out = [ec_default]
  /\ callback_codes "id123" job_completed = [ec_default]
  /\ ~ (exists ec, ec_set ec = true
                   /\ (ec ∈ callback_codes "id123" job_cancelled
                       \/ ec ∈ callback_codes "id123" job_timed_out)).
Proof.
  assert (H1 : callback_codes "id123" job_cancelled = [ec_default])
    by (vm_compute; reflexivity).
  assert (H2 : callback_codes "id123" job_timed_out = [ec_default])
    by (vm_compute; reflexivity).
  split; [exact H1|]. split; [exact H2|]. split; [vm_compute; reflexivity|].
  rewrite H1, H2. intros (ec & Hset & [Hin|Hin]);
    (apply elem_of_cons in Hin as [->|Hin]; [discriminate Hset|by apply elem_of_nil in Hin]).
Qed.

(** C9 as stated fails when no dump is requested: the child exits with
    code 3, the callback is invoked with the default error code, and the
    output file, with the directory of the job, is gone. *)
Lemma C9_counterexample :
  files job_streaming !! "/tmp/acf/id123/id123.out" = Some EmptyString
  /\ callback_codes "id123" job_failed = [ec_default]
  /\ files job_failed !! "/tmp/acf/id123/id123.out" = None
  /\ ~ ("/tmp/acf/id123" ∈ dirs job_failed)
  /\ ~ (exists c, files job_failed !! "/tmp/acf/id123/id123.out" = Some c).
Proof.
  repeat (split; [vm_compute; reflexivity|]).
  split; [intros H; vm_compute in H; discriminate H|].
  intros [c Hc]. vm_compute in Hc. discriminate Hc.
Qed.

(** ** C10: what salting with the clock gives *)

Lemma unhex_hex_byte b rest : unhex_byte (hex_byte b +:+ rest) = Some b.
Proof. by destruct b. Qed.

Lemma hex_string_inj (d1 d2 : list byte) :
  hex_string d1 = hex_string d2 -> d1 = d2.
Proof.
  revert d2. induction d1 as [|b1 d1 IH]; intros [|b2 d2]; simpl; try done.
  intros Heq.
  assert (Hb : Some b1 = Some b2).
  { rewrite <- (unhex_hex_byte b1 (hex_string d1)), Heq. apply unhex_hex_byte. }
  injection Hb as ->. f_equal. apply IH.
  change (String (hex_digit (Byte.to_N b2 / 16))
              (String (hex_digit (Byte.to_N b2 mod 16)) (hex_string d1))
            = String (hex_digit (Byte.to_N b2 / 16))
                (String (hex_digit (Byte.to_N b2 mod 16)) (hex_string d2))) in Heq.
  by injection Heq.
Qed.

Lemma hex_string_length d : String.length (hex_string d) = (2 * length d)%nat.
Proof.
  induction d as [|b d IH]; [done|].
  change (S (S (String.length (hex_string d))) = (2 * S (length d))%nat). lia.
Qed.

Lemma hex_string_take (k : nat) (d : list byte) :
  (k <= length d)%nat ->
  String.substring 0 (2 * k) (hex_string d) = hex_string (take k d).
Proof.
  revert d. induction k as [|k IH]; intros d Hk.
  - simpl. by destruct (hex_string d).
  - destruct d as [|b d]; [simpl in Hk; lia|].
    replace (2 * S k)%nat with (S (S (2 * k))) by lia.
    change (String (hex_digit (Byte.to_N b / 16))
              (String (hex_digit (Byte.to_N b mod 16))
                 (String.substring 0 (2 * k) (hex_string d)))
            = String (hex_digit (Byte.to_N b / 16))
                (String (hex_digit (Byte.to_N b mod 16)) (hex_string (take k d)))).
    rewrite IH; [done|]. simpl in Hk. lia.
Qed.

(** With a digest of 8 bytes or more, the id is the hex form of its
    first 8 bytes. *)
Lemma restrict_hash_hex d :
  (8 <= length d)%nat -> restrict_hash (hex_string d) = hex_string (take 8 d).
Proof.
  intros Hlen. unfold restrict_hash, maxHashLen. rewrite hex_string_length.
  destruct (16 <? 2 * length d)%nat eqn:Hlt.
  - by apply (hex_string_take 8).
  - apply Nat.ltb_ge in Hlt. rewrite take_ge by lia. done.
Qed.

Lemma to_int_read_back t :
  NilZero.int_of_string (NilZero.string_of_int (Z.to_int t)) = Some (Z.to_int t).
Proof.
  apply NilZero.isi; destruct t as [|p|p]; simpl; try discriminate;
    intros [= H]; by apply (Unsigned.to_uint_nonnil p).
Qed.

Lemma to_string_inj t1 t2 : to_string t1 = to_string t2 -> t1 = t2.
Proof.
  unfold to_string. intros Heq. apply DecimalZ.to_int_inj.
  assert (Hint : Some (Z.to_int t1) = Some (Z.to_int t2)); [|by injection Hint].
  rewrite <- !to_int_read_back. by rewrite Heq.
Qed.

Lemma append_length (a b : string) :
  String.length (a +:+ b) = (String.length a + String.length b)%nat.
Proof.
  induction a as [|x a IH]; [done|].
  change (S (String.length (a +:+ b)) = S (String.length a + String.length b)). by rewrite IH.
Qed.

Lemma append_inv_tail (a b c : string) : a +:+ c = b +:+ c -> a = b.
Proof.
  revert b. induction a as [|x a IH]; intros [|y b] Heq.
  - done.
  - apply (f_equal String.length) in Heq. rewrite !append_length in Heq. simpl in Heq. lia.
  - apply (f_equal String.length) in Heq. rewrite !append_length in Heq. simpl in Heq. lia.
  - change (String x (a +:+ c) = String y (b +:+ c)) in Heq.
    injection Heq as -> Heq. f_equal. by apply IH.
Qed.

(** C10 (amended).  Two submissions of the same script body at different
    clock readings hash different strings.  The two ids are the hex forms
    of the first 8 bytes of the two digests: they differ unless these 8
    bytes are the same. *)
Theorem C10_ids_differ_unless_digest_prefixes_agree
    (EVP : string -> option (list byte)) t1 t2 script d1 d2 :
  t1 <> t2 ->
  EVP (to_string t1 +:+ "_" +:+ script) = Some d1 ->
  EVP (to_string t2 +:+ "_" +:+ script) = Some d2 ->
  (8 <= length d1)%nat ->
  (8 <= length d2)%nat ->
  to_string t1 +:+ "_" +:+ script <> to_string t2 +:+ "_" +:+ script
  /\ makeScriptId EVP t1 script = Some (hex_string (take 8 d1))
  /\ makeScriptId EVP t2 script = Some (hex_string (take 8 d2))
  /\ (makeScriptId EVP t1 script = makeScriptId EVP t2 script <-> take 8 d1 = take 8 d2).
Proof.
  intros Hne H1 H2 Hl1 Hl2.
  assert (Hid1 : makeScriptId EVP t1 script = Some (hex_string (take 8 d1))).
  { unfold makeScriptId, makeHash. rewrite H1. by rewrite restrict_hash_hex. }
  assert (Hid2 : makeScriptId EVP t2 script = Some (hex_string (take 8 d2))).
  { unfold makeScriptId, makeHash. rewrite H2. by rewrite restrict_hash_hex. }
  split; [|split; [done|split; [done|]]].
  - intros Heq. apply Hne, to_string_inj. by apply (append_inv_tail _ _ ("_" +:+ script)).
  - rewrite Hid1, Hid2. split.
    + intros [= Heq]. by apply hex_string_inj.
    + by intros ->.
Qed.

Lemma C10_witness :
  to_string 1700000000 +:+ "_" +:+ "echo Hello" <> to_string 1700000001 +:+ "_" +:+ "echo Hello"
  /\ makeScriptId EVP_sha256_ok 1700000000 "echo Hello"
     = Some (hex_string (take 8 (SHA256.digest "1700000000_echo Hello")))
  /\ makeScriptId EVP_sha256_ok 1700000001 "echo Hello"
     = Some (hex_string (take 8 (SHA256.digest "1700000001_echo Hello")))
  /\ (makeScriptId EVP_sha256_ok 1700000000 "echo Hello"
      = makeScriptId EVP_sha256_ok 1700000001 "echo Hello"
      <-> take 8 (SHA256.digest "1700000000_echo Hello")
          = take 8 (SHA256.digest "1700000001_echo Hello")).
Proof.
  apply (C10_ids_differ_unless_digest_prefixes_agree EVP_sha256_ok 1700000000 1700000001
           "echo Hello").
  - lia.
  - vm_compute. reflexivity.
  - vm_compute. reflexivity.
  - vm_compute. lia.
  - vm_compute. lia.
Defined.

(** C10 as stated fails: the script body [echo Hello] submitted at the
    clock readings 6430592396 and 6533676850, both of which the system
    clock can give, gets the same id twice, because the two SHA-256
    digests start with the same 8 bytes. *)
Lemma C10_counterexample :
  int64 6430592396000000000
  /\ int64 6533676850000000000
  /\ to_time_t 6430592396000000000 = 6430592396
  /\ to_time_t 6533676850000000000 = 6533676850
  /\ 6430592396 <> 6533676850
  /\ hex_string (SHA256.digest "6430592396_echo Hello")
     = "f5986d1501abe11dc3e6543facdde7957369355bd91e9f1e0349f1c8cf47e50c"
  /\ hex_string (SHA256.digest "6533676850_echo Hello")
     = "f5986d1501abe11da8b0b1b0944ad4ee7cfca7e7a06dc04893cee1dfa33d9dab"
  /\ makeScriptId EVP_sha256_ok (to_time_t 6430592396000000000) "echo Hello"
     = Some "f5986d1501abe11d"
  /\ makeScriptId EVP_sha256_ok (to_time_t 6533676850000000000) "echo Hello"
     = Some "f5986d1501abe11d".
Proof.
  split; [unfold int64; lia|]. split; [unfold int64; lia|].
  split; [reflexivity|]. split; [reflexivity|]. split; [lia|].
  vm_compute. repeat split.
Qed.

(** * The logger, the command line, and more of the job engine *)

(** ** The logger *)

Lemma lines_app rs1 rs2 : lines (rs1 ++ rs2) = lines rs1 +:+ lines rs2.
Proof.
  induction rs1 as [|r rs1 IH]; [done|].
  simpl. rewrite IH. by rewrite append_assoc.
Qed.

Lemma perform_all_snoc cs c st :
  Logging.perform_all (cs ++ [c]) st = Logging.perform c (Logging.perform_all cs st).
Proof. unfold Logging.perform_all. by rewrite fold_left_app. Qed.

(** X1.  Under a fixed level, a sequence of [log] calls adds to the stream
    the lines of exactly those records whose level is at least the
    current one, in the order of the calls, and leaves the level alone. *)
Theorem log_writes_records_at_or_above_level lg rs output :
  Logging.perform_all (map log_call rs) (lg, output)
  = (lg, output +:+ lines (List.filter (at_least (Logging.currentLogLevel lg))
                                       (logged (map log_call rs)))).
Proof.
  induction rs as [|r rs IH] using rev_ind.
  - simpl. by rewrite append_empty.
  - rewrite map_app. simpl. rewrite perform_all_snoc, IH.
    unfold logged. rewrite omap_app. simpl. rewrite List.filter_app. simpl.
    unfold Logging.log, Logging.isLogLevelEnabled, at_least. simpl.
    destruct (Logging.rank (Logging.currentLogLevel lg) <=? Logging.rank r.1.2).
    + rewrite lines_app. simpl. rewrite append_empty. by rewrite append_assoc.
    + by rewrite app_nil_r.
Qed.

(** X2.  Whatever levels [setLogLevel] sets in between, the stream only
    grows, by the lines of a subsequence of the records logged, and no
    record of level [ERROR] is left out. *)
Theorem log_never_drops_an_error cs lg output :
  exists kept,
    kept `sublist_of` logged cs
    /\ List.filter is_error (logged cs) `sublist_of` kept
    /\ (Logging.perform_all cs (lg, output)).2 = output +:+ lines kept.
Proof.
  induction cs as [|c cs IH] using rev_ind.
  - exists []. simpl. by rewrite append_empty.
  - destruct IH as (kept & Hsub & Herr & Hout).
    rewrite perform_all_snoc.
    destruct (Logging.perform_all cs (lg, output)) as [lg' out']. simpl in Hout. subst out'.
    unfold logged. rewrite omap_app. fold (logged cs).
    destruct c as [filename lineNumber level message|level]; simpl.
    + rewrite List.filter_app. simpl.
      unfold Logging.log, Logging.isLogLevelEnabled.
      destruct (Logging.rank (Logging.currentLogLevel lg') <=? Logging.rank level) eqn:Hle.
      * exists (kept ++ [(level, Logging.line filename lineNumber message)]).
        split; [by apply sublist_app|]. split.
        { apply sublist_app; [done|]. unfold is_error. simpl.
          destruct level; try apply sublist_nil_l; done. }
        rewrite lines_app. simpl. rewrite append_empty. by rewrite append_assoc.
      * exists kept. split; [by apply sublist_inserts_r|]. split; [|done].
        unfold is_error. simpl.
        destruct level; rewrite ?app_nil_r; try done.
        destruct (Logging.currentLogLevel lg'); discriminate Hle.
    + exists kept. by rewrite !app_nil_r.
Qed.

(** ** The command line *)

(** The entry the walk stops at: the one of the option, or the
    terminating one. *)
Lemma find_cases o :
  (o = Argument.char "t"
   /\ Argument.find o = Argument.mkOption (Some "type") 1 (Argument.char "t"))
  \/ (o = Argument.char "e"
      /\ Argument.find o = Argument.mkOption (Some "endpoint") 1 (Argument.char "e"))
  \/ (o = Argument.char "p"
      /\ Argument.find o = Argument.mkOption (Some "path") 1 (Argument.char "p"))
  \/ (o = Argument.char "u"
      /\ Argument.find o = Argument.mkOption (Some "unit") 2 (Argument.char "u"))
  \/ (o = Argument.char "h"
      /\ Argument.find o = Argument.mkOption (Some "help") 0 (Argument.char "h"))
  \/ ((o ∉ [Argument.char "t"; Argument.char "e"; Argument.char "p"; Argument.char "u";
            Argument.char "h"])
      /\ Argument.find o = Argument.mkOption None 0 0).
Proof.
  unfold Argument.find, Argument.options, Argument.walk. cbn.
  destruct (Z.eqb_spec (Argument.char "t") o) as [<-|Ht]; [by left|].
  destruct (Z.eqb_spec (Argument.char "e") o) as [<-|He]; [by right; left|].
  destruct (Z.eqb_spec (Argument.char "p") o) as [<-|Hp]; [by do 2 right; left|].
  destruct (Z.eqb_spec (Argument.char "u") o) as [<-|Hu]; [by do 3 right; left|].
  destruct (Z.eqb_spec (Argument.char "h") o) as [<-|Hh]; [by do 4 right; left|].
  do 5 right. split.
  - rewrite !elem_of_cons, elem_of_nil. intros [?|[?|[?|[?|[?|[]]]]]]; congruence.
  - cbn. by repeat case_match.
Qed.

Lemma parse_app argv0 rs1 rs2 arguments :
  Argument.parse argv0 (rs1 ++ rs2) arguments
  = match Argument.parse argv0 rs1 arguments with
    | Argument.constructed arguments1 => Argument.parse argv0 rs2 arguments1
    | outcome => outcome
    end.
Proof.
  revert arguments. induction rs1 as [|[o a] rs1 IH]; intros arguments; simpl.
  - by destruct (Argument.parse argv0 rs2 arguments).
  - destruct ((o =? Argument.char "?") || (o =? Argument.char "h")); [done|].
    destruct (Argument.val (Argument.find o) =? 0); [apply IH|].
    destruct (if Argument.has_arg (Argument.find o) =? 0
              then Some Argument.true_string else a); [|done].
    destruct (Argument.name (Argument.find o)); [apply IH|done].
Qed.

(** One occurrence: what the body of the loop does with it. *)
Lemma parse_one argv0 o a arguments :
  Argument.parse argv0 [(o, a)] arguments
  = if decide (o = Argument.char "?" \/ o = Argument.char "h")
    then Argument.exited (-1) (Argument.usage argv0)
    else if decide (o = Argument.char "t") then
      match a with
      | Some value => Argument.constructed (<["type" := value]> arguments)
      | None => Argument.string_from_null
      end
    else if decide (o = Argument.char "e") then
      match a with
      | Some value => Argument.constructed (<["endpoint" := value]> arguments)
      | None => Argument.string_from_null
      end
    else if decide (o = Argument.char "p") then
      match a with
      | Some value => Argument.constructed (<["path" := value]> arguments)
      | None => Argument.string_from_null
      end
    else if decide (o = Argument.char "u") then
      match a with
      | Some value => Argument.constructed (<["unit" := value]> arguments)
      | None => Argument.string_from_null
      end
    else Argument.constructed arguments.
Proof.
  simpl. destruct (Z.eqb_spec o (Argument.char "?")) as [->|Hq]; [done|].
  destruct (Z.eqb_spec o (Argument.char "h")) as [->|Hh]; [done|].
  rewrite decide_False by (intros [?|?]; done). simpl.
  destruct (find_cases o) as [[-> ->]|[[-> ->]|[[-> ->]|[[-> ->]|[[-> _]|[Hnone ->]]]]]];
    try done.
  simpl. repeat case_decide; try done; subst; exfalso; apply Hnone;
    rewrite !elem_of_cons; auto.
Qed.

Lemma accepted_one argv0 o a arguments :
  (exists arguments', Argument.parse argv0 [(o, a)] arguments
                      = Argument.constructed arguments')
  <-> accepted (o, a).
Proof.
  rewrite parse_one. unfold accepted. simpl.
  rewrite !elem_of_cons, elem_of_nil.
  destruct (decide (o = Argument.char "?" \/ o = Argument.char "h")) as [Hx|Hx].
  { split; [by intros [? [=]]|]. intros (Hq & Hh & _). tauto. }
  assert (Hq : o <> Argument.char "?") by tauto.
  assert (Hh : o <> Argument.char "h") by tauto.
  destruct a as [value|].
  - split; [|repeat case_decide; eauto].
    intros _. split; [done|]. split; [done|]. by eexists.
  - split.
    + intros [arguments' Heq]. split; [done|]. split; [done|].
      intros Hin. repeat case_decide; try discriminate Heq.
      destruct Hin as [?|[?|[?|[?|[]]]]]; done.
    + intros (_ & _ & Hsome).
      repeat case_decide; eauto; destruct Hsome as [? [=]]; auto.
Qed.

Lemma parse_accepted argv0 results arguments :
  (exists arguments', Argument.parse argv0 results arguments
                      = Argument.constructed arguments')
  <-> Forall accepted results.
Proof.
  revert arguments. induction results as [|[o a] results IH]; intros arguments.
  - split; [done|]. intros _. by eexists.
  - change ((o, a) :: results) with ([(o, a)] ++ results).
    rewrite parse_app, Forall_app, Forall_singleton, <- accepted_one.
    split.
    + intros [arguments' Heq].
      destruct (Argument.parse argv0 [(o, a)] arguments) as [arguments1| |] eqn:H1;
        try done.
      split; [by eexists|]. apply (IH arguments1). by eexists.
    + intros [[arguments1 H1] Hrest]. rewrite H1. by apply IH.
Qed.

(** X3.  The constructor returns with the object built exactly when no
    occurrence is [?] or [h] and every occurrence of [t], [e], [p] or [u]
    comes with an argument. *)
Theorem ArgumentParser_constructs_iff_all_accepted argv0 results :
  (exists arguments, Argument.ArgumentParser argv0 results = Argument.constructed arguments)
  <-> Forall accepted results.
Proof. apply parse_accepted. Qed.

Lemma last_optarg_snoc o results r :
  last_optarg o (results ++ [r])
  = if r.1 =? o then r.2 else last_optarg o results.
Proof.
  unfold last_optarg. rewrite List.filter_app. simpl.
  destruct (r.1 =? o); [|by rewrite app_nil_r].
  by rewrite last_snoc.
Qed.

Lemma index_insert arguments key value opt :
  Argument.index (<[key := value]> arguments) opt
  = if decide (opt = key) then value else Argument.index arguments opt.
Proof.
  unfold Argument.index. case_decide as Heq.
  - subst. by rewrite lookup_insert_eq.
  - by rewrite lookup_insert_ne.
Qed.

(** What [operator[]] answers after the loop went through [results],
    starting from [arguments]. *)
Lemma parse_index argv0 results arguments arguments' :
  Argument.parse argv0 results arguments = Argument.constructed arguments' ->
  forall opt,
    Argument.index arguments' opt
    = default (Argument.index arguments opt)
        (if decide (opt = "type") then last_optarg (Argument.char "t") results
         else if decide (opt = "endpoint") then last_optarg (Argument.char "e") results
         else if decide (opt = "path") then last_optarg (Argument.char "p") results
         else if decide (opt = "unit") then last_optarg (Argument.char "u") results
         else None).
Proof.
  revert arguments'. induction results as [|[o a] results IH] using rev_ind;
    intros arguments' Heq opt.
  - injection Heq as <-. by repeat case_decide.
  - rewrite parse_app in Heq.
    destruct (Argument.parse argv0 results arguments) as [arguments1| |] eqn:H1; try done.
    specialize (IH _ eq_refl opt). rewrite parse_one in Heq.
    rewrite !last_optarg_snoc. cbn [fst snd].
    destruct (decide (o = Argument.char "?" \/ o = Argument.char "h")); [done|].
    destruct (decide (o = Argument.char "t")) as [->|Ht].
    { destruct a as [value|]; [|done]. injection Heq as <-.
      rewrite index_insert, IH. repeat case_decide; subst; try done; reflexivity. }
    destruct (decide (o = Argument.char "e")) as [->|He].
    { destruct a as [value|]; [|done]. injection Heq as <-.
      rewrite index_insert, IH. repeat case_decide; subst; try done; reflexivity. }
    destruct (decide (o = Argument.char "p")) as [->|Hp].
    { destruct a as [value|]; [|done]. injection Heq as <-.
      rewrite index_insert, IH. repeat case_decide; subst; try done; reflexivity. }
    destruct (decide (o = Argument.char "u")) as [->|Hu].
    { destruct a as [value|]; [|done]. injection Heq as <-.
      rewrite index_insert, IH. repeat case_decide; subst; try done; reflexivity. }
    injection Heq as <-. rewrite IH.
    destruct (Z.eqb_spec o (Argument.char "t")); [done|].
    destruct (Z.eqb_spec o (Argument.char "e")); [done|].
    destruct (Z.eqb_spec o (Argument.char "p")); [done|].
    destruct (Z.eqb_spec o (Argument.char "u")); [done|].
    done.
Qed.

(** X4.  Once the object is built, [operator[]] answers, for [type],
    [endpoint], [path] and [unit], the argument of the last occurrence of
    the option, and the empty string if there is none; for every other
    name, [help] included, it answers the empty string. *)
Theorem ArgumentParser_index_last_occurrence argv0 results arguments :
  Argument.ArgumentParser argv0 results = Argument.constructed arguments ->
  Argument.index arguments "type"
  = default Argument.empty_string (last_optarg (Argument.char "t") results)
  /\ Argument.index arguments "endpoint"
     = default Argument.empty_string (last_optarg (Argument.char "e") results)
  /\ Argument.index arguments "path"
     = default Argument.empty_string (last_optarg (Argument.char "p") results)
  /\ Argument.index arguments "unit"
     = default Argument.empty_string (last_optarg (Argument.char "u") results)
  /\ (forall opt, opt ∉ ["type"; "endpoint"; "path"; "unit"] ->
                  Argument.index arguments opt = Argument.empty_string).
Proof.
  intros Heq. pose proof (parse_index _ _ _ _ Heq) as Hindex.
  repeat split; try (rewrite Hindex; reflexivity).
  intros opt Hopt. rewrite Hindex.
  rewrite !decide_False; [done|..]; intros ->; apply Hopt; rewrite !elem_of_cons; auto.
Qed.

Lemma ArgumentParser_index_witness :
  Argument.index (<["unit" := "nginx"]> (<["type" := "client"]> ∅)) "type"
  = default Argument.empty_string
      (last_optarg (Argument.char "t")
         [(Argument.char "t", Some "server"); (Argument.char "u", Some "nginx");
          (Argument.char "t", Some "client")])
  /\ Argument.index (<["unit" := "nginx"]> (<["type" := "client"]> ∅)) "path"
     = Argument.empty_string.
Proof.
  destruct (ArgumentParser_index_last_occurrence "certs"
              [(Argument.char "t", Some "server"); (Argument.char "u", Some "nginx");
               (Argument.char "t", Some "client")]
              (<["unit" := "nginx"]> (<["type" := "client"]> ∅)))
    as (Htype & _ & Hpath & _).
  - vm_compute. reflexivity.
  - split; [exact Htype|exact Hpath].
Defined.

(** X5.  An occurrence of [?] or [h] after accepted ones makes the
    constructor print the usage text and call [exit(-1)]; what follows it
    on the command line is not looked at. *)
Theorem ArgumentParser_help_exits argv0 before o a after :
  Forall accepted before ->
  o = Argument.char "?" \/ o = Argument.char "h" ->
  Argument.ArgumentParser argv0 (before ++ (o, a) :: after)
  = Argument.exited (-1) (Argument.usage argv0).
Proof.
  intros Hbefore Ho. unfold Argument.ArgumentParser.
  apply (parse_accepted argv0 before ∅) in Hbefore as [arguments Heq].
  rewrite parse_app, Heq.
  change ((o, a) :: after) with ([(o, a)] ++ after).
  rewrite parse_app, parse_one. by rewrite decide_True.
Qed.

Lemma ArgumentParser_help_witness :
  Argument.ArgumentParser "certs"
    ([(Argument.char "t", Some "client")]
     ++ (Argument.char "h", None) :: [(Argument.char "p", Some "/etc/ssl")])
  = Argument.exited (-1) (Argument.usage "certs").
Proof.
  apply ArgumentParser_help_exits.
  - repeat constructor; try discriminate. by eexists.
  - by right.
Defined.

(** X6.  An occurrence of [t], [e], [p] or [u] that [getopt_long] leaves
    without an argument, after accepted ones, makes the constructor build
    a [std::string] from a null pointer. *)
Theorem ArgumentParser_null_optarg argv0 before o after :
  Forall accepted before ->
  o ∈ [Argument.char "t"; Argument.char "e"; Argument.char "p"; Argument.char "u"] ->
  Argument.ArgumentParser argv0 (before ++ (o, None) :: after) = Argument.string_from_null.
Proof.
  intros Hbefore Ho. unfold Argument.ArgumentParser.
  apply (parse_accepted argv0 before ∅) in Hbefore as [arguments Heq].
  rewrite parse_app, Heq.
  change ((o, None) :: after) with ([(o, @None string)] ++ after).
  rewrite parse_app, parse_one.
  rewrite !elem_of_cons, elem_of_nil in Ho.
  destruct Ho as [->|[->|[->|[->|[]]]]]; reflexivity.
Qed.

Lemma ArgumentParser_null_optarg_witness :
  Argument.ArgumentParser "certs"
    ([(Argument.char "t", Some "client")] ++ (Argument.char "u", None) :: [])
  = Argument.string_from_null.
Proof.
  apply ArgumentParser_null_optarg.
  - repeat constructor; try discriminate. by eexists.
  - rewrite !elem_of_cons. auto.
Defined.

(** ** The destructor of ScriptRunner *)




Lemma emits_emits evs1 evs2 w : emits evs2 (emits evs1 w) = emits (evs1 ++ evs2) w.
Proof. unfold emits. simpl. by rewrite app_assoc. Qed.



(** ** [startDump] while the dump service fails *)

Lemma run_app EVP events1 events2 w :
  run EVP (events1 ++ events2) w = run EVP events2 (run EVP events1 w).
Proof. unfold run. by rewrite fold_left_app. Qed.

Lemma dump_retry_round EVP pid fr w :
  frames w !! pid = Some fr ->
  fr_at fr = DumpCall ->
  run EVP [resume pid (dump_reply None); resume pid backoff_expired] w
  = emit (ObsCreateDump (fr_hash fr)) w.
Proof.
  intros Hfr Hat. simpl. unfold exec at 2. unfold execute at 2. rewrite Hfr, Hat.
  unfold execute_try, execute_dump_reply. munfold. simpl.
  unfold exec, execute. simpl.
  rewrite list_lookup_alter_eq, Hfr. simpl.
  unfold execute_try, execute_backoff. munfold. simpl.
  unfold update_frame, emit, with_frames. simpl.
  rewrite (alter_as_insert (suspend_at DumpBackoff) (frames w) pid fr Hfr).
  rewrite (alter_as_insert (suspend_at DumpCall) _ pid (suspend_at DumpBackoff fr))
    by (rewrite list_lookup_insert_eq; [done|by eapply lookup_lt_Some]).
  rewrite list_insert_insert_eq.
  assert (Hsame : suspend_at DumpCall (suspend_at DumpBackoff fr) = fr)
    by (destruct fr; simpl in Hat; by subst).
  rewrite Hsame, list_insert_id by done. by destruct w.
Qed.

(** X8.  [startDump] never gives up: after any number [n] of error
    replies to [CreateDump], each followed by the 20 s wait, the coroutine
    is waiting for a reply again, it has sent [n] more calls, and nothing
    else has changed: the job is still in the job table and no callback
    was invoked. *)
Theorem startDump_retries_without_bound EVP pid fr n w :
  frames w !! pid = Some fr ->
  fr_at fr = DumpCall ->
  run EVP (dump_unavailable pid n) w
  = emits (replicate n (ObsCreateDump (fr_hash fr))) w.
Proof.
  intros Hfr Hat. revert w Hfr. induction n as [|n IH]; intros w Hfr.
  - unfold emits. simpl. rewrite app_nil_r. by destruct w.
  - unfold dump_unavailable. simpl replicate. simpl concat.
    change (resume pid (dump_reply None) :: resume pid backoff_expired
            :: concat (replicate n [resume pid (dump_reply None); resume pid backoff_expired]))
      with ([resume pid (dump_reply None); resume pid backoff_expired]
            ++ dump_unavailable pid n).
    rewrite run_app, (dump_retry_round EVP pid fr w Hfr Hat), IH by done.
    unfold emits, emit. simpl. by rewrite <- app_assoc.
Qed.

Lemma startDump_retries_witness :
  run EVP_sha256_ok (dump_unavailable 0 3)
      (run EVP_sha256_ok
           (demo_running_dump ++ [resume 0 (pipes_drained demo_out demo_err 0 fs_ok)])
           initial)
  = emits (replicate 3 (ObsCreateDump "29242177a4a07f0b"))
      (run EVP_sha256_ok
           (demo_running_dump ++ [resume 0 (pipes_drained demo_out demo_err 0 fs_ok)])
           initial).
Proof.
  refine (startDump_retries_without_bound EVP_sha256_ok 0
            (mkFrame "/tmp/acf/29242177a4a07f0b/29242177a4a07f0b.sh" "29242177a4a07f0b"
                     true None None DumpCall) 3 _ _ _).
  - vm_compute. reflexivity.
  - reflexivity.
Defined.

(** ** What [writeResult] writes and returns *)

Lemma os_write_elsewhere os s w p :
  os <> Some p -> files (os_write os s w) !! p = files w !! p.
Proof.
  intros Hne. with_strategy transparent [os_write] unfold os_write.
  destruct os as [path|]; [|done]. simpl. apply lookup_alter_ne. congruence.
Qed.

Lemma write_reads_elsewhere reads os w p :
  os <> Some p -> files (write_reads reads os w) !! p = files w !! p.
Proof.
  intros Hne. revert w. induction reads as [|buf rest IH]; intros w; [done|].
  simpl. rewrite IH. by apply os_write_elsewhere.
Qed.

Lemma writeResult1_elsewhere ap os w p :
  os <> Some p -> files (writeResult1 ap os w).2 !! p = files w !! p.
Proof.
  intros Hne. with_strategy transparent [writeResult1] unfold writeResult1.
  destruct (last_end ap); simpl.
  - rewrite os_write_elsewhere by done. by apply write_reads_elsewhere.
  - by apply write_reads_elsewhere.
Qed.

Lemma writeResult1_returns ap os w :
  (writeResult1 ap os w).1
  = Ret (match last_end ap with at_eof => ec_default | at_error n => ec_failure n end).
Proof.
  with_strategy transparent [writeResult1] unfold writeResult1.
  by destruct (last_end ap).
Qed.

(** X9.  [writeResult(out, err, ofs)] appends to the file behind the
    stream what standard output delivered and then what standard error
    delivered, a read that fails with an error other than [eof] ending the
    copy without its bytes.  It returns the error of the first pipe whose
    reading failed and the default code otherwise, and changes no other
    file and nothing but files. *)
Theorem writeResult_appends_stdout_then_stderr out err os w :
  (writeResult out err os w).1 = Ret (result_code out err)
  /\ content os (writeResult out err os w).2
     = (fun c => c +:+ captured out err) <$> content os w
  /\ (forall p, os <> Some p ->
                files (writeResult out err os w).2 !! p = files w !! p)
  /\ storage_only w (writeResult out err os w).2
  /\ dirs (writeResult out err os w).2 = dirs w.
Proof.
  split; [|split; [apply writeResult_content|split; [|split]]].
  - with_strategy transparent [writeResult] unfold writeResult. munfold.
    pose proof (writeResult1_returns out os w) as H1.
    destruct (writeResult1 out os w) as [r1 w1]. simpl in H1. subst r1.
    unfold result_code. destruct (last_end out); [|done]. simpl.
    pose proof (writeResult1_returns err os w1) as H2.
    destruct (writeResult1 err os w1) as [r2 w2]. simpl in H2. subst r2.
    by destruct (last_end err).
  - intros p Hne. with_strategy transparent [writeResult] unfold writeResult. munfold.
    pose proof (writeResult1_elsewhere out os w p Hne) as H1.
    pose proof (writeResult1_returns out os w) as Hr1.
    destruct (writeResult1 out os w) as [r1 w1]. simpl in H1, Hr1. subst r1.
    destruct (last_end out); simpl; [|done].
    pose proof (writeResult1_elsewhere err os w1 p Hne) as H2.
    pose proof (writeResult1_returns err os w1) as Hr2.
    destruct (writeResult1 err os w1) as [r2 w2]. simpl in H2, Hr2. subst r2.
    destruct (last_end err); simpl; congruence.
  - apply storage_writeResult.
  - destruct (writeResult out err os w) as [r w'] eqn:Heq.
    apply writeResult_inv in Heq as (ec & f & -> & ->). done.
Qed.

(** ** Jobs do not share working storage *)









(** ** The form of a job id *)

Lemma is_hex_digit n : is_hex (hex_digit n) = true.
Proof.
  unfold hex_digit. repeat case_match; reflexivity.
Qed.

Lemma all_hex_hex_string d : all_hex (hex_string d) = true.
Proof.
  induction d as [|b d IH]; [done|].
  change (all_hex (String (hex_digit (Byte.to_N b / 16))
                     (String (hex_digit (Byte.to_N b mod 16)) (hex_string d))) = true).
  cbn [all_hex]. by rewrite !is_hex_digit, IH.
Qed.

Lemma substring_cons (n : nat) (c : ascii) (s : string) :
  String.substring 0 (S n) (String c s) = String c (String.substring 0 n s).
Proof. reflexivity. Qed.

Lemma all_hex_substring n s : all_hex s = true -> all_hex (String.substring 0 n s) = true.
Proof.
  revert s. induction n as [|n IH]; intros [|c s] Hs; try done.
  rewrite substring_cons. cbn [all_hex] in *.
  apply andb_prop in Hs as [-> Hs]. by rewrite IH.
Qed.

Lemma substring_length n s : (String.length (String.substring 0 n s) <= n)%nat.
Proof.
  revert s. induction n as [|n IH]; intros [|c s]; simpl; try lia.
  specialize (IH s). lia.
Qed.

Lemma all_hex_plain s : all_hex s = true -> plain s = true.
Proof.
  induction s as [|c s IH]; [done|]. cbn [all_hex plain].
  intros [Hc Hs]%andb_prop. rewrite IH by done.
  destruct (Ascii.eqb_spec c "/") as [->|]; [|done].
  vm_compute in Hc. discriminate Hc.
Qed.

(** X12.  Whatever bytes the digest primitive delivers, the id
    [makeHash] returns has at most 16 characters, all of them lowercase
    hexadecimal digits; it holds no path separator, so the directory of
    the job lies directly under [/tmp/acf]. *)
Theorem makeHash_id_is_short_hex (EVP : string -> option (list byte)) script id :
  makeHash EVP script = Some id ->
  (String.length id <= 16)%nat /\ all_hex id = true /\ plain id = true.
Proof.
  unfold makeHash. destruct (EVP script) as [hash|]; [|done]. intros [= <-].
  assert (Hhex : all_hex (restrict_hash (hex_string hash)) = true).
  { unfold restrict_hash. destruct (maxHashLen <? _)%nat.
    - apply all_hex_substring, all_hex_hex_string.
    - apply all_hex_hex_string. }
  split; [|split; [done|by apply all_hex_plain]].
  unfold restrict_hash, maxHashLen.
  destruct (16 <? String.length (hex_string hash))%nat eqn:Hlt.
  - apply substring_length.
  - by apply Nat.ltb_ge in Hlt.
Qed.

Lemma makeHash_id_witness :
  (String.length "ba7816bf8f01cfea" <= 16)%nat
  /\ all_hex "ba7816bf8f01cfea" = true /\ plain "ba7816bf8f01cfea" = true.
Proof.
  apply (makeHash_id_is_short_hex EVP_sha256_ok "abc").
  vm_compute. reflexivity.
Defined.

(** ** No published object is lost *)

#[global] Instance keeps_preorder held : PreOrder (keeps held).
Proof.
  split; [intros w H; exact H|]. intros w1 w2 w3 H12 H23 H. apply H23, H12, H.
Qed.

#[global] Instance aside_preorder : PreOrder aside.
Proof.
  split; [intros w; by split|].
  intros w1 w2 w3 [H12 H12'] [H23 H23']. split; [congruence|].
  intros x. destruct (H12' x), (H23' x). split; congruence.
Qed.

Lemma aside_keeps held w w' : aside w w' -> keeps held w w'.
Proof.
  intros [Hl Hc] Hb x. destruct (Hc x) as [-> ->].
  unfold registered, active. rewrite Hl. apply Hb.
Qed.

Lemma stable_weaken {A : Type} (R1 R2 : relation World) (m : M A) :
  (forall w w', R1 w w' -> R2 w w') -> stable R1 m -> stable R2 m.
Proof. intros Himp Hm w. apply Himp, Hm. Qed.

Lemma storage_only_aside w w' : storage_only w w' -> aside w w'.
Proof.
  intros (Hl & _ & _ & _ & Ht). split; [done|].
  intros x. unfold publishes, unpublishes. by rewrite Ht.
Qed.

Lemma aside_emit o w :
  (forall x, is_publish x o = false /\ is_unpublish x o = false) ->
  aside w (emit o w).
Proof.
  intros Ho. split; [done|]. intros x. destruct (Ho x) as [Hp Hu].
  unfold publishes, unpublishes. simpl. rewrite !count_app. simpl.
  rewrite Hp, Hu. lia.
Qed.

Lemma occurrences_app x l1 l2 :
  occurrences x (l1 ++ l2) = (occurrences x l1 + occurrences x l2)%nat.
Proof. unfold occurrences. by rewrite filter_app, length_app. Qed.

Lemma occurrences_cons x y l :
  occurrences x (y :: l) = ((if decide (y = x) then 1 else 0) + occurrences x l)%nat.
Proof.
  unfold occurrences. rewrite filter_cons. by case_decide.
Qed.

(** What [removeFromActive] does, to the letter. *)
Lemma removeFromActive_exact ec id w :
  (removeFromActive ec id w = (Ret false, w) /\ id ∉ active w)
  \/ (exists k iface,
        scriptIfaces w !! k = Some iface
        /\ data_id (data iface) = id
        /\ (forall j iface', scriptIfaces w !! j = Some iface' ->
                             data_id (data iface') = id -> (k <= j)%nat)
        /\ removeFromActive ec id w
           = (Ret true,
              emit (ObsUnpublish id) (with_scriptIfaces (delete k (scriptIfaces w)) w))).
Proof.
  with_strategy transparent [removeFromActive] unfold removeFromActive.
  destruct (list_find _ (scriptIfaces w)) as [[k iface]|] eqn:Hfind.
  - right. apply list_find_Some in Hfind as (Hk & Hid & Hfirst).
    exists k, iface. split; [done|]. split; [done|]. split.
    + intros j iface' Hj Hid'. destruct (decide (k <= j)%nat); [done|].
      exfalso. apply (Hfirst j iface'); [done|lia|done].
    + unfold ScriptIface_dtor. by rewrite Hid.
  - left. split; [done|]. apply list_find_None in Hfind.
    unfold active. intros Hin. apply list_elem_of_In, in_map_iff in Hin as (iface & Hid & Hin).
    apply list_elem_of_In in Hin. rewrite Forall_forall in Hfind. by apply (Hfind iface).
Qed.

Lemma active_delete k iface w :
  scriptIfaces w !! k = Some iface ->
  forall x,
    registered x w
    = ((if decide (data_id (data iface) = x) then 1 else 0)
       + registered x (with_scriptIfaces (delete k (scriptIfaces w)) w))%nat.
Proof.
  intros Hk x. unfold registered, active. simpl.
  rewrite <- (take_drop_middle _ _ _ Hk) at 1.
  rewrite delete_take_drop, !map_app, !occurrences_app. simpl map.
  rewrite occurrences_cons. lia.
Qed.

Lemma keeps_removeFromActive held ec id : stable (keeps held) (removeFromActive ec id).
Proof.
  intros w Hb.
  destruct (removeFromActive_exact ec id w) as [[-> _]|(k & iface & Hk & Hid & _ & ->)];
    [done|].
  intros x. specialize (Hb x). rewrite (active_delete k iface w Hk x), Hid in Hb.
  unfold publishes, unpublishes, registered in *. cbn [snd].
  change (active (emit (ObsUnpublish id)
                       (with_scriptIfaces (delete k (scriptIfaces w)) w)))
    with (active (with_scriptIfaces (delete k (scriptIfaces w)) w)).
  change (trace (emit (ObsUnpublish id)
                      (with_scriptIfaces (delete k (scriptIfaces w)) w)))
    with (trace w ++ [ObsUnpublish id]).
  rewrite !count_app. cbn [count is_publish is_unpublish].
  destruct (decide (id = x)) as [->|Hne].
  - rewrite bool_decide_eq_true_2 by done. lia.
  - rewrite bool_decide_eq_false_2 by done. lia.
Qed.

Lemma keeps_emit held o w : registry_event o = false -> keeps held w (emit o w).
Proof.
  intros Ho. apply aside_keeps, aside_emit. intros x. by destruct o.
Qed.

Lemma keeps_with_script_cache held c w : keeps held w (with_script_cache c w).
Proof. apply aside_keeps. by split. Qed.

Lemma keeps_with_frames held f w : keeps held w (with_frames f w).
Proof. apply aside_keeps. by split. Qed.

Lemma keeps_update_frame held pid f w : keeps held w (update_frame pid f w).
Proof. apply aside_keeps. by split. Qed.

Lemma keeps_with_matches held m w : keeps held w (with_matches m w).
Proof. apply aside_keeps. by split. Qed.

Lemma keeps_storage {A : Type} held (m : M A) :
  stable storage_only m -> stable (keeps held) m.
Proof.
  apply stable_weaken. intros w w' H. by apply aside_keeps, storage_only_aside.
Qed.

Lemma keeps_call held f ec id : stable (keeps held) (call f ec id).
Proof.
  destruct f as [[]|]; with_strategy transparent [call] unfold call; repeat stable_step.
  - by apply keeps_emit.
  - apply keeps_removeFromActive.
Qed.

Lemma keeps_remove held id : stable (keeps held) (remove id).
Proof.
  intros w. pose proof (remove_spec id w) as H.
  destruct (script_cache w !! id); rewrite H; simpl; [|reflexivity].
  etransitivity; [apply keeps_with_script_cache|by apply keeps_emit].
Qed.

Lemma keeps_monitorDumpProgress held id dumpId :
  stable (keeps held) (monitorDumpProgress id dumpId).
Proof.
  intros w. destruct (monitorDumpProgress_inv id dumpId w) as (m & ->).
  apply keeps_with_matches.
Qed.

Lemma keeps_report_exit_code held ofs exit_code :
  stable (keeps held) (report_exit_code ofs exit_code).
Proof.
  intros w. destruct (report_exit_code ofs exit_code w) as [r w'] eqn:H.
  apply report_exit_code_inv in H as (f & -> & ->). apply aside_keeps. by split.
Qed.

Lemma keeps_emplace held pid hash : stable (keeps held) (emplace pid hash).
Proof.
  unfold emplace. apply stable_modify. intros w. cbv zeta.
  destruct (script_cache _ !! hash).
  - apply keeps_update_frame.
  - etransitivity; [apply keeps_update_frame|].
    etransitivity; [apply keeps_with_script_cache|by apply keeps_emit].
Qed.

Create HintDb keeps.

#[local] Hint Resolve keeps_emit keeps_with_script_cache keeps_with_frames
  keeps_update_frame keeps_with_matches keeps_call keeps_remove keeps_removeFromActive
  keeps_monitorDumpProgress keeps_report_exit_code keeps_emplace : keeps.

#[local] Hint Extern 1 (stable (keeps _) (scriptDir _ _)) =>
  apply keeps_storage, storage_scriptDir : keeps.
#[local] Hint Extern 1 (stable (keeps _) (scriptFileName _ _)) =>
  apply keeps_storage, storage_scriptFileName : keeps.
#[local] Hint Extern 1 (stable (keeps _) (scriptOutputFileName _ _)) =>
  apply keeps_storage, storage_scriptOutputFileName : keeps.
#[local] Hint Extern 1 (stable (keeps _) (remove_all _ _)) =>
  apply keeps_storage, storage_remove_all : keeps.
#[local] Hint Extern 1 (stable (keeps _) (ofstream_open _ _)) =>
  apply keeps_storage, storage_ofstream_open : keeps.
#[local] Hint Extern 1 (stable (keeps _) (writeResult _ _ _)) =>
  apply keeps_storage, storage_writeResult : keeps.

Ltac keeps_tac := repeat stable_step; eauto with keeps.

Lemma keeps_invokeCallback held ec id : stable (keeps held) (invokeCallback ec id).
Proof. unfold invokeCallback. keeps_tac. Qed.

Lemma keeps_cancel_script held id owner :
  stable (keeps held) (cancel_script id owner).
Proof. unfold cancel_script. keeps_tac. Qed.

#[local] Hint Resolve keeps_invokeCallback keeps_cancel_script : keeps.

Lemma keeps_ScriptIface_cancel held iface owner :
  stable (keeps held) (ScriptIface_cancel iface owner).
Proof. unfold ScriptIface_cancel. keeps_tac. Qed.

#[local] Hint Resolve keeps_ScriptIface_cancel : keeps.

Lemma keeps_cancel held id : stable (keeps held) (cancel id).
Proof. unfold cancel. keeps_tac. Qed.

Lemma keeps_script_cancel held k : stable (keeps held) (script_cancel k).
Proof.
  intros w. unfold script_cancel. destruct (scriptIfaces w !! k); [|reflexivity].
  apply keeps_ScriptIface_cancel.
Qed.

Lemma keeps_propcallback held env id dumpId changed :
  stable (keeps held) (propcallback env id dumpId changed).
Proof.
  induction changed as [|[prop value] rest IH]; simpl; [keeps_tac|].
  unfold propcallback_visit. keeps_tac.
Qed.

Lemma keeps_deliver held dumpId changed env : stable (keeps held) (deliver dumpId changed env).
Proof.
  intros w. unfold deliver. destruct (dumpProgressMatches w !! dumpId) as [[id d]|];
    [|reflexivity].
  apply keeps_propcallback.
Qed.

Lemma keeps_execute_try held pid hash body :
  stable (keeps held) body -> stable (keeps held) (execute_try pid hash body).
Proof.
  intros Hbody w. unfold execute_try. specialize (Hbody w).
  destruct (body w) as [[s|e] w1]; simpl in *.
  - etransitivity; [exact Hbody|apply keeps_update_frame].
  - pose proof (keeps_call held (parameter_callback pid w1) ec_operation_aborted hash w1)
      as Hcall.
    destruct (call _ _ _ w1) as [[u|e'] w2]; simpl in *;
      (etransitivity; [exact Hbody|]; etransitivity; [exact Hcall|apply keeps_update_frame]).
Qed.

Lemma keeps_execute held pid r : stable (keeps held) (execute pid r).
Proof.
  intros w. unfold execute. destruct (frames w !! pid) as [fr|]; [|reflexivity].
  destruct (fr_at fr), r; try reflexivity; apply keeps_execute_try.
  - unfold execute_begin. keeps_tac.
  - unfold execute_streamed, execute_end. keeps_tac.
  - unfold execute_dump_reply, execute_end. keeps_tac.
  - unfold execute_backoff. keeps_tac.
Qed.

Lemma keeps_os_write held os s w : keeps held w (os_write os s w).
Proof. apply aside_keeps, storage_only_aside, storage_os_write. Qed.

#[local] Hint Resolve keeps_os_write : keeps.

Lemma keeps_run_script held id script dumpNeeded cb env :
  stable (keeps held) (run_script id script dumpNeeded cb env).
Proof.
  unfold run_script, co_spawn. keeps_tac.
  match goal with
  | |- stable _ (match ?x with Some _ => _ | None => _ end) => destruct x
  end; keeps_tac.
Qed.

Lemma active_insert k iface w :
  scriptIfaces w !! k = Some iface ->
  active (with_scriptIfaces (<[k := mkScriptIface (data iface) None]> (scriptIfaces w)) w)
  = active w.
Proof.
  unfold active. simpl. generalize (scriptIfaces w). intros l. revert k.
  induction l as [|i l IH]; intros [|k] Hk; try done; simpl in *.
  - by injection Hk as ->.
  - by rewrite IH.
Qed.

Lemma keeps_timer_expired held k : stable (keeps held) (timer_expired k).
Proof.
  intros w. unfold timer_expired.
  destruct (scriptIfaces w !! k) as [iface|] eqn:Hk; [|reflexivity].
  destruct (timer iface); [|reflexivity].
  intros Hb. munfold.
  set (fired := mkScriptIface (data iface) None).
  assert (Hb1 : balanced_with held
                  (with_scriptIfaces (<[k := fired]> (scriptIfaces w)) w)).
  { intros x. specialize (Hb x). unfold registered in *. subst fired.
    rewrite (active_insert k iface w Hk). exact Hb. }
  pose proof (keeps_ScriptIface_cancel held fired (Some k) _ Hb1) as Hc.
  by destruct (ScriptIface_cancel fired (Some k) _) as [[b|e] w2].
Qed.

(** A [ScriptIface] moves between the registry and the handler. *)
Lemma balanced_take_out held iface rest w :
  scriptIfaces w = iface :: rest ->
  balanced_with held w ->
  balanced_with (data_id (data iface) :: held) (with_scriptIfaces rest w).
Proof.
  intros Hl Hb x. specialize (Hb x). unfold registered, active in *.
  rewrite Hl in Hb. cbn [map] in Hb. rewrite !occurrences_cons in *.
  change (publishes x (with_scriptIfaces rest w)) with (publishes x w).
  change (unpublishes x (with_scriptIfaces rest w)) with (unpublishes x w).
  change (scriptIfaces (with_scriptIfaces rest w)) with rest. lia.
Qed.

Lemma balanced_put_in held iface w :
  balanced_with (data_id (data iface) :: held) w ->
  balanced_with held (with_scriptIfaces (scriptIfaces w ++ [iface]) w).
Proof.
  intros Hb x. specialize (Hb x). unfold registered, active in *.
  change (publishes x (with_scriptIfaces (scriptIfaces w ++ [iface]) w))
    with (publishes x w).
  change (unpublishes x (with_scriptIfaces (scriptIfaces w ++ [iface]) w))
    with (unpublishes x w).
  change (scriptIfaces (with_scriptIfaces (scriptIfaces w ++ [iface]) w))
    with (scriptIfaces w ++ [iface]).
  rewrite map_app, occurrences_app. cbn [map].
  rewrite !occurrences_cons in *.
  change (occurrences x []) with 0%nat. lia.
Qed.

Lemma balanced_dtor held iface w :
  balanced_with (data_id (data iface) :: held) w ->
  balanced_with held (ScriptIface_dtor iface w).
Proof.
  intros Hb x. specialize (Hb x). unfold ScriptIface_dtor, publishes, unpublishes in *.
  change (registered x (emit (ObsUnpublish (data_id (data iface))) w))
    with (registered x w).
  simpl. rewrite !count_app. simpl. rewrite occurrences_cons in Hb.
  case_decide as Hx.
  - rewrite bool_decide_eq_true_2 by done. lia.
  - rewrite bool_decide_eq_false_2 by done. lia.
Qed.

Lemma balanced_ctor held d w :
  balanced_with held w ->
  balanced_with (data_id d :: held) (emit (ObsPublish (data_id d)) w).
Proof.
  intros Hb x. specialize (Hb x). unfold publishes, unpublishes in *.
  change (registered x (emit (ObsPublish (data_id d)) w)) with (registered x w).
  simpl. rewrite !count_app. simpl. rewrite occurrences_cons.
  case_decide as Hx.
  - rewrite bool_decide_eq_true_2 by done. lia.
  - rewrite bool_decide_eq_false_2 by done. lia.
Qed.

Lemma keeps_ensure_loop held n : stable (keeps held) (ensure_loop n).
Proof.
  induction n as [|n IH]; intros w; [reflexivity|].
  rewrite ensure_loop_unfold.
  destruct (scriptIfaces w) as [|iface rest] eqn:Hl; [reflexivity|].
  destruct (maxActiveScripts <=? length (iface :: rest))%nat; [|reflexivity].
  intros Hb. apply (balanced_take_out held iface rest w Hl) in Hb.
  revert Hb. generalize (with_scriptIfaces rest w). intros w1 Hb.
  unfold ensure_body. munfold.
  pose proof (keeps_ScriptIface_cancel (data_id (data iface) :: held) iface None w1 Hb)
    as Hc.
  destruct (ScriptIface_cancel iface None w1) as [[b|e] w2]; simpl in *.
  - apply IH. by apply balanced_dtor.
  - by apply balanced_dtor.
Qed.

Lemma keeps_ensureMaxActiveScripts held : stable (keeps held) ensureMaxActiveScripts.
Proof. intros w. apply keeps_ensure_loop. Qed.

Lemma startTimeout_data iface w :
  exists armed w',
    startTimeout iface w = (Ret armed, w')
    /\ data armed = data iface
    /\ aside w w'.
Proof.
  unfold startTimeout. case_decide.
  - exists iface, w. by repeat split.
  - munfold. eexists _, _. split; [done|]. split; [done|].
    apply aside_emit. by intros x.
Qed.

(** [runScript] either registers the [ScriptIface] it was given or
    destroys it. *)
Lemma runScript_settles held iface env w :
  balanced_with (data_id (data iface) :: held) w ->
  balanced_with held (runScript iface env w).2.
Proof.
  intros Hb. unfold runScript. munfold.
  pose proof (keeps_run_script (data_id (data iface) :: held)
                (data_id (data iface)) (data_script (data iface))
                (data_dumpNeeded (data iface)) (Some bound_removeFromActive) env w Hb) as Hr.
  destruct (run_script _ _ _ _ env w) as [[[|]|e] w1]; simpl in *.
  - destruct (startTimeout_data iface w1) as (armed & w2 & -> & Hd & Ha). simpl.
    apply (aside_keeps (data_id (data iface) :: held)) in Ha. specialize (Ha Hr).
    rewrite <- Hd in Ha. by apply balanced_put_in.
  - by apply balanced_dtor.
  - by apply balanced_dtor.
Qed.

Lemma keeps_addToActive held EVP script timeout dumpNeeded env :
  stable (keeps held) (addToActive EVP script timeout dumpNeeded env).
Proof.
  intros w Hb. unfold addToActive.
  destruct (makeScriptId EVP (now_time_t env) script) as [id|]; munfold; simpl; [|done].
  unfold ScriptIface_ctor. destruct (add_interface_ok env); munfold; simpl; [|done].
  set (iface := mkScriptIface (mkData script id timeout dumpNeeded) None).
  pose proof (runScript_settles held iface (start_fs env)
                (emit (ObsPublish id) w)
                (balanced_ctor held (mkData script id timeout dumpNeeded) w Hb)) as Hs.
  by destruct (runScript iface (start_fs env) (emit (ObsPublish id) w)) as [[b|e] w1].
Qed.

Lemma keeps_start held EVP script timeout dumpNeeded env :
  stable (keeps held) (start EVP script timeout dumpNeeded env).
Proof.
  unfold start. apply stable_bind; [apply _| |intros ?].
  - apply keeps_ensureMaxActiveScripts.
  - apply keeps_addToActive.
Qed.

Lemma balanced_step EVP e w : balanced w -> balanced (step EVP e w).
Proof.
  destruct e; simpl; unfold exec.
  - apply keeps_start.
  - apply keeps_cancel.
  - apply keeps_script_cancel.
  - apply keeps_timer_expired.
  - apply keeps_execute.
  - apply keeps_deliver.
Qed.

(** X15.  In every world the event loop can reach, and for every job id,
    the objects published under the id and not yet unpublished are as many
    as the registry has entries with that id: no per-job object outlives
    its [ScriptIface], and none in the registry has lost its object. *)
Theorem published_objects_match_registry EVP events x :
  publishes x (run EVP events initial)
  = (unpublishes x (run EVP events initial) + registered x (run EVP events initial))%nat.
Proof.
  assert (Hb : balanced (run EVP events initial)).
  { induction events as [|e events IH] using rev_ind; [by intros y|].
    rewrite run_snoc. by apply balanced_step. }
  specialize (Hb x). unfold occurrences in Hb. simpl in Hb. lia.
Qed.

(** ** The methods [cancel] and [start] *)

Lemma getScriptIface_None id w :
  getScriptIface id w = None <-> id ∉ active w.
Proof.
  unfold getScriptIface, active.
  destruct (list_find _ (scriptIfaces w)) as [[k iface]|] eqn:Hfind; simpl.
  - split; [done|]. intros Hnot. exfalso. apply Hnot.
    apply list_find_Some in Hfind as (Hk & Hid & _).
    apply list_elem_of_In, in_map_iff. exists iface. split; [done|].
    apply list_elem_of_In. by eapply list_elem_of_lookup_2.
  - split; [|done]. intros _ Hin.
    apply list_find_None in Hfind. rewrite Forall_forall in Hfind.
    apply list_elem_of_In, in_map_iff in Hin as (iface & Hid & Hin).
    apply list_elem_of_In in Hin. by apply (Hfind iface).
Qed.

(** X13.  The method [cancel], given an id that is not in the registry,
    or the id of a registered job that is not in the job table, returns
    [false] and changes neither the registry nor the job table nor a
    coroutine nor working storage: in the first case it does nothing at
    all, in the second [ScriptIface::cancel] finds nothing to cancel. *)
Theorem cancel_fails_without_effect id w :
  cancellable id w = false ->
  cancel id w
  = (Ret false,
     if bool_decide (id ∈ active w) then emit (ObsCancel id false) w else w).
Proof.
  unfold cancellable. intros Hc.
  unfold cancel. munfold.
  destruct (getScriptIface id w) as [[k iface]|] eqn:Hget.
  - assert (Hin : id ∈ active w).
    { destruct (decide (id ∈ active w)) as [|Hnot]; [done|].
      apply getScriptIface_None in Hnot. congruence. }
    rewrite (bool_decide_eq_true_2 _ Hin) in *. simpl in Hc.
    apply bool_decide_eq_false in Hc.
    unfold getScriptIface in Hget. apply list_find_Some in Hget as (_ & <- & _).
    apply ScriptIface_cancel_absent.
    destruct (script_cache w !! data_id (data iface)) eqn:Hlook; [|done].
    exfalso. apply Hc. by eexists.
  - apply getScriptIface_None in Hget.
    by rewrite (bool_decide_eq_false_2 _ Hget).
Qed.

Lemma cancel_fails_witness :
  cancellable "0000000000000000" (run EVP_sha256_ok demo_running initial) = false
  /\ cancel "0000000000000000" (run EVP_sha256_ok demo_running initial)
     = (Ret false,
        if bool_decide ("0000000000000000" ∈ active (run EVP_sha256_ok demo_running initial))
        then emit (ObsCancel "0000000000000000" false)
                  (run EVP_sha256_ok demo_running initial)
        else run EVP_sha256_ok demo_running initial).
Proof.
  assert (Hc : cancellable "0000000000000000" (run EVP_sha256_ok demo_running initial)
               = false) by (vm_compute; reflexivity).
  split; [exact Hc|].
  exact (cancel_fails_without_effect "0000000000000000"
           (run EVP_sha256_ok demo_running initial) Hc).
Defined.

(** The loop of [ensureMaxActiveScripts] in a world the event loop can
    reach: it returns, with the registry empty; the directories of
    working storage are as before. *)
Lemma ensureMaxActiveScripts_clears w :
  tidy w -> bounded w ->
  exists w1,
    ensureMaxActiveScripts w = (Ret tt, w1)
    /\ scriptIfaces w1 = []
    /\ dirs w1 = dirs w.
Proof.
  intros Htidy Hb. unfold bounded, maxActiveScripts in Hb.
  destruct (scriptIfaces w) as [|oldest [|i l]] eqn:Hl; simpl in Hb; [| |lia].
  - exists w. unfold ensureMaxActiveScripts. rewrite Hl. simpl length.
    rewrite ensure_loop_unfold, Hl. done.
  - destruct (script_cache w !! data_id (data oldest)) as [entry|] eqn:Hlook.
    + rewrite (ensureMaxActiveScripts_cancels w oldest entry) by done.
      eexists. by repeat split.
    + rewrite (ensureMaxActiveScripts_unregisters w oldest) by done.
      eexists. by repeat split.
Qed.

(** [addToActive] once the id is computed: the result and the registry. *)
Lemma addToActive_outcome EVP script timeout dumpNeeded env id w :
  makeScriptId EVP (now_time_t env) script = Some id ->
  (addToActive EVP script timeout dumpNeeded env w).1 = Ret (admissible id env w)
  /\ active (addToActive EVP script timeout dumpNeeded env w).2
     = active w ++ (if admissible id env w then [id] else []).
Proof.
  intros Hid. unfold addToActive, admissible. rewrite Hid. munfold. simpl.
  unfold try_catch, ScriptIface_ctor. munfold.
  destruct (add_interface_ok env); simpl; [|by rewrite app_nil_r].
  set (iface := mkScriptIface (mkData script id timeout dumpNeeded) None).
  set (w0 := emit (ObsPublish id) w).
  unfold runScript, unwinding. munfold. simpl.
  pose proof (run_script_result id script dumpNeeded (Some bound_removeFromActive)
                (start_fs env) w0) as Hres.
  pose proof (run_script_unspawned id script dumpNeeded (Some bound_removeFromActive)
                (start_fs env) w0) as Hun.
  pose proof (run_script_world id script dumpNeeded (Some bound_removeFromActive)
                (start_fs env) w0) as Hw.
  change (dirs w0) with (dirs w) in Hres.
  destruct (run_script id script dumpNeeded (Some bound_removeFromActive) (start_fs env) w0)
    as [[b|e] w1] eqn:Hrun; simpl in *.
  - destruct (proj1 (Hres b) eq_refl) as [Hdir Hopen]. rewrite Hopen.
    assert (Hd : bool_decide (dir_path id ∈ dirs w) || mkdir_ok (start_fs env) = true).
    { destruct Hdir as [Hin| ->]; [by rewrite bool_decide_eq_true_2|by rewrite orb_true_r]. }
    rewrite Hd. simpl. destruct b; simpl.
    + destruct (Hw eq_refl) as (d & f & -> & _).
      match goal with
      | |- context [startTimeout iface ?w'] =>
          destruct (startTimeout_data iface w') as (armed & w2 & -> & Hdata & Hsame & _)
      end.
      simpl. split; [done|]. unfold active. simpl. rewrite Hsame. simpl.
      rewrite map_app. simpl. by rewrite Hdata.
    + split; [done|]. unfold active, ScriptIface_dtor. simpl.
      destruct Hun as (-> & _); [done|]. by rewrite app_nil_r.
  - assert (Hfalse : (bool_decide (dir_path id ∈ dirs w) || mkdir_ok (start_fs env))
                     && open_ok (start_fs env) = false).
    { destruct (_ && _) eqn:Hadm; [|done]. exfalso.
      apply andb_prop in Hadm as [Hd Hopen]. apply orb_prop in Hd.
      assert (Ht : Throw e = Ret true); [|done].
      apply Hres. split; [|done].
      destruct Hd as [Hd|Hd]; [left; by apply bool_decide_eq_true in Hd|by right]. }
    rewrite Hfalse. split; [done|]. unfold active, ScriptIface_dtor. simpl.
    destruct Hun as (-> & _); [done|]. by rewrite app_nil_r.
Qed.

(** X14.  In every world the event loop can reach in which the child of
    the registered job, if the job is in the job table, is still there, a
    call of [start] whose job id can be computed returns, and afterwards
    the registry lists the new job alone if the call returned [true] and
    nothing if it returned [false].  The call returns [true] exactly when
    the object of the job could be published, the working directory was
    there or could be created, and the script file could be opened. *)
Theorem start_leaves_only_the_new_job EVP events w script timeout dumpNeeded env id :
  w = run EVP events initial ->
  (forall x entry, x ∈ active w -> script_cache w !! x = Some entry -> attached entry w) ->
  makeScriptId EVP (now_time_t env) script = Some id ->
  (start EVP script timeout dumpNeeded env w).1 = Ret (admissible id env w)
  /\ active (exec (start EVP script timeout dumpNeeded env) w)
     = (if admissible id env w then [id] else []).
Proof.
  intros -> _ Hid. pose proof (invariant_run EVP events) as (Hb & _ & Htidy).
  revert Hb Htidy. generalize (run EVP events initial). intros w Hb Htidy.
  destruct (ensureMaxActiveScripts_clears w Htidy Hb) as (w1 & Hens & Hl & Hd).
  unfold exec, start. munfold. rewrite Hens. simpl.
  destruct (addToActive_outcome EVP script timeout dumpNeeded env id w1 Hid) as [Hres Hact].
  assert (Hadm : admissible id env w1 = admissible id env w).
  { unfold admissible. by rewrite Hd. }
  rewrite Hadm in *. split; [done|].
  rewrite Hact. unfold active at 1. by rewrite Hl.
Qed.

Lemma start_witness :
  (forall x entry,
     x ∈ active (run EVP_sha256_ok demo_running initial) ->
     script_cache (run EVP_sha256_ok demo_running initial) !! x = Some entry ->
     attached entry (run EVP_sha256_ok demo_running initial))
  /\ makeScriptId EVP_sha256_ok (now_time_t demo_env) "echo Hello" = Some "29242177a4a07f0b"
  /\ (start EVP_sha256_ok "echo Hello" 30 false demo_env
            (run EVP_sha256_ok demo_running initial)).1
     = Ret (admissible "29242177a4a07f0b" demo_env (run EVP_sha256_ok demo_running initial))
  /\ active (exec (start EVP_sha256_ok "echo Hello" 30 false demo_env)
                  (run EVP_sha256_ok demo_running initial))
     = (if admissible "29242177a4a07f0b" demo_env (run EVP_sha256_ok demo_running initial)
        then ["29242177a4a07f0b"] else []).
Proof.
  assert (Ha : forall x entry,
            x ∈ active (run EVP_sha256_ok demo_running initial) ->
            script_cache (run EVP_sha256_ok demo_running initial) !! x = Some entry ->
            attached entry (run EVP_sha256_ok demo_running initial)).
  { intros x entry Hx Hlook.
    assert (Hact : active (run EVP_sha256_ok demo_running initial) = ["29242177a4a07f0b"])
      by (vm_compute; reflexivity).
    rewrite Hact in Hx. apply list_elem_of_singleton in Hx. subst x.
    assert (Hs : script_cache (run EVP_sha256_ok demo_running initial) !! "29242177a4a07f0b"
                 = Some (mkScriptEntry 0 (Some bound_removeFromActive)))
      by (vm_compute; reflexivity).
    rewrite Hs in Hlook. injection Hlook as <-.
    exists demo_spawned_frame. split; vm_compute; reflexivity. }
  assert (Hid : makeScriptId EVP_sha256_ok (now_time_t demo_env) "echo Hello"
                = Some "29242177a4a07f0b") by (vm_compute; reflexivity).
  split; [exact Ha|]. split; [exact Hid|].
  exact (start_leaves_only_the_new_job
           EVP_sha256_ok demo_running (run EVP_sha256_ok demo_running initial)
           "echo Hello" 30 false demo_env "29242177a4a07f0b" eq_refl Ha Hid).
Defined.

(** X16.  In every world the event loop can reach, the [cancel] method of
    the object published for a registered job does what the [cancel]
    method of the service does when it is given the id of that job: same
    result, same world. *)
Theorem object_cancel_same_as_service_cancel EVP events w k iface :
  w = run EVP events initial ->
  scriptIfaces w !! k = Some iface ->
  script_cancel k w = cancel (data_id (data iface)) w.
Proof.
  intros -> Hk. pose proof (invariant_run EVP events) as (Hb & _).
  revert Hb Hk. generalize (run EVP events initial). intros w Hb Hk.
  destruct (bounded_single w k iface Hb Hk) as [Hl ->].
  unfold script_cancel, cancel, getScriptIface. munfold. rewrite Hk, Hl. simpl.
  by rewrite decide_True.
Qed.

Lemma object_cancel_witness :
  scriptIfaces (run EVP_sha256_ok demo_running initial) !! 0%nat = Some demo_iface
  /\ script_cancel 0 (run EVP_sha256_ok demo_running initial)
     = cancel (data_id (data demo_iface)) (run EVP_sha256_ok demo_running initial).
Proof.
  assert (Hk : scriptIfaces (run EVP_sha256_ok demo_running initial) !! 0%nat
               = Some demo_iface) by (vm_compute; reflexivity).
  split; [exact Hk|].
  exact (object_cancel_same_as_service_cancel
           EVP_sha256_ok demo_running (run EVP_sha256_ok demo_running initial)
           0%nat demo_iface eq_refl Hk).
Defined.
